(** * The renderer: vmlib/mat44.hpp, main.cpp and the shaders

    A shallow embedding of the transform header of the renderer
    ([Mat44f] and its two-index accessor, [kIdentity44f], the two
    [operator*] overloads, [transpose] and the [make_*] constructors;
    [invert] is only declared in the header and is not modelled), and
    of the parts of main.cpp that compute: the camera and the view
    matrix, the input callbacks, the extraction of the terrain mesh and
    its bounds, and the lambdas that build the space vehicle; and of
    the two shaders, default.vert and default.frag. The calls into
    OpenGL, GLFW, rapidobj and stb_image are outside the model; a
    callback's calls on the window are recorded as a list.

    The C++ code computes on [float]. The embedding is written once,
    against an interface of scalar operations ([Scalar], [Trig]), and
    is read in two ways:
    - over the real numbers, the exact arithmetic in which the
      properties of the header are stated and proved;
    - over IEEE-754 binary32 (the [SpecFloat] of the standard library,
      every operation rounded to nearest even on its own), where the
      unit tests are evaluated and the algebraic properties are proved
      again for finite floats, up to the sign of a zero.
    The callbacks are modelled on binary32 and binary64 directly. The
    rotations of the tests are also followed on binary32, for a
    [std::cos] and a [std::sin] of a stated accuracy. The product of a
    [mat4] with a [vec4] in the vertex shader is given in exact
    arithmetic only: GLSL does not fix how it is rounded.

    Definitions come first, then the tactics, then the theorems:
    the layout of [v[16]], exact arithmetic, binary32, the tests,
    main.cpp part by part, and the shaders. *)

From Stdlib Require Import ZArith NArith List Bool Lia.
From Stdlib Require Import Reals Lra.
From Stdlib Require Import Floats.SpecFloat.
Import ListNotations.

Set Implicit Arguments.

(** ** Scalars *)

(** What the header does with a [float]: literals with an integral
  value ([0.f], [1.f], [2.f]), the four operations and unary minus. *)
Class Scalar (F : Type) : Type := {
  fconst : Z -> F;
  fadd : F -> F -> F;
  fsub : F -> F -> F;
  fmul : F -> F -> F;
  fdiv : F -> F -> F;
  fneg : F -> F
}.

(** [std::cos], [std::sin], [std::tan] from <cmath>. *)
Class Trig (F : Type) : Type := {
  fcos : F -> F;
  fsin : F -> F;
  ftan : F -> F
}.

Declare Scope float_scope.
Delimit Scope float_scope with fl.
Notation "0" := (fconst 0%Z) : float_scope.
Notation "1" := (fconst 1%Z) : float_scope.
Notation "2" := (fconst 2%Z) : float_scope.
Infix "+" := fadd : float_scope.
Infix "-" := fsub : float_scope.
Infix "*" := fmul : float_scope.
Infix "/" := fdiv : float_scope.
Notation "- x" := (fneg x) : float_scope.

(** ** Vectors *)

(** Modelled from the spec: vec3.hpp is not part of the sources at hand;
  [Vec3f] is the plain 3-component value type of section 3, with the
  member names [x], [y], [z] that mat44.hpp reads. *)
Module Vec3f.
Record t (F : Type) : Type := make { x : F; y : F; z : F }.
End Vec3f.

(** Modelled from the spec: vec4.hpp is not part of the sources at hand;
  [Vec4f] is the plain 4-component value type of section 3, with the
  member names [x], [y], [z], [w] that mat44.hpp reads and the member
  order that the brace initialisers of the tests rely on. *)
Module Vec4f.
Record t (F : Type) : Type := make { x : F; y : F; z : F; w : F }.
End Vec4f.

(** ** Control flow *)

(** [for (std::size_t i = start; i < start + count; ++i) body]. The
  loop state is threaded through the body. *)
Fixpoint for_from {S : Type} (start count : nat) (body : nat -> S -> S) (s : S) : S :=
  match count with
  | O => s
  | Datatypes.S count' => for_from (Datatypes.S start) count' body (body start s)
  end.

(** [for (std::size_t i = 0; i < bound; ++i) body]. *)
Definition for_lt {S : Type} (bound : nat) (body : nat -> S -> S) (s : S) : S :=
  for_from 0 bound body s.

(** [std::size_t] on the 64-bit targets of the renderer. *)
Definition size_t_modulus : N := 2 ^ 64.

(** How a call ends: with a result, in [abort()] after a failed
    [assert], or in undefined behaviour. *)
Inductive outcome (A : Type) : Type :=
  | Returns (a : A)
  | Aborts
  | Undefined.
Arguments Aborts {A}.
Arguments Undefined {A}.

Definition outcome_map {A B : Type} (f : A -> B) (o : outcome A) : outcome B :=
  match o with
  | Returns a => Returns (f a)
  | Aborts => Aborts
  | Undefined => Undefined
  end.

Definition outcome_bind {A B : Type} (o : outcome A) (k : A -> outcome B) : outcome B :=
  match o with
  | Returns a => k a
  | Aborts => Aborts
  | Undefined => Undefined
  end.

(** [for_lt] for a body that may not return. *)
Definition for_lt_checked {S : Type} (bound : nat) (body : nat -> S -> outcome S)
    (s : S) : outcome S :=
  for_lt bound (fun i o => outcome_bind o (body i)) (Returns s).

(** [assert(c); k] with the [assert] of <cassert>: the condition is
    checked unless the translation unit is compiled with [NDEBUG]. *)
Definition assert_ {A : Type} (NDEBUG c : bool) (k : outcome A) : outcome A :=
  if NDEBUG || c then k else Aborts.

(** The lvalue [v[n]] of a [float v[16]]: the offset when it is inside
    the array, undefined behaviour otherwise. *)
Definition v_ref (n : N) : outcome nat :=
  if (n <? 16)%N then Returns (N.to_nat n) else Undefined.

(** ** Mat44f *)

Section Mat44.
Context {F : Type} {SF : Scalar F}.

(** [struct Mat44f { float v[16]; }]: sixteen floats, row-major. The
    constructor plays the brace initialiser [Mat44f{ { ... } }]. *)
Record Mat44f : Type := Mat44f_init {
  v_0  : F; v_1  : F; v_2  : F; v_3  : F;
  v_4  : F; v_5  : F; v_6  : F; v_7  : F;
  v_8  : F; v_9  : F; v_10 : F; v_11 : F;
  v_12 : F; v_13 : F; v_14 : F; v_15 : F
}.

(** [m.v[n]] as an rvalue. An offset past the end is undefined
    behaviour in C++; this reading gives [0.f] there, and
    [operator_mul_checked_returns] and [transpose_checked_returns] show
    that no loop of the header gets there. *)
Definition v (m : Mat44f) (n : nat) : F :=
  match n with
  | 0 => v_0 m   | 1 => v_1 m   | 2 => v_2 m   | 3 => v_3 m
  | 4 => v_4 m   | 5 => v_5 m   | 6 => v_6 m   | 7 => v_7 m
  | 8 => v_8 m   | 9 => v_9 m   | 10 => v_10 m | 11 => v_11 m
  | 12 => v_12 m | 13 => v_13 m | 14 => v_14 m | 15 => v_15 m
  | _ => 0%fl
  end.

(** [m.v[n] = x]. An offset past the end leaves the array as it is. *)
Definition v_set (m : Mat44f) (n : nat) (x : F) : Mat44f :=
  let e k := if Nat.eqb n k then x else v m k in
  Mat44f_init
    (e 0)  (e 1)  (e 2)  (e 3)
    (e 4)  (e 5)  (e 6)  (e 7)
    (e 8)  (e 9)  (e 10) (e 11)
    (e 12) (e 13) (e 14) (e 15).

Local Open Scope float_scope.

(** The reference returned by [operator[] (std::size_t aI, std::size_t aJ)],
    as the offset into [v] it refers to. The offset is computed in
    [std::size_t]. *)
Definition operator_subscript (NDEBUG : bool) (aI aJ : N) : outcome nat :=
  assert_ NDEBUG ((aI <? 4) && (aJ <? 4))%N
    (v_ref ((aI * 4 + aJ) mod size_t_modulus)).

(** [m[aI, aJ]] as an rvalue (the const overload). *)
Definition operator_subscript_read (NDEBUG : bool) (m : Mat44f) (aI aJ : N) : outcome F :=
  outcome_map (v m) (operator_subscript NDEBUG aI aJ).

(** [m[aI, aJ] = x] (the non-const overload). *)
Definition operator_subscript_write (NDEBUG : bool) (m : Mat44f) (aI aJ : N) (x : F) :
    outcome Mat44f :=
  outcome_map (fun n => v_set m n x) (operator_subscript NDEBUG aI aJ).

(** [constexpr Mat44f kIdentity44f]. *)
Definition kIdentity44f : Mat44f :=
  Mat44f_init
    1 0 0 0
    0 1 0 0
    0 0 1 0
    0 0 0 1.

(** A local [Mat44f ret;] is declared without an initialiser, so its
    content is indeterminate. The loops below take that content as
    [ret]; [zero_filled] is what the closed definitions start from,
    and [operator_mul_into_any] and [transpose_into_any] show that the
    choice is immaterial. *)
Definition zero_filled : Mat44f :=
  Mat44f_init 0 0 0 0 0 0 0 0 0 0 0 0 0 0 0 0.

(** The loop nest of [operator*(Mat44f const&, Mat44f const&)]. *)
Definition operator_mul_into (ret aLeft aRight : Mat44f) : Mat44f :=
  for_lt 4 (fun i ret =>
    for_lt 4 (fun j ret =>
      let ret := v_set ret (i * 4 + j) 0 in
      for_lt 4 (fun k ret =>
        v_set ret (i * 4 + j)
          (v ret (i * 4 + j) + v aLeft (i * 4 + k) * v aRight (k * 4 + j)))
        ret)
      ret)
    ret.

(** [Mat44f operator*(Mat44f const& aLeft, Mat44f const& aRight)]. *)
Definition operator_mul (aLeft aRight : Mat44f) : Mat44f :=
  operator_mul_into zero_filled aLeft aRight.

(** [Vec4f operator*(Mat44f const& aLeft, Vec4f const& aRight)]. *)
Definition operator_mul_vec (aLeft : Mat44f) (aRight : Vec4f.t F) : Vec4f.t F :=
  let x := Vec4f.x aRight in
  let y := Vec4f.y aRight in
  let z := Vec4f.z aRight in
  let w := Vec4f.w aRight in
  Vec4f.make
    (v aLeft 0 * x + v aLeft 1 * y + v aLeft 2 * z + v aLeft 3 * w)
    (v aLeft 4 * x + v aLeft 5 * y + v aLeft 6 * z + v aLeft 7 * w)
    (v aLeft 8 * x + v aLeft 9 * y + v aLeft 10 * z + v aLeft 11 * w)
    (v aLeft 12 * x + v aLeft 13 * y + v aLeft 14 * z + v aLeft 15 * w).

(** The loop nest of [transpose]. *)
Definition transpose_into (ret aM : Mat44f) : Mat44f :=
  for_lt 4 (fun i ret =>
    for_lt 4 (fun j ret =>
      v_set ret (j * 4 + i) (v aM (i * 4 + j)))
      ret)
    ret.

(** [Mat44f transpose(Mat44f const& aM)]. *)
Definition transpose (aM : Mat44f) : Mat44f :=
  transpose_into zero_filled aM.

(** The accesses [m.v[n]] and [m.v[n] = x] with the bounds of [v[16]]
    checked: an offset past the end is undefined behaviour. *)
Definition v_checked (m : Mat44f) (n : nat) : outcome F :=
  if Nat.ltb n 16 then Returns (v m n) else Undefined.

Definition v_set_checked (m : Mat44f) (n : nat) (x : F) : outcome Mat44f :=
  if Nat.ltb n 16 then Returns (v_set m n x) else Undefined.

(** The two loop nests again, with every access checked.
    [operator_mul_checked_returns] and [transpose_checked_returns] show
    that they return what the unchecked ones compute: the loops stay
    inside the arrays. *)
Definition operator_mul_checked (ret aLeft aRight : Mat44f) : outcome Mat44f :=
  for_lt_checked 4 (fun i ret =>
    for_lt_checked 4 (fun j ret =>
      outcome_bind (v_set_checked ret (i * 4 + j) 0) (fun ret =>
      for_lt_checked 4 (fun k ret =>
        outcome_bind (v_checked ret (i * 4 + j)) (fun acc =>
        outcome_bind (v_checked aLeft (i * 4 + k)) (fun a =>
        outcome_bind (v_checked aRight (k * 4 + j)) (fun b =>
        v_set_checked ret (i * 4 + j) (acc + a * b)))))
        ret))
      ret)
    ret.

Definition transpose_checked (ret aM : Mat44f) : outcome Mat44f :=
  for_lt_checked 4 (fun i ret =>
    for_lt_checked 4 (fun j ret =>
      outcome_bind (v_checked aM (i * 4 + j)) (fun a =>
      v_set_checked ret (j * 4 + i) a))
      ret)
    ret.

(** [Mat44f make_translation(Vec3f aTranslation)]. *)
Definition make_translation (aTranslation : Vec3f.t F) : Mat44f :=
  Mat44f_init
    1 0 0 (Vec3f.x aTranslation)
    0 1 0 (Vec3f.y aTranslation)
    0 0 1 (Vec3f.z aTranslation)
    0 0 0 1.

(** [Mat44f make_scaling(float aSX, float aSY, float aSZ)]. *)
Definition make_scaling (aSX aSY aSZ : F) : Mat44f :=
  Mat44f_init
    aSX 0 0 0
    0 aSY 0 0
    0 0 aSZ 0
    0 0 0 1.

Context {TF : Trig F}.

(** [Mat44f make_rotation_x(float aAngle)]. *)
Definition make_rotation_x (aAngle : F) : Mat44f :=
  let c := fcos aAngle in
  let s := fsin aAngle in
  Mat44f_init
    1 0 0 0
    0 c (- s) 0
    0 s c 0
    0 0 0 1.

(** [Mat44f make_rotation_y(float aAngle)]. *)
Definition make_rotation_y (aAngle : F) : Mat44f :=
  let c := fcos aAngle in
  let s := fsin aAngle in
  Mat44f_init
    c 0 s 0
    0 1 0 0
    (- s) 0 c 0
    0 0 0 1.

(** [Mat44f make_rotation_z(float aAngle)]. *)
Definition make_rotation_z (aAngle : F) : Mat44f :=
  let c := fcos aAngle in
  let s := fsin aAngle in
  Mat44f_init
    c (- s) 0 0
    s c 0 0
    0 0 1 0
    0 0 0 1.

(** [Mat44f make_perspective_projection(float aFovInRadians,
    float aAspect, float aNear, float aFar)]. *)
Definition make_perspective_projection (aFovInRadians aAspect aNear aFar : F) : Mat44f :=
  let f := 1 / ftan (aFovInRadians / 2) in
  let nf := 1 / (aNear - aFar) in
  Mat44f_init
    (f / aAspect) 0 0 0
    0 f 0 0
    0 0 ((aFar + aNear) * nf) (2 * aFar * aNear * nf)
    0 0 (fneg 1) 0.

End Mat44.

Arguments Mat44f F : clear implicits.

(** [m[i, j]] for in-range constant indices, as the tests and the
  statements below read entries. *)
Definition entry {F : Type} {SF : Scalar F} (m : Mat44f F) (i j : nat) : F :=
  v m (i * 4 + j).

(** ** The two instances *)

(** Exact arithmetic: the real numbers. *)
#[export] Instance R_Scalar : Scalar R := {
  fconst := IZR;
  fadd := Rplus;
  fsub := Rminus;
  fmul := Rmult;
  fdiv := Rdiv;
  fneg := Ropp
}.

#[export] Instance R_Trig : Trig R := {
  fcos := cos;
  fsin := sin;
  ftan := tan
}.

(** IEEE-754 binary32, the [float] of the targets of the renderer:
  24 bits of precision, infinities at exponent 128, rounding to
  nearest even. *)
Definition binary32 : Type := spec_float.

#[export] Instance binary32_Scalar : Scalar binary32 := {
  fconst := fun z => binary_normalize 24 128 z 0 false;
  fadd := SFadd 24 128;
  fsub := SFsub 24 128;
  fmul := SFmul 24 128;
  fdiv := SFdiv 24 128;
  fneg := SFopp
}.

(** ** binary32 values *)

(** [std::numbers::pi_v<float>], the binary32 number nearest to pi:
    13176795 * 2^-22. *)
Definition pi_v_float : binary32 := S754_finite false 13176795 (-22).

(** [90.f * std::numbers::pi_v<float> / 180.f], the angle the rotation
    tests pass to [make_rotation_x], [make_rotation_y] and
    [make_rotation_z]. *)
Definition quarter_turn_float : binary32 :=
  (fconst 90 * pi_v_float / fconst 180)%fl.

(** The real number a finite binary32 value stands for. *)
Definition binary32_to_R (x : binary32) : R :=
  match x with
  | S754_finite s m e => ((if s then -1 else 1) * IZR (Zpos m) * powerRZ 2 e)%R
  | _ => 0%R
  end.

(** A zero or a finite number in the binary32 format: neither an
    infinity nor a NaN. *)
Definition finite32 (x : binary32) : bool :=
  match x with
  | S754_zero _ => true
  | S754_finite _ m e => SpecFloat.bounded 24 128 m e
  | _ => false
  end.

Definition is_zero32 (x : binary32) : bool :=
  match x with
  | S754_zero _ => true
  | _ => false
  end.

(** The same float, up to the sign of a zero. *)
Definition same_float (x y : binary32) : Prop :=
  x = y \/ (is_zero32 x = true /\ is_zero32 y = true).

Definition finite_Vec3f (t : Vec3f.t binary32) : Prop :=
  finite32 (Vec3f.x t) = true /\ finite32 (Vec3f.y t) = true /\
  finite32 (Vec3f.z t) = true.

Definition finite_Vec4f (p : Vec4f.t binary32) : Prop :=
  finite32 (Vec4f.x p) = true /\ finite32 (Vec4f.y p) = true /\
  finite32 (Vec4f.z p) = true /\ finite32 (Vec4f.w p) = true.

(** Sixteen finite floats. *)
Definition finite_Mat44f (m : Mat44f binary32) : Prop :=
  forall n : nat, n < 16 -> finite32 (v m n) = true.

(** The same sixteen floats, up to the signs of zeros. *)
Definition same_Mat44f (a b : Mat44f binary32) : Prop :=
  forall n : nat, n < 16 -> same_float (v a n) (v b n).

(** ** What the tests compare with *)

(** [REQUIRE_THAT( x, WithinAbs( target, margin ) )] of the test suite. *)
Definition WithinAbs (target margin x : R) : Prop :=
  (Rabs (x - target) <= margin)%R.

(** The tolerance of the properties, 1e-6. *)
Definition tolerance : R := (1 / 1000000)%R.

(** [static constexpr float kEps_ = 1e-6f]: the binary32 number nearest
    to 1e-6, which is 8796093 * 2^-43. *)
Definition kEps_ : R := (8796093 / 2 ^ 43)%R.

(** All four components of [r] pass [WithinAbs] against [target]. *)
Definition Vec4f_WithinAbs (target : Vec4f.t R) (margin : R) (r : Vec4f.t R) : Prop :=
  WithinAbs (Vec4f.x target) margin (Vec4f.x r) /\
  WithinAbs (Vec4f.y target) margin (Vec4f.y r) /\
  WithinAbs (Vec4f.z target) margin (Vec4f.z r) /\
  WithinAbs (Vec4f.w target) margin (Vec4f.w r).

(** ** What is asked of <cmath> *)

(** The real numbers the four floats of a vector stand for. *)
Definition Vec4f_to_R (p : Vec4f.t binary32) : Vec4f.t R :=
  Vec4f.make (binary32_to_R (Vec4f.x p)) (binary32_to_R (Vec4f.y p))
             (binary32_to_R (Vec4f.z p)) (binary32_to_R (Vec4f.w p)).

(** How far [std::cos] and [std::sin] are, at the float [a], from the
    cosine and the sine of the real number [a] stands for: both return
    a finite float within [delta] of it. The header takes the two
    functions from <cmath>; this is all that is asked of them. *)
Definition cmath_within (cmath : Trig binary32) (delta : R) (a : binary32) : Prop :=
  finite32 (fcos a) = true /\ finite32 (fsin a) = true /\
  (Rabs (binary32_to_R (fcos a) - cos (binary32_to_R a)) <= delta)%R /\
  (Rabs (binary32_to_R (fsin a) - sin (binary32_to_R a)) <= delta)%R.

(** A stand-in for <cmath> that returns, at every angle, the floats
    glibc returns at the angle of the rotation tests: [cosf] gives
    -12303662 * 2^-48 (about -4.37e-8) and [sinf] gives [1.f]. It
    serves at that angle only. *)
Definition cmath_quarter_turn : Trig binary32 :=
  Build_Trig (fun _ => S754_finite true 12303662 (-48))
             (fun _ => fconst 1)
             (fun x => x).

(** ** Entries a constructor fills in *)

(** [make_scaling] and [make_perspective_projection] with their
    arguments as one tuple, so that all constructors have one shape. *)
Definition make_scaling_of (a : R * R * R) : Mat44f R :=
  let '(aSX, aSY, aSZ) := a in make_scaling aSX aSY aSZ.

Definition make_perspective_projection_of (a : R * R * R * R) : Mat44f R :=
  let '(aFovInRadians, aAspect, aNear, aFar) := a in
  make_perspective_projection aFovInRadians aAspect aNear aFar.

(** The float at offset [n] is not set from the arguments of [make]: it
    is the same whatever they are. *)
Definition fixed_entry {A : Type} (make : A -> Mat44f R) (n : nat) : Prop :=
  forall a a' : A, v (make a) n = v (make a') n.

(** Every float of the result that is not set from the arguments is the
    float of the identity matrix at that offset. *)
Definition identity_where_fixed {A : Type} (make : A -> Mat44f R) : Prop :=
  forall n : nat, n < 16 -> fixed_entry make n ->
  forall a : A, v (make a) n = v kIdentity44f n.

(** The same, leaving out the offsets of [except]. *)
Definition identity_where_fixed_except {A : Type} (except : list nat)
    (make : A -> Mat44f R) : Prop :=
  forall n : nat, n < 16 -> ~ In n except -> fixed_entry make n ->
  forall a : A, v (make a) n = v kIdentity44f n.

(** The invariant of the data model, for all six constructors. *)
Definition every_make_identity_where_fixed : Prop :=
  identity_where_fixed (@make_translation R _) /\
  identity_where_fixed make_scaling_of /\
  identity_where_fixed (@make_rotation_x R _ _) /\
  identity_where_fixed (@make_rotation_y R _ _) /\
  identity_where_fixed (@make_rotation_z R _ _) /\
  identity_where_fixed make_perspective_projection_of.

(** ** main.cpp: the camera *)

(** [struct Camera]: a position, and the two angles [yaw] and [pitch]
    from which [forward()], [right()] and [up()] compute the axes. *)
Module Camera.
Section Camera.
Context {F : Type} {SF : Scalar F} {TF : Trig F}.
Local Open Scope float_scope.

Record t : Type := make { position : Vec3f.t F; yaw : F; pitch : F }.

(** [Vec3f forward() const]. *)
Definition forward (c : t) : Vec3f.t F :=
  let cy := fcos (yaw c) in
  let sy := fsin (yaw c) in
  let cp := fcos (pitch c) in
  let sp := fsin (pitch c) in
  Vec3f.make (cy * cp) sp (fneg sy * cp).

(** [Vec3f right() const]. *)
Definition right (c : t) : Vec3f.t F :=
  let cy := fcos (yaw c) in
  let sy := fsin (yaw c) in
  Vec3f.make cy 0 (fneg sy).

(** [Vec3f up() const]. *)
Definition up (c : t) : Vec3f.t F :=
  Vec3f.make 0 1 0.

End Camera.
Arguments t F : clear implicits.
End Camera.

Section View.
Context {F : Type} {SF : Scalar F} {TF : Trig F}.
Local Open Scope float_scope.

(** The [Mat44f view] that the main loop builds from the camera in every
    frame: the rows are [right], [up] and [-fwd], each with the dot
    product with the position in the last column. *)
Definition view (camera : Camera.t F) : Mat44f F :=
  let fwd := Camera.forward camera in
  let right := Camera.right camera in
  let up := Camera.up camera in
  let pos := Camera.position camera in
  Mat44f_init
    (Vec3f.x right) (Vec3f.y right) (Vec3f.z right)
    (fneg (Vec3f.x right * Vec3f.x pos + Vec3f.y right * Vec3f.y pos
           + Vec3f.z right * Vec3f.z pos))
    (Vec3f.x up) (Vec3f.y up) (Vec3f.z up)
    (fneg (Vec3f.x up * Vec3f.x pos + Vec3f.y up * Vec3f.y pos
           + Vec3f.z up * Vec3f.z pos))
    (fneg (Vec3f.x fwd)) (fneg (Vec3f.y fwd)) (fneg (Vec3f.z fwd))
    (Vec3f.x fwd * Vec3f.x pos + Vec3f.y fwd * Vec3f.y pos
     + Vec3f.z fwd * Vec3f.z pos)
    0 0 0 1.

End View.

(** The sum of the products of the components, in which the properties
    of the camera axes are stated. *)
Definition dot3 (a b : Vec3f.t R) : R :=
  (Vec3f.x a * Vec3f.x b + Vec3f.y a * Vec3f.y b + Vec3f.z a * Vec3f.z b)%R.

(** ** main.cpp: the state and the input callbacks *)

(** IEEE-754 binary64, the [double] in which GLFW reports the cursor:
    53 bits of precision, infinities at exponent 1024. *)
Definition binary64 : Type := spec_float.

(** A zero or a finite number in the binary64 format. *)
Definition finite64 (x : binary64) : bool :=
  match x with
  | S754_zero _ => true
  | S754_finite _ m e => SpecFloat.bounded 53 1024 m e
  | _ => false
  end.

(** The implicit conversion of a [float] operand to [double]: exact. *)
Definition double_of_float (x : binary32) : binary64 :=
  match x with
  | S754_finite s m e => binary_round 53 1024 s m e
  | _ => x
  end.

(** [static_cast<float>(x)] of a [double] on an IEEE target: rounded to
    nearest even, to an infinity past the range of [float]. *)
Definition float_of_double (x : binary64) : binary32 :=
  match x with
  | S754_finite s m e => binary_round 24 128 s m e
  | _ => x
  end.

(** [a[n] = x] on an array. *)
Definition array_set {A : Type} (a : list A) (n : nat) (x : A) : list A :=
  firstn n a ++ x :: skipn (S n) a.

(** [struct InputState]; [keys] is the [bool keys[512]]. *)
Record InputState : Type := Build_InputState {
  keys : list bool;
  mouseActive : bool;
  lastMouseX : binary64;
  lastMouseY : binary64;
  firstMouse : bool
}.

(** The members of [struct AppState] that the callbacks and the camera
    code read or write; the OpenGL handles and the meshes are left out. *)
Record AppState : Type := Build_AppState {
  camera : Camera.t binary32;
  input : InputState;
  moveSpeed : binary32;
  baseSpeed : binary32;
  speedMultiplier : binary32;
  mouseSensitivity : binary32
}.

(** The default member initialisers. *)
Definition InputState_default : InputState :=
  Build_InputState (repeat false 512) false (S754_zero false) (S754_zero false) true.

Definition Camera_default : Camera.t binary32 :=
  (Camera.make (Vec3f.make 0 (fconst 10) (fconst 20)) 0 (fneg (fconst 3 / fconst 10)))%fl.

Definition AppState_default : AppState :=
  Build_AppState Camera_default InputState_default
    (fconst 10) (fconst 10) (fconst 1) (fconst 2 / fconst 1000)%fl.

(** The constants of <GLFW/glfw3.h> that the callbacks name. *)
Definition GLFW_RELEASE : Z := 0.
Definition GLFW_PRESS : Z := 1.
Definition GLFW_TRUE : Z := 1.
Definition GLFW_KEY_ESCAPE : Z := 256.
Definition GLFW_MOUSE_BUTTON_RIGHT : Z := 1.
Definition GLFW_CURSOR : Z := 208897.
Definition GLFW_CURSOR_NORMAL : Z := 212993.
Definition GLFW_CURSOR_DISABLED : Z := 212995.

(** The calls a callback makes on the window. *)
Inductive glfw_call : Type :=
  | glfwSetWindowShouldClose (value : Z)
  | glfwSetInputMode (mode value : Z).

(** [keys[aKey] = b] with an [int aKey]: undefined behaviour outside
    the 512 elements. *)
Definition keys_set (ks : list bool) (aKey : Z) (b : bool) : outcome (list bool) :=
  if ((0 <=? aKey) && (aKey <? 512))%Z
  then Returns (array_set ks (Z.to_nat aKey) b)
  else Undefined.

(** [*gAppState] with [input.keys] replaced. *)
Definition with_keys (s : AppState) (ks : list bool) : AppState :=
  let i := input s in
  Build_AppState (camera s)
    (Build_InputState ks (mouseActive i) (lastMouseX i) (lastMouseY i) (firstMouse i))
    (moveSpeed s) (baseSpeed s) (speedMultiplier s) (mouseSensitivity s).

(** [glfw_callback_key_]: what [*gAppState] holds afterwards and the
    calls made, for a [gAppState] that may be null. *)
Definition glfw_callback_key_ (gAppState : option AppState) (aKey aAction : Z) :
    outcome (option AppState * list glfw_call) :=
  match gAppState with
  | None => Returns (None, [])
  | Some s =>
      if ((GLFW_KEY_ESCAPE =? aKey) && (GLFW_PRESS =? aAction))%Z then
        Returns (Some s, [glfwSetWindowShouldClose GLFW_TRUE])
      else if (aAction =? GLFW_PRESS)%Z then
        outcome_map (fun ks => (Some (with_keys s ks), []))
          (keys_set (keys (input s)) aKey true)
      else if (aAction =? GLFW_RELEASE)%Z then
        outcome_map (fun ks => (Some (with_keys s ks), []))
          (keys_set (keys (input s)) aKey false)
      else Returns (Some s, [])
  end.

(** [*gAppState] with [input] replaced. *)
Definition with_input (s : AppState) (i : InputState) : AppState :=
  Build_AppState (camera s) i
    (moveSpeed s) (baseSpeed s) (speedMultiplier s) (mouseSensitivity s).

(** [glfw_callback_mouse_button_]. *)
Definition glfw_callback_mouse_button_ (gAppState : option AppState) (aButton aAction : Z) :
    option AppState * list glfw_call :=
  match gAppState with
  | None => (None, [])
  | Some s =>
      if ((aButton =? GLFW_MOUSE_BUTTON_RIGHT) && (aAction =? GLFW_PRESS))%Z then
        let i := input s in
        let i := Build_InputState (keys i) (negb (mouseActive i))
                   (lastMouseX i) (lastMouseY i) (firstMouse i) in
        if mouseActive i then
          (Some (with_input s
                   (Build_InputState (keys i) (mouseActive i)
                      (lastMouseX i) (lastMouseY i) true)),
           [glfwSetInputMode GLFW_CURSOR GLFW_CURSOR_DISABLED])
        else
          (Some (with_input s i), [glfwSetInputMode GLFW_CURSOR GLFW_CURSOR_NORMAL])
      else (Some s, [])
  end.

(** [constexpr float maxPitch = std::numbers::pi_v<float> / 2.f - 0.1f]. *)
Definition maxPitch : binary32 := (pi_v_float / 2 - fconst 1 / fconst 10)%fl.

(** [glfw_callback_cursor_pos_]. *)
Definition glfw_callback_cursor_pos_ (gAppState : option AppState) (aX aY : binary64) :
    option AppState :=
  match gAppState with
  | None => None
  | Some s =>
      if negb (mouseActive (input s)) then Some s else
      let i := input s in
      let i := if firstMouse i
               then Build_InputState (keys i) (mouseActive i) aX aY false
               else i in
      let xoffset := SFsub 53 1024 aX (lastMouseX i) in
      let yoffset := SFsub 53 1024 (lastMouseY i) aY in
      let i := Build_InputState (keys i) (mouseActive i) aX aY (firstMouse i) in
      let xoffset := SFmul 53 1024 xoffset (double_of_float (mouseSensitivity s)) in
      let yoffset := SFmul 53 1024 yoffset (double_of_float (mouseSensitivity s)) in
      let c := camera s in
      let yaw := (Camera.yaw c + float_of_double xoffset)%fl in
      let pitch := (Camera.pitch c + float_of_double yoffset)%fl in
      let pitch := if SFltb maxPitch pitch then maxPitch else pitch in
      let pitch := if SFltb pitch (SFopp maxPitch) then SFopp maxPitch else pitch in
      Some (Build_AppState (Camera.make (Camera.position c) yaw pitch) i
              (moveSpeed s) (baseSpeed s) (speedMultiplier s) (mouseSensitivity s))
  end.

(** [x <= y] on floats, false when either is a NaN. *)
Definition fle32 (x y : binary32) : bool := SFleb x y.

(** ** main.cpp: the terrain mesh *)

(** [operator<] on [float]. *)
Class Ordered (F : Type) : Type := {
  flt : F -> F -> bool
}.

(** [std::numeric_limits<float>::max()] and [lowest()], and
    [std::numbers::pi_v<float>]. *)
Class Numbers (F : Type) : Type := {
  numeric_limits_max : F;
  numeric_limits_lowest : F;
  pi_v : F
}.

(** A decimal literal [n/d] such as [0.5f]: the quotient of two
    integral floats, which on binary32 is the correctly rounded
    value of the literal. *)
Definition fdec {F : Type} {SF : Scalar F} (n d : Z) : F :=
  (fconst n / fconst d)%fl.

(** [for (auto const& a : l) body]. *)
Definition foreach_checked {A S : Type} (l : list A) (body : A -> S -> outcome S)
    (s : S) : outcome S :=
  fold_left (fun o a => outcome_bind o (body a)) l (Returns s).

(** [for (std::size_t i = 0; i < bound; i += step) body]: the
    iterations are those of [i = 0, step, 2 * step, ...] below [bound]. *)
Definition for_step_checked {S : Type} (bound step : nat) (body : nat -> S -> outcome S)
    (s : S) : outcome S :=
  for_lt_checked ((bound + step - 1) / step) (fun k => body (k * step)) s.

(** [a[i]] on a [std::vector] or a [rapidobj::Array], with
    [i] a [std::size_t]: undefined behaviour past the end. *)
Definition vector_at {A : Type} (a : list A) (i : nat) : outcome A :=
  match nth_error a i with
  | Some x => Returns x
  | None => Undefined
  end.

(** [a[i]] with [i] the value of an [int] expression: a negative [i]
    converts to a [std::size_t] past the end of any array, and a value
    that does not fit [int] is an overflow; both are undefined
    behaviour. *)
Definition array_at {A : Type} (a : list A) (i : Z) : outcome A :=
  if ((0 <=? i) && (i <? 2 ^ 31))%Z then vector_at a (Z.to_nat i) else Undefined.

(** [static_cast<unsigned int>(n)]. *)
Definition to_unsigned (n : Z) : Z := (n mod 2 ^ 32)%Z.

(** [rapidobj::Index]. *)
Module Index.
Record t : Type := make { position_index : Z; texcoord_index : Z; normal_index : Z }.
End Index.

Section Terrain.
Context {F : Type} {SF : Scalar F}.
Local Open Scope float_scope.

(** [rapidobj::Attributes]: the three arrays of floats. *)
Record Attributes : Type := Build_Attributes {
  positions : list F;
  texcoords : list F;
  normals : list F
}.

(** The body of the loop over [shape.mesh.indices]: eight floats are
    pushed to [vertices] and the next number to [indices]. *)
Definition push_index (attributes : Attributes) (hasTexCoords : bool)
    (index : Index.t) (st : list F * list Z) : outcome (list F * list Z) :=
  let '(vertices, indices) := st in
  let pos := positions attributes in
  outcome_bind (array_at pos (3 * Index.position_index index + 0)) (fun p0 =>
  let vertices := vertices ++ [p0] in
  outcome_bind (array_at pos (3 * Index.position_index index + 1)) (fun p1 =>
  let vertices := vertices ++ [p1] in
  outcome_bind (array_at pos (3 * Index.position_index index + 2)) (fun p2 =>
  let vertices := vertices ++ [p2] in
  outcome_bind
    (if (Index.normal_index index >=? 0)%Z then
       let norm := normals attributes in
       outcome_bind (array_at norm (3 * Index.normal_index index + 0)) (fun n0 =>
       let vertices := vertices ++ [n0] in
       outcome_bind (array_at norm (3 * Index.normal_index index + 1)) (fun n1 =>
       let vertices := vertices ++ [n1] in
       outcome_bind (array_at norm (3 * Index.normal_index index + 2)) (fun n2 =>
       Returns (vertices ++ [n2]))))
     else
       Returns (((vertices ++ [0]) ++ [0]) ++ [1]))
    (fun vertices =>
  outcome_bind
    (if hasTexCoords && (Index.texcoord_index index >=? 0)%Z then
       let tex := texcoords attributes in
       outcome_bind (array_at tex (2 * Index.texcoord_index index + 0)) (fun t0 =>
       let vertices := vertices ++ [t0] in
       outcome_bind (array_at tex (2 * Index.texcoord_index index + 1)) (fun t1 =>
       Returns (vertices ++ [t1])))
     else
       Returns ((vertices ++ [0]) ++ [0]))
    (fun vertices =>
  Returns (vertices, indices ++ [to_unsigned (Z.of_nat (length indices))])))))).

(** "Extract vertex data": the two nested loops over the shapes and
    their indices, from empty [vertices] and [indices]. A shape is given
    by its [mesh.indices]. *)
Definition extract_vertex_data (attributes : Attributes) (shapes : list (list Index.t)) :
    outcome (list F * list Z) :=
  let hasTexCoords := negb (Nat.eqb (length (texcoords attributes)) 0) in
  foreach_checked shapes (fun shape st =>
    foreach_checked shape (push_index attributes hasTexCoords) st)
    ([], []).

(** What the eight floats pushed for [index] are: the position, the
    normal (or (0, 0, 1) without one) and the texture coordinates (or
    (0, 0) without them), each read inside its array. *)
Definition vertex_of (attributes : Attributes) (index : Index.t) (chunk : list F) : Prop :=
  exists p0 p1 p2 n0 n1 n2 t0 t1 : F,
    chunk = [p0; p1; p2; n0; n1; n2; t0; t1] /\
    array_at (positions attributes) (3 * Index.position_index index + 0) = Returns p0 /\
    array_at (positions attributes) (3 * Index.position_index index + 1) = Returns p1 /\
    array_at (positions attributes) (3 * Index.position_index index + 2) = Returns p2 /\
    (if (Index.normal_index index >=? 0)%Z then
       array_at (normals attributes) (3 * Index.normal_index index + 0) = Returns n0 /\
       array_at (normals attributes) (3 * Index.normal_index index + 1) = Returns n1 /\
       array_at (normals attributes) (3 * Index.normal_index index + 2) = Returns n2
     else n0 = 0 /\ n1 = 0 /\ n2 = 1) /\
    (if negb (Nat.eqb (length (texcoords attributes)) 0)
        && (Index.texcoord_index index >=? 0)%Z then
       array_at (texcoords attributes) (2 * Index.texcoord_index index + 0) = Returns t0 /\
       array_at (texcoords attributes) (2 * Index.texcoord_index index + 1) = Returns t1
     else t0 = 0 /\ t1 = 0).

Context {OF : Ordered F} {NF : Numbers F}.

(** [std::min(a, b)] and [std::max(a, b)]. *)
Definition std_min (a b : F) : F := if flt b a then b else a.
Definition std_max (a b : F) : F := if flt a b then b else a.

(** [std::max({a, b, c})]: the first of the largest. *)
Definition std_max3 (a b c : F) : F :=
  let largest := a in
  let largest := if flt largest b then b else largest in
  if flt largest c then c else largest.

(** The six bounds [minX], ..., [maxZ]. *)
Record Bounds : Type := Build_Bounds {
  minX : F; maxX : F; minY : F; maxY : F; minZ : F; maxZ : F
}.

(** "Calculate model bounds": the loop over [vertices] in steps of
    eight floats. *)
Definition model_bounds (vertices : list F) : outcome Bounds :=
  for_step_checked (length vertices) 8 (fun i b =>
    outcome_bind (vector_at vertices i) (fun x =>
    outcome_bind (vector_at vertices (i + 1)) (fun y =>
    outcome_bind (vector_at vertices (i + 2)) (fun z =>
    Returns (Build_Bounds
               (std_min (minX b) x) (std_max (maxX b) x)
               (std_min (minY b) y) (std_max (maxY b) y)
               (std_min (minZ b) z) (std_max (maxZ b) z))))))
    (Build_Bounds numeric_limits_max numeric_limits_lowest
                  numeric_limits_max numeric_limits_lowest
                  numeric_limits_max numeric_limits_lowest).

(** "Position camera to view the model": the position the camera gets
    from the bounds. *)
Definition camera_position_for (b : Bounds) : Vec3f.t F :=
  let centerX := (minX b + maxX b) * fdec 1 2 in
  let centerY := (minY b + maxY b) * fdec 1 2 in
  let centerZ := (minZ b + maxZ b) * fdec 1 2 in
  let sizeX := maxX b - minX b in
  let sizeY := maxY b - minY b in
  let sizeZ := maxZ b - minZ b in
  let maxSize := std_max3 sizeX sizeY sizeZ in
  Vec3f.make centerX (centerY + maxSize * fdec 1 2) (centerZ + maxSize * fdec 3 2).

End Terrain.

Arguments Attributes F : clear implicits.
Arguments Bounds F : clear implicits.

(** Exact arithmetic: the order of the real numbers, the largest finite
    binary32 number (2^24 - 1) * 2^104 and its opposite, and pi. *)
#[export] Instance R_Ordered : Ordered R := {
  flt := fun a b => if Rlt_dec a b then true else false
}.

#[export] Instance R_Numbers : Numbers R := {
  numeric_limits_max := (16777215 * 2 ^ 104)%R;
  numeric_limits_lowest := (- (16777215 * 2 ^ 104))%R;
  pi_v := PI
}.

#[export] Instance binary32_Ordered : Ordered binary32 := {
  flt := SFltb
}.

#[export] Instance binary32_Numbers : Numbers binary32 := {
  numeric_limits_max := S754_finite false 16777215 104;
  numeric_limits_lowest := S754_finite true 16777215 104;
  pi_v := pi_v_float
}.

(** ** main.cpp: the space vehicle *)

(** vec2.hpp is not part of the sources at hand; [Vec2f] is the plain
    2-component value type with the member names [x], [y] that
    [addVertex] reads. *)
Module Vec2f.
Record t (F : Type) : Type := make { x : F; y : F }.
End Vec2f.

(** The conversion of an [unsigned int] to [int] (modular since C++20). *)
Definition to_int (n : Z) : Z := ((n + 2 ^ 31) mod 2 ^ 32 - 2 ^ 31)%Z.

Section Vehicle.
Context {F : Type} {SF : Scalar F} {TF : Trig F} {NF : Numbers F}.
Local Open Scope float_scope.

(** The lambdas build a mesh in two vectors they take by reference:
    [vertices], eight floats per vertex, and [indices], of
    [unsigned int]. A call is modelled as a function from the two
    vectors before it to the two vectors after it. [int] expressions are
    computed exactly; the bounds on the size of the mesh in the theorems
    keep every [int] of the lambdas from overflowing. *)
Definition Mesh : Type := (list F * list Z)%type.

(** [addVertex]: eight [push_back]. *)
Definition addVertex (vertices : list F) (pos normal : Vec3f.t F) (tex : Vec2f.t F) :
    list F :=
  vertices ++ [Vec3f.x pos; Vec3f.y pos; Vec3f.z pos;
               Vec3f.x normal; Vec3f.y normal; Vec3f.z normal;
               Vec2f.x tex; Vec2f.y tex].

(** The default argument [Vec2f tex = Vec2f{0.f, 0.f}]. *)
Definition addVertex_tex_default : Vec2f.t F := Vec2f.make 0 0.

(** [createBox]. The six faces are written out as in the source: four
    vertices, the six indices of two triangles, and [baseIndex += 4]
    after each face but the last. *)
Definition createBox (mesh : Mesh) (center size color : Vec3f.t F) : Mesh :=
  let '(vertices, indices) := mesh in
  let V := @Vec3f.make F in
  let tex := addVertex_tex_default in
  let cx := Vec3f.x center in
  let cy := Vec3f.y center in
  let cz := Vec3f.z center in
  let baseIndex := to_unsigned (Z.of_nat (length vertices / 8)) in
  let hx := Vec3f.x size * fdec 1 2 in
  let hy := Vec3f.y size * fdec 1 2 in
  let hz := Vec3f.z size * fdec 1 2 in
  (* Front face *)
  let vertices := addVertex vertices (V (cx - hx) (cy - hy) (cz + hz)) (V 0 0 1) tex in
  let vertices := addVertex vertices (V (cx + hx) (cy - hy) (cz + hz)) (V 0 0 1) tex in
  let vertices := addVertex vertices (V (cx + hx) (cy + hy) (cz + hz)) (V 0 0 1) tex in
  let vertices := addVertex vertices (V (cx - hx) (cy + hy) (cz + hz)) (V 0 0 1) tex in
  let indices := indices ++ [to_unsigned (baseIndex + 0); to_unsigned (baseIndex + 1);
                             to_unsigned (baseIndex + 2)] in
  let indices := indices ++ [to_unsigned (baseIndex + 0); to_unsigned (baseIndex + 2);
                             to_unsigned (baseIndex + 3)] in
  let baseIndex := to_unsigned (baseIndex + 4) in
  (* Back face *)
  let vertices := addVertex vertices (V (cx + hx) (cy - hy) (cz - hz)) (V 0 0 (fneg 1)) tex in
  let vertices := addVertex vertices (V (cx - hx) (cy - hy) (cz - hz)) (V 0 0 (fneg 1)) tex in
  let vertices := addVertex vertices (V (cx - hx) (cy + hy) (cz - hz)) (V 0 0 (fneg 1)) tex in
  let vertices := addVertex vertices (V (cx + hx) (cy + hy) (cz - hz)) (V 0 0 (fneg 1)) tex in
  let indices := indices ++ [to_unsigned (baseIndex + 0); to_unsigned (baseIndex + 1);
                             to_unsigned (baseIndex + 2)] in
  let indices := indices ++ [to_unsigned (baseIndex + 0); to_unsigned (baseIndex + 2);
                             to_unsigned (baseIndex + 3)] in
  let baseIndex := to_unsigned (baseIndex + 4) in
  (* Top face *)
  let vertices := addVertex vertices (V (cx - hx) (cy + hy) (cz - hz)) (V 0 1 0) tex in
  let vertices := addVertex vertices (V (cx - hx) (cy + hy) (cz + hz)) (V 0 1 0) tex in
  let vertices := addVertex vertices (V (cx + hx) (cy + hy) (cz + hz)) (V 0 1 0) tex in
  let vertices := addVertex vertices (V (cx + hx) (cy + hy) (cz - hz)) (V 0 1 0) tex in
  let indices := indices ++ [to_unsigned (baseIndex + 0); to_unsigned (baseIndex + 1);
                             to_unsigned (baseIndex + 2)] in
  let indices := indices ++ [to_unsigned (baseIndex + 0); to_unsigned (baseIndex + 2);
                             to_unsigned (baseIndex + 3)] in
  let baseIndex := to_unsigned (baseIndex + 4) in
  (* Bottom face *)
  let vertices := addVertex vertices (V (cx - hx) (cy - hy) (cz + hz)) (V 0 (fneg 1) 0) tex in
  let vertices := addVertex vertices (V (cx - hx) (cy - hy) (cz - hz)) (V 0 (fneg 1) 0) tex in
  let vertices := addVertex vertices (V (cx + hx) (cy - hy) (cz - hz)) (V 0 (fneg 1) 0) tex in
  let vertices := addVertex vertices (V (cx + hx) (cy - hy) (cz + hz)) (V 0 (fneg 1) 0) tex in
  let indices := indices ++ [to_unsigned (baseIndex + 0); to_unsigned (baseIndex + 1);
                             to_unsigned (baseIndex + 2)] in
  let indices := indices ++ [to_unsigned (baseIndex + 0); to_unsigned (baseIndex + 2);
                             to_unsigned (baseIndex + 3)] in
  let baseIndex := to_unsigned (baseIndex + 4) in
  (* Right face *)
  let vertices := addVertex vertices (V (cx + hx) (cy - hy) (cz + hz)) (V 1 0 0) tex in
  let vertices := addVertex vertices (V (cx + hx) (cy - hy) (cz - hz)) (V 1 0 0) tex in
  let vertices := addVertex vertices (V (cx + hx) (cy + hy) (cz - hz)) (V 1 0 0) tex in
  let vertices := addVertex vertices (V (cx + hx) (cy + hy) (cz + hz)) (V 1 0 0) tex in
  let indices := indices ++ [to_unsigned (baseIndex + 0); to_unsigned (baseIndex + 1);
                             to_unsigned (baseIndex + 2)] in
  let indices := indices ++ [to_unsigned (baseIndex + 0); to_unsigned (baseIndex + 2);
                             to_unsigned (baseIndex + 3)] in
  let baseIndex := to_unsigned (baseIndex + 4) in
  (* Left face *)
  let vertices := addVertex vertices (V (cx - hx) (cy - hy) (cz - hz)) (V (fneg 1) 0 0) tex in
  let vertices := addVertex vertices (V (cx - hx) (cy - hy) (cz + hz)) (V (fneg 1) 0 0) tex in
  let vertices := addVertex vertices (V (cx - hx) (cy + hy) (cz + hz)) (V (fneg 1) 0 0) tex in
  let vertices := addVertex vertices (V (cx - hx) (cy + hy) (cz - hz)) (V (fneg 1) 0 0) tex in
  let indices := indices ++ [to_unsigned (baseIndex + 0); to_unsigned (baseIndex + 1);
                             to_unsigned (baseIndex + 2)] in
  let indices := indices ++ [to_unsigned (baseIndex + 0); to_unsigned (baseIndex + 2);
                             to_unsigned (baseIndex + 3)] in
  (vertices, indices).

(** [2.f * std::numbers::pi_v<float> * i / segments] with [int i] and
    [int segments], both converted to [float]. *)
Definition circle_angle (i segments : Z) : F :=
  2 * pi_v * fconst i / fconst segments.

(** [std::numbers::pi_v<float> * i / segments], likewise. *)
Definition polar_angle (i segments : Z) : F :=
  pi_v * fconst i / fconst segments.

(** [createCylinder]. A loop [for (int i = 0; i < n; ++i)] runs
    [Z.to_nat n] times. *)
Definition createCylinder (mesh : Mesh) (center : Vec3f.t F) (radius height : F)
    (segments : Z) (color : Vec3f.t F) : Mesh :=
  let '(vertices, indices) := mesh in
  let V := @Vec3f.make F in
  let tex := addVertex_tex_default in
  let cx := Vec3f.x center in
  let cy := Vec3f.y center in
  let cz := Vec3f.z center in
  let baseIndex := to_unsigned (Z.of_nat (length vertices / 8)) in
  let halfHeight := height * fdec 1 2 in
  (* Top and bottom circles *)
  let vertices :=
    for_lt (Z.to_nat (segments + 1)) (fun i vertices =>
      let angle := circle_angle (Z.of_nat i) segments in
      let x := fcos angle in
      let z := fsin angle in
      let vertices :=
        addVertex vertices (V (cx + radius * x) (cy + halfHeight) (cz + radius * z))
                  (V x 0 z) tex in
      addVertex vertices (V (cx + radius * x) (cy - halfHeight) (cz + radius * z))
                (V x 0 z) tex)
      vertices in
  (* Side faces *)
  let indices :=
    for_lt (Z.to_nat segments) (fun i indices =>
      let i := Z.of_nat i in
      let top1 := to_unsigned (baseIndex + i * 2) in
      let top2 := to_unsigned (baseIndex + (i + 1) * 2) in
      let bot1 := to_unsigned (baseIndex + i * 2 + 1) in
      let bot2 := to_unsigned (baseIndex + (i + 1) * 2 + 1) in
      let indices := indices ++ [top1; bot1; top2] in
      indices ++ [bot1; bot2; top2])
      indices in
  let baseIndex := to_unsigned (baseIndex + (segments + 1) * 2) in
  (* Top cap *)
  let '(vertices, indices, baseIndex) :=
    for_lt (Z.to_nat segments) (fun i '(vertices, indices, baseIndex) =>
      let angle1 := circle_angle (Z.of_nat i) segments in
      let angle2 := circle_angle (Z.of_nat i + 1) segments in
      let x1 := fcos angle1 in
      let z1 := fsin angle1 in
      let x2 := fcos angle2 in
      let z2 := fsin angle2 in
      let vertices := addVertex vertices (V cx (cy + halfHeight) cz) (V 0 1 0) tex in
      let vertices :=
        addVertex vertices (V (cx + radius * x1) (cy + halfHeight) (cz + radius * z1))
                  (V 0 1 0) tex in
      let vertices :=
        addVertex vertices (V (cx + radius * x2) (cy + halfHeight) (cz + radius * z2))
                  (V 0 1 0) tex in
      let indices := indices ++ [to_unsigned baseIndex; to_unsigned (baseIndex + 1);
                                 to_unsigned (baseIndex + 2)] in
      (vertices, indices, to_unsigned (baseIndex + 3)))
      (vertices, indices, baseIndex) in
  (* Bottom cap *)
  let '(vertices, indices, baseIndex) :=
    for_lt (Z.to_nat segments) (fun i '(vertices, indices, baseIndex) =>
      let angle1 := circle_angle (Z.of_nat i) segments in
      let angle2 := circle_angle (Z.of_nat i + 1) segments in
      let x1 := fcos angle1 in
      let z1 := fsin angle1 in
      let x2 := fcos angle2 in
      let z2 := fsin angle2 in
      let vertices := addVertex vertices (V cx (cy - halfHeight) cz) (V 0 (fneg 1) 0) tex in
      let vertices :=
        addVertex vertices (V (cx + radius * x2) (cy - halfHeight) (cz + radius * z2))
                  (V 0 (fneg 1) 0) tex in
      let vertices :=
        addVertex vertices (V (cx + radius * x1) (cy - halfHeight) (cz + radius * z1))
                  (V 0 (fneg 1) 0) tex in
      let indices := indices ++ [to_unsigned baseIndex; to_unsigned (baseIndex + 1);
                                 to_unsigned (baseIndex + 2)] in
      (vertices, indices, to_unsigned (baseIndex + 3)))
      (vertices, indices, baseIndex) in
  (vertices, indices).

(** What the loops of [createCylinder] append, iteration by iteration:
    the sixteen floats of the two vertices of the circles at step [i],
    the six indices of the two side triangles (counted from the first
    vertex of the cylinder), and the twenty-four floats of the three
    vertices of a cap triangle. *)
Definition cylinder_ring (center : Vec3f.t F) (radius height : F) (segments : Z)
    (i : nat) : list F :=
  let angle := circle_angle (Z.of_nat i) segments in
  let x := fcos angle in
  let z := fsin angle in
  let halfHeight := height * fdec 1 2 in
  [Vec3f.x center + radius * x; Vec3f.y center + halfHeight; Vec3f.z center + radius * z;
   x; 0; z; 0; 0;
   Vec3f.x center + radius * x; Vec3f.y center - halfHeight; Vec3f.z center + radius * z;
   x; 0; z; 0; 0].

Definition cylinder_side (i : nat) : list Z :=
  let i := Z.of_nat i in
  [i * 2; i * 2 + 1; (i + 1) * 2; i * 2 + 1; (i + 1) * 2 + 1; (i + 1) * 2]%Z.

Definition cylinder_top_cap (center : Vec3f.t F) (radius height : F) (segments : Z)
    (i : nat) : list F :=
  let angle1 := circle_angle (Z.of_nat i) segments in
  let angle2 := circle_angle (Z.of_nat i + 1) segments in
  let halfHeight := height * fdec 1 2 in
  [Vec3f.x center; Vec3f.y center + halfHeight; Vec3f.z center; 0; 1; 0; 0; 0;
   Vec3f.x center + radius * fcos angle1; Vec3f.y center + halfHeight;
   Vec3f.z center + radius * fsin angle1; 0; 1; 0; 0; 0;
   Vec3f.x center + radius * fcos angle2; Vec3f.y center + halfHeight;
   Vec3f.z center + radius * fsin angle2; 0; 1; 0; 0; 0].

Definition cylinder_bottom_cap (center : Vec3f.t F) (radius height : F) (segments : Z)
    (i : nat) : list F :=
  let angle1 := circle_angle (Z.of_nat i) segments in
  let angle2 := circle_angle (Z.of_nat i + 1) segments in
  let halfHeight := height * fdec 1 2 in
  [Vec3f.x center; Vec3f.y center - halfHeight; Vec3f.z center; 0; fneg 1; 0; 0; 0;
   Vec3f.x center + radius * fcos angle2; Vec3f.y center - halfHeight;
   Vec3f.z center + radius * fsin angle2; 0; fneg 1; 0; 0; 0;
   Vec3f.x center + radius * fcos angle1; Vec3f.y center - halfHeight;
   Vec3f.z center + radius * fsin angle1; 0; fneg 1; 0; 0; 0].

(** The three indices of the [k]-th triangle of a cap whose first vertex
    is vertex [base]. *)
Definition cap_triangle (base : Z) (k : nat) : list Z :=
  [base + 3 * Z.of_nat k; base + 3 * Z.of_nat k + 1; base + 3 * Z.of_nat k + 2]%Z.

(** The floats and the indices of a cylinder of [n] segments, the
    indices counted from its first vertex. *)
Definition cylinder_vertices (center : Vec3f.t F) (radius height : F) (n : nat) : list F :=
  flat_map (cylinder_ring center radius height (Z.of_nat n)) (seq 0 (n + 1))
  ++ flat_map (cylinder_top_cap center radius height (Z.of_nat n)) (seq 0 n)
  ++ flat_map (cylinder_bottom_cap center radius height (Z.of_nat n)) (seq 0 n).

Definition cylinder_indices (n : nat) : list Z :=
  flat_map cylinder_side (seq 0 n)
  ++ flat_map (cap_triangle (Z.of_nat (2 * (n + 1)))) (seq 0 n)
  ++ flat_map (cap_triangle (Z.of_nat (2 * (n + 1) + 3 * n))) (seq 0 n).

(** [createSphere]. *)
Definition createSphere (mesh : Mesh) (center : Vec3f.t F) (radius : F)
    (segments : Z) (color : Vec3f.t F) : Mesh :=
  let '(vertices, indices) := mesh in
  let V := @Vec3f.make F in
  let tex := addVertex_tex_default in
  let baseIndex := to_unsigned (Z.of_nat (length vertices / 8)) in
  (* Generate vertices *)
  let vertices :=
    for_lt (Z.to_nat (segments + 1)) (fun i vertices =>
      let theta := polar_angle (Z.of_nat i) segments in
      let sinTheta := fsin theta in
      let cosTheta := fcos theta in
      for_lt (Z.to_nat (segments + 1)) (fun j vertices =>
        let phi := circle_angle (Z.of_nat j) segments in
        let sinPhi := fsin phi in
        let cosPhi := fcos phi in
        let x := sinTheta * cosPhi in
        let y := cosTheta in
        let z := sinTheta * sinPhi in
        let pos := V (Vec3f.x center + radius * x) (Vec3f.y center + radius * y)
                     (Vec3f.z center + radius * z) in
        let normal := V x y z in
        addVertex vertices pos normal tex)
        vertices)
      vertices in
  (* Generate indices *)
  let indices :=
    for_lt (Z.to_nat segments) (fun i indices =>
      for_lt (Z.to_nat segments) (fun j indices =>
        let first := to_int (to_unsigned (baseIndex + Z.of_nat i * (segments + 1)
                                          + Z.of_nat j)) in
        let second := (first + segments + 1)%Z in
        let indices := indices ++ [to_unsigned first] in
        let indices := indices ++ [to_unsigned second] in
        let indices := indices ++ [to_unsigned (first + 1)] in
        let indices := indices ++ [to_unsigned second] in
        let indices := indices ++ [to_unsigned (second + 1)] in
        indices ++ [to_unsigned (first + 1)])
        indices)
      indices in
  (vertices, indices).

(** What the loops of [createSphere] append: the eight floats of the
    vertex at step [i], [j], and the six indices of the two triangles at
    step [i], [j] (counted from the first vertex of the sphere). *)
Definition sphere_vertex (center : Vec3f.t F) (radius : F) (segments : Z)
    (i j : nat) : list F :=
  let theta := polar_angle (Z.of_nat i) segments in
  let phi := circle_angle (Z.of_nat j) segments in
  let x := fsin theta * fcos phi in
  let y := fcos theta in
  let z := fsin theta * fsin phi in
  [Vec3f.x center + radius * x; Vec3f.y center + radius * y; Vec3f.z center + radius * z;
   x; y; z; 0; 0].

Definition sphere_quad (n i j : nat) : list Z :=
  let first := (Z.of_nat i * (Z.of_nat n + 1) + Z.of_nat j)%Z in
  let second := (first + Z.of_nat n + 1)%Z in
  [first; second; first + 1; second; second + 1; first + 1]%Z.

Definition sphere_vertices (center : Vec3f.t F) (radius : F) (n : nat) : list F :=
  flat_map (fun i => flat_map (sphere_vertex center radius (Z.of_nat n) i) (seq 0 (n + 1)))
    (seq 0 (n + 1)).

Definition sphere_indices (n : nat) : list Z :=
  flat_map (fun i => flat_map (sphere_quad n i) (seq 0 n)) (seq 0 n).

(** "Build space vehicle": the eight shapes, in the order of the source. *)
Definition vehicle : Mesh :=
  let V := @Vec3f.make F in
  let mesh : Mesh := ([], []) in
  let vehicleBase := V 0 0 0 in
  let bx := Vec3f.x vehicleBase in
  let by_ := Vec3f.y vehicleBase in
  let bz := Vec3f.z vehicleBase in
  (* 1. Main body *)
  let mesh := createCylinder mesh (V bx (by_ + fdec 15 10) bz)
                (fdec 4 10) (fdec 30 10) 16 (V (fdec 8 10) (fdec 2 10) (fdec 2 10)) in
  (* 2. Nose cone *)
  let mesh := createCylinder mesh (V bx (by_ + fdec 38 10) bz)
                (fdec 35 100) (fdec 8 10) 16 (V (fdec 9 10) (fdec 3 10) (fdec 3 10)) in
  (* 3. Top sphere *)
  let mesh := createSphere mesh (V bx (by_ + fdec 45 10) bz)
                (fdec 3 10) 12 (V (fdec 10 10) (fdec 4 10) (fdec 4 10)) in
  (* 4. Left fin *)
  let mesh := createBox mesh (V (bx - fdec 5 10) (by_ + fdec 8 10) bz)
                (V (fdec 1 10) (fdec 6 10) (fdec 4 10))
                (V (fdec 7 10) (fdec 1 10) (fdec 1 10)) in
  (* 5. Right fin *)
  let mesh := createBox mesh (V (bx + fdec 5 10) (by_ + fdec 8 10) bz)
                (V (fdec 1 10) (fdec 6 10) (fdec 4 10))
                (V (fdec 7 10) (fdec 1 10) (fdec 1 10)) in
  (* 6. Front fin *)
  let mesh := createBox mesh (V bx (by_ + fdec 8 10) (bz + fdec 5 10))
                (V (fdec 4 10) (fdec 6 10) (fdec 1 10))
                (V (fdec 7 10) (fdec 1 10) (fdec 1 10)) in
  (* 7. Engine nozzle *)
  let mesh := createCylinder mesh (V bx (by_ - fdec 3 10) bz)
                (fdec 5 10) (fdec 4 10) 16 (V (fdec 3 10) (fdec 3 10) (fdec 3 10)) in
  (* 8. Window *)
  createSphere mesh (V bx (by_ + fdec 22 10) (bz + fdec 4 10))
    (fdec 15 100) 8 (V (fdec 2 10) (fdec 5 10) (fdec 9 10)).

(** A mesh of [count] vertices and [triangles] triangles whose indices
    all name one of its vertices. *)
Definition mesh_ok (count triangles : nat) (mesh : list F * list Z) : Prop :=
  length (fst mesh) = (8 * count)%nat /\
  length (snd mesh) = (3 * triangles)%nat /\
  Forall (fun i => (0 <= i < Z.of_nat count)%Z) (snd mesh).

End Vehicle.

(** Reading a mesh as the vertex attributes and [glDrawElements] do:
    vertex [k] has its position in the floats 8k, 8k+1, 8k+2 and its
    normal in the floats 8k+3, 8k+4, 8k+5; triangle [t] has the
    vertices named by the indices 3t, 3t+1, 3t+2. *)
Definition vertex_position (vertices : list R) (k : nat) : Vec3f.t R :=
  Vec3f.make (nth (8 * k) vertices 0%R) (nth (8 * k + 1) vertices 0%R)
             (nth (8 * k + 2) vertices 0%R).

Definition vertex_normal (vertices : list R) (k : nat) : Vec3f.t R :=
  Vec3f.make (nth (8 * k + 3) vertices 0%R) (nth (8 * k + 4) vertices 0%R)
             (nth (8 * k + 5) vertices 0%R).

Definition sub3 (a b : Vec3f.t R) : Vec3f.t R :=
  Vec3f.make (Vec3f.x a - Vec3f.x b)%R (Vec3f.y a - Vec3f.y b)%R (Vec3f.z a - Vec3f.z b)%R.

Definition cross3 (a b : Vec3f.t R) : Vec3f.t R :=
  Vec3f.make (Vec3f.y a * Vec3f.z b - Vec3f.z a * Vec3f.y b)%R
             (Vec3f.z a * Vec3f.x b - Vec3f.x a * Vec3f.z b)%R
             (Vec3f.x a * Vec3f.y b - Vec3f.y a * Vec3f.x b)%R.

(** How triangle [t] faces: the dot product of its geometric normal
    (the cross product of its edges, in the order of its indices) with
    the normal stored for its first vertex. It is positive when the
    triangle is counter-clockwise seen from the side the stored normal
    points to, negative when it is clockwise. *)
Definition triangle_facing (mesh : list R * list Z) (t : nat) : R :=
  let '(vertices, indices) := mesh in
  let i0 := Z.to_nat (nth (3 * t) indices 0%Z) in
  let i1 := Z.to_nat (nth (3 * t + 1) indices 0%Z) in
  let i2 := Z.to_nat (nth (3 * t + 2) indices 0%Z) in
  let p0 := vertex_position vertices i0 in
  let p1 := vertex_position vertices i1 in
  let p2 := vertex_position vertices i2 in
  dot3 (cross3 (sub3 p1 p0) (sub3 p2 p0)) (vertex_normal vertices i0).

(** ** The shaders: default.vert and default.frag *)

(** [sqrt] of GLSL. *)
Class Sqrt (F : Type) : Type := {
  fsqrt : F -> F
}.

Section Shaders.
Context {F : Type} {SF : Scalar F} {OF : Ordered F} {QF : Sqrt F}.
Local Open Scope float_scope.

(** The built-in functions [dot], [length], [normalize] and [max] on
    [vec3] and [float]. *)
Definition glsl_dot (a b : Vec3f.t F) : F :=
  Vec3f.x a * Vec3f.x b + Vec3f.y a * Vec3f.y b + Vec3f.z a * Vec3f.z b.

Definition glsl_length (a : Vec3f.t F) : F := fsqrt (glsl_dot a a).

Definition glsl_normalize (a : Vec3f.t F) : Vec3f.t F :=
  Vec3f.make (Vec3f.x a / glsl_length a) (Vec3f.y a / glsl_length a)
             (Vec3f.z a / glsl_length a).

Definition glsl_max (x y : F) : F := if flt x y then y else x.

(** A [mat4] of GLSL: four columns, [m[c]] being column [c]. *)
Record mat4 : Type := Build_mat4 {
  column_0 : Vec4f.t F;
  column_1 : Vec4f.t F;
  column_2 : Vec4f.t F;
  column_3 : Vec4f.t F
}.

(** The [mat4] that [glUniformMatrix4fv( loc, 1, GL_FALSE, m.v )] sets:
    without the transpose flag OpenGL reads the sixteen floats column
    by column, four floats to a column. *)
Definition glUniformMatrix4fv (m : Mat44f F) : mat4 :=
  Build_mat4
    (Vec4f.make (v m 0) (v m 1) (v m 2) (v m 3))
    (Vec4f.make (v m 4) (v m 5) (v m 6) (v m 7))
    (Vec4f.make (v m 8) (v m 9) (v m 10) (v m 11))
    (Vec4f.make (v m 12) (v m 13) (v m 14) (v m 15)).

(** [vec4(a, w)] and [.xyz]. *)
Definition vec4_of (a : Vec3f.t F) (w : F) : Vec4f.t F :=
  Vec4f.make (Vec3f.x a) (Vec3f.y a) (Vec3f.z a) w.

Definition xyz (p : Vec4f.t F) : Vec3f.t F :=
  Vec3f.make (Vec4f.x p) (Vec4f.y p) (Vec4f.z p).

(** The outputs of default.vert. *)
Record vertex_outputs : Type := Build_vertex_outputs {
  vNormal : Vec3f.t F;
  vPosition : Vec3f.t F;
  vTexCoord : Vec2f.t F;
  gl_Position : Vec4f.t F
}.

(** [baseColor] of default.frag; [texel] is
    [texture(uTexture, vTexCoord).rgb]. *)
Definition base_color (texel : Vec3f.t F) (uUseTexture : bool)
    (uMaterialColor : Vec3f.t F) (uUseMaterialColor : bool) : Vec3f.t F :=
  let baseColor := Vec3f.make 1 1 1 in
  if uUseTexture then texel
  else if uUseMaterialColor then uMaterialColor
  else baseColor.

(** [main] of default.frag. *)
Definition default_frag (uLightDir uAmbientColor uDiffuseColor : Vec3f.t F)
    (texel : Vec3f.t F) (uUseTexture : bool)
    (uMaterialColor : Vec3f.t F) (uUseMaterialColor : bool)
    (vNormal : Vec3f.t F) : Vec4f.t F :=
  let n := glsl_normalize vNormal in
  let ndotl := glsl_max (glsl_dot n uLightDir) 0 in
  let baseColor := base_color texel uUseTexture uMaterialColor uUseMaterialColor in
  let color :=
    Vec3f.make
      (Vec3f.x baseColor * (Vec3f.x uAmbientColor + Vec3f.x uDiffuseColor * ndotl))
      (Vec3f.y baseColor * (Vec3f.y uAmbientColor + Vec3f.y uDiffuseColor * ndotl))
      (Vec3f.z baseColor * (Vec3f.z uAmbientColor + Vec3f.z uDiffuseColor * ndotl)) in
  vec4_of color 1.

End Shaders.

#[export] Instance R_Sqrt : Sqrt R := {
  fsqrt := sqrt
}.

#[export] Instance binary32_Sqrt : Sqrt binary32 := {
  fsqrt := SFsqrt 24 128
}.

(** [m * p] of GLSL for a [mat4] and a [vec4], the linear-algebraic
    product: [(m * p).x] is
    [m[0].x * p.x + m[1].x * p.y + m[2].x * p.z + m[3].x * p.w], and so
    on. GLSL leaves the order of the sum and the rounding of the
    operations to the implementation, which may reorder them or fuse a
    product with a sum; the product is therefore given in exact
    arithmetic only, where none of this matters. *)
Definition mat4_mul_vec4 (m : @mat4 R) (p : Vec4f.t R) : Vec4f.t R :=
  let c0 := column_0 m in
  let c1 := column_1 m in
  let c2 := column_2 m in
  let c3 := column_3 m in
  Vec4f.make
    (Vec4f.x c0 * Vec4f.x p + Vec4f.x c1 * Vec4f.y p
     + Vec4f.x c2 * Vec4f.z p + Vec4f.x c3 * Vec4f.w p)%R
    (Vec4f.y c0 * Vec4f.x p + Vec4f.y c1 * Vec4f.y p
     + Vec4f.y c2 * Vec4f.z p + Vec4f.y c3 * Vec4f.w p)%R
    (Vec4f.z c0 * Vec4f.x p + Vec4f.z c1 * Vec4f.y p
     + Vec4f.z c2 * Vec4f.z p + Vec4f.z c3 * Vec4f.w p)%R
    (Vec4f.w c0 * Vec4f.x p + Vec4f.w c1 * Vec4f.y p
     + Vec4f.w c2 * Vec4f.z p + Vec4f.w c3 * Vec4f.w p)%R.

(** [main] of default.vert, in exact arithmetic. *)
Definition default_vert (uModelViewProjection uModel : @mat4 R)
    (aPosition aNormal : Vec3f.t R) (aTexCoord : Vec2f.t R) : @vertex_outputs R :=
  let vPosition := xyz (mat4_mul_vec4 uModel (vec4_of aPosition 1%R)) in
  let vNormal := glsl_normalize (xyz (mat4_mul_vec4 uModel (vec4_of aNormal 0%R))) in
  let vTexCoord := aTexCoord in
  let gl_Position := mat4_mul_vec4 uModelViewProjection (vec4_of aPosition 1%R) in
  Build_vertex_outputs vNormal vPosition vTexCoord gl_Position.

(** The ambient and diffuse colours the main loop sets:
    [glUniform3f( ambientLoc, 0.2f, 0.2f, 0.2f )] and
    [glUniform3f( diffuseLoc, 0.8f, 0.8f, 0.8f )]. *)
Definition uAmbientColor_main {F : Type} {SF : Scalar F} : Vec3f.t F :=
  Vec3f.make (fdec 2 10) (fdec 2 10) (fdec 2 10).

Definition uDiffuseColor_main {F : Type} {SF : Scalar F} : Vec3f.t F :=
  Vec3f.make (fdec 8 10) (fdec 8 10) (fdec 8 10).

(** ** Tactics *)

(** Evaluation of the loops and of the constructors. *)

Ltac unroll :=
  cbv [operator_mul operator_mul_into transpose transpose_into zero_filled
       operator_mul_vec for_lt for_from v v_set entry
       Nat.eqb Nat.mul Nat.add
       v_0 v_1 v_2 v_3 v_4 v_5 v_6 v_7 v_8 v_9 v_10 v_11 v_12 v_13 v_14 v_15
       Vec3f.x Vec3f.y Vec3f.z Vec4f.x Vec4f.y Vec4f.z Vec4f.w
       kIdentity44f make_translation make_scaling
       make_rotation_x make_rotation_y make_rotation_z
       make_perspective_projection].

Ltac unroll_R :=
  unroll;
  cbv [fconst fadd fsub fmul fdiv fneg fcos fsin ftan R_Scalar R_Trig].

(** Case analysis on an offset or index below a literal bound. *)
Ltac below n H :=
  repeat (destruct n as [|n]; [ | apply PeanoNat.lt_S_n in H ]);
  try (exfalso; exact (PeanoNat.Nat.nlt_0_r _ H)).

(** An entry that is the same for two different arguments is the entry
    of the identity. *)
Ltac fixed_or_identity Hfix :=
  revert Hfix; cbv [make_scaling_of make_perspective_projection_of]; unroll_R;
  rewrite ?cos_0, ?sin_0, ?cos_PI2, ?sin_PI2; lra.

(** The two directions of: the entry varies with the arguments exactly
    at the listed offsets. *)
Ltac sets_from_arguments n Hn Hfix :=
  split;
  [ intros Hnf; below n Hn; try (simpl; tauto);
    exfalso; apply Hnf; intros ? ?;
    cbv [make_scaling_of make_perspective_projection_of];
    repeat match goal with
           | a : (_ * _)%type |- _ => destruct a
           | a : Vec3f.t R |- _ => destruct a
           end; reflexivity
  | intros Hin Hfix'; revert Hin; pose proof Hfix' as Hfix ].

(** Case analysis on the finite floats of a goal. *)
Ltac float_cases :=
  repeat match goal with
         | H : finite32 ?x = true |- _ =>
             tryif (match goal with |- context [x] => idtac end)
             then (destruct x as [[] | [] | | [] ? ?]; try discriminate H; clear H)
             else clear H
         end;
  cbn [fadd fmul fneg fconst binary32_Scalar SFmul SFadd SFopp binary_normalize
       xorb negb is_zero32].

(** Evaluation of the camera and of the view matrix. *)
Ltac unroll_camera :=
  cbv [view dot3 Camera.forward Camera.right Camera.up
       Camera.position Camera.yaw Camera.pitch];
  unroll_R.

(** Case analysis on a sequence of checked steps that returned. *)
Ltac returns_cases :=
  repeat match goal with
         | H : outcome_bind ?o _ = Returns _ |- _ =>
             let E := fresh "E" in
             destruct o eqn:E; cbn [outcome_bind] in H; try discriminate H
         | H : (if ?c then _ else _) = Returns _ |- _ =>
             let C := fresh "C" in destruct c eqn:C
         | H : Returns _ = Returns _ |- _ => injection H as H
         end.

(** Evaluation of the reading of a mesh. *)
Ltac facing_R :=
  cbv [triangle_facing vertex_position vertex_normal dot3 cross3 sub3
       nth Z.to_nat Pos.to_nat Pos.iter_op Nat.mul Nat.add
       Vec3f.x Vec3f.y Vec3f.z Vec2f.x Vec2f.y fdec
       fconst fadd fsub fmul fdiv fneg fcos fsin ftan R_Scalar R_Trig].

(** ** Properties of the layout *)

Section Structural.
Context {F : Type} {SF : Scalar F}.

(** Every offset a loop nest of the header computes is inside [v[16]]. *)
Lemma loop_offsets_in_bounds (i j : nat) :
  i < 4 -> j < 4 -> i * 4 + j < 16.
Proof. lia. Qed.

(** A float written to [v] is read back, and the others stay. *)
Lemma v_set_same (m : Mat44f F) (n : nat) (x : F) :
  n < 16 -> v (v_set m n x) n = x.
Proof.
  intros H. do 16 (destruct n as [|n]; [reflexivity|]). lia.
Qed.

Lemma v_set_other (m : Mat44f F) (n k : nat) (x : F) :
  k <> n -> v (v_set m n x) k = v m k.
Proof.
  intros H.
  do 16 (destruct k as [|k];
         [ cbv [v v_set v_0 v_1 v_2 v_3 v_4 v_5 v_6 v_7 v_8 v_9 v_10 v_11
                v_12 v_13 v_14 v_15];
           match goal with
           | |- (if Nat.eqb n ?c then _ else _) = _ =>
               destruct (PeanoNat.Nat.eqb_spec n c); [congruence | reflexivity]
           end
         | ]).
  reflexivity.
Qed.

(** C9. For row and column indices below 4 the two-index accessor
    refers to the element at offset [aI * 4 + aJ], which lies inside the
    sixteen-element array, in every build: reading through it gives
    that element, and writing through it changes that element and no
    other. With an index of 4 or more the precondition is violated: in
    a build that checks assertions the assertion fails and the call
    aborts, so the array is neither read nor written. *)
Theorem subscript_guarded (NDEBUG : bool) (m : Mat44f F) (aI aJ : N) (x : F) :
  ((aI < 4)%N -> (aJ < 4)%N ->
     let n := N.to_nat aI * 4 + N.to_nat aJ in
     n < 16 /\
     operator_subscript NDEBUG aI aJ = Returns n /\
     operator_subscript_read NDEBUG m aI aJ = Returns (v m n) /\
     (exists m', operator_subscript_write NDEBUG m aI aJ x = Returns m' /\
                 v m' n = x /\
                 forall k, k <> n -> v m' k = v m k)) /\
  ((4 <= aI)%N \/ (4 <= aJ)%N ->
     operator_subscript false aI aJ = Aborts /\
     operator_subscript_read false m aI aJ = Aborts /\
     operator_subscript_write false m aI aJ x = Aborts).
Proof.
  split.
  - intros Hi Hj n.
    assert (Hn : n < 16) by (subst n; lia).
    assert (Hs : operator_subscript NDEBUG aI aJ = Returns n).
    { unfold operator_subscript, assert_, v_ref.
      destruct (N.ltb_spec aI 4); [|lia].
      destruct (N.ltb_spec aJ 4); [|lia].
      rewrite Bool.orb_true_r.
      rewrite N.mod_small by (unfold size_t_modulus; simpl; lia).
      destruct (N.ltb_spec (aI * 4 + aJ) 16); [|lia].
      f_equal. subst n. lia. }
    split; [exact Hn|]. split; [exact Hs|].
    unfold operator_subscript_read, operator_subscript_write. rewrite Hs. cbn [outcome_map].
    split; [reflexivity|].
    exists (v_set m n x). split; [reflexivity|].
    split; [apply v_set_same; exact Hn|].
    intros k Hk. apply v_set_other; exact Hk.
  - intros H.
    assert (Hs : operator_subscript false aI aJ = Aborts).
    { unfold operator_subscript, assert_.
      destruct (N.ltb_spec aI 4); destruct (N.ltb_spec aJ 4);
        cbn [andb orb]; try reflexivity; lia. }
    unfold operator_subscript_read, operator_subscript_write. rewrite Hs. cbn [outcome_map].
    split; [reflexivity | split; reflexivity].
Qed.

(** With [NDEBUG] the check is compiled out and the access goes ahead:
    inside the array it refers to another element, past its end the
    behaviour is undefined. *)
Lemma subscript_release_unguarded :
  operator_subscript true 0 5 = Returns 5 /\ operator_subscript true 4 0 = Undefined.
Proof. split; reflexivity. Qed.

(** Two matrices with the same sixteen floats are the same matrix. *)
Lemma Mat44f_init_eq
  (a0 a1 a2 a3 a4 a5 a6 a7 a8 a9 a10 a11 a12 a13 a14 a15
   b0 b1 b2 b3 b4 b5 b6 b7 b8 b9 b10 b11 b12 b13 b14 b15 : F) :
  a0 = b0 -> a1 = b1 -> a2 = b2 -> a3 = b3 ->
  a4 = b4 -> a5 = b5 -> a6 = b6 -> a7 = b7 ->
  a8 = b8 -> a9 = b9 -> a10 = b10 -> a11 = b11 ->
  a12 = b12 -> a13 = b13 -> a14 = b14 -> a15 = b15 ->
  Mat44f_init a0 a1 a2 a3 a4 a5 a6 a7 a8 a9 a10 a11 a12 a13 a14 a15 =
  Mat44f_init b0 b1 b2 b3 b4 b5 b6 b7 b8 b9 b10 b11 b12 b13 b14 b15.
Proof. intros; subst; reflexivity. Qed.

Lemma Vec4f_make_eq (a0 a1 a2 a3 b0 b1 b2 b3 : F) :
  a0 = b0 -> a1 = b1 -> a2 = b2 -> a3 = b3 ->
  Vec4f.make a0 a1 a2 a3 = Vec4f.make b0 b1 b2 b3.
Proof. intros; subst; reflexivity. Qed.

(** The entries of the identity: one on the diagonal, zero elsewhere. *)
Lemma kIdentity44f_entry (i j : nat) :
  i < 4 -> j < 4 ->
  entry (kIdentity44f : Mat44f F) i j = if Nat.eqb i j then 1%fl else 0%fl.
Proof. intros Hi Hj. below i Hi; below j Hj; reflexivity. Qed.

(** The product does not depend on what the uninitialised [ret] held. *)
Lemma operator_mul_into_any (ret aLeft aRight : Mat44f F) :
  operator_mul_into ret aLeft aRight = operator_mul aLeft aRight.
Proof. destruct ret, aLeft, aRight. reflexivity. Qed.

(** Neither does the transpose. *)
Lemma transpose_into_any (ret aM : Mat44f F) :
  transpose_into ret aM = transpose aM.
Proof. destruct ret, aM. reflexivity. Qed.

(** No access of the two loop nests leaves [v[16]]. *)
Lemma operator_mul_checked_returns (ret aLeft aRight : Mat44f F) :
  operator_mul_checked ret aLeft aRight = Returns (operator_mul aLeft aRight).
Proof. destruct ret, aLeft, aRight. reflexivity. Qed.

Lemma transpose_checked_returns (ret aM : Mat44f F) :
  transpose_checked ret aM = Returns (transpose aM).
Proof. destruct ret, aM. reflexivity. Qed.

(** C5. Transposing twice gives the matrix back, where [transpose]
    moves the entry at row i, column j to row j, column i. *)
Theorem transpose_involutive :
  (forall m : Mat44f F, transpose (transpose m) = m) /\
  (forall (m : Mat44f F) (i j : nat), i < 4 -> j < 4 ->
     entry (transpose m) j i = entry m i j).
Proof.
  split.
  - intros m. destruct m. reflexivity.
  - intros m i j Hi Hj. destruct m.
    below i Hi; below j Hj; reflexivity.
Qed.

End Structural.

(** On a translation matrix: the offset in row 0 moves to row 3. *)
Lemma transpose_involutive_witness :
  entry (transpose (make_translation (Vec3f.make 5%R 10%R 15%R))) 3 0
  = entry (make_translation (Vec3f.make 5%R 10%R 15%R)) 0 3.
Proof.
  destruct (@transpose_involutive R _) as (_ & H).
  apply H; lia.
Defined.

(** [m[1, 2]] is the float at offset 6; [m[4, 0]] aborts. *)
Lemma subscript_guarded_witness :
  operator_subscript true 1 2 = Returns 6 /\ operator_subscript false 4 0 = Aborts.
Proof.
  destruct (subscript_guarded true (@kIdentity44f R _) 1 2 5%R) as (Hin & _).
  destruct (subscript_guarded false (@kIdentity44f R _) 4 0 5%R) as (_ & Hout).
  split.
  - apply Hin; reflexivity.
  - apply Hout. left. discriminate.
Defined.

(** ** Exact arithmetic *)

Section Exact.
Local Open Scope R_scope.

(** C1. The product of two translation matrices is the translation by
    the element-wise sum: its last column holds [t1 + t2] in its first
    three entries, and every entry off that column is the entry of the
    identity matrix. *)
Theorem translation_composition (t1 t2 : Vec3f.t R) :
  let m := operator_mul (make_translation t1) (make_translation t2) in
  m = make_translation
        (Vec3f.make (Vec3f.x t1 + Vec3f.x t2)
                    (Vec3f.y t1 + Vec3f.y t2)
                    (Vec3f.z t1 + Vec3f.z t2)) /\
  entry m 0 3 = Vec3f.x t1 + Vec3f.x t2 /\
  entry m 1 3 = Vec3f.y t1 + Vec3f.y t2 /\
  entry m 2 3 = Vec3f.z t1 + Vec3f.z t2 /\
  (forall i j : nat, (i < 4)%nat -> (j < 4)%nat -> j <> 3%nat ->
     entry m i j = entry kIdentity44f i j).
Proof.
  destruct t1 as [x1 y1 z1], t2 as [x2 y2 z2].
  cbv zeta. split; [| split; [| split; [| split]]].
  - unroll_R. apply Mat44f_init_eq; ring.
  - unroll_R. ring.
  - unroll_R. ring.
  - unroll_R. ring.
  - intros i j Hi Hj Hne.
    below i Hi; below j Hj; try (elim Hne; reflexivity); unroll_R; ring.
Qed.

(** The composition test of the suite, read in exact arithmetic. *)
Lemma translation_composition_witness :
  entry (operator_mul (make_translation (Vec3f.make 1 2 3))
                      (make_translation (Vec3f.make 4 5 6))) 1 1
  = entry (@kIdentity44f R _) 1 1.
Proof.
  destruct (translation_composition (Vec3f.make 1 2 3) (Vec3f.make 4 5 6))
    as (_ & _ & _ & _ & H).
  apply H; lia.
Defined.

(** C2. The product of two scaling matrices is the scaling by the
    element-wise product: its diagonal is [(a*d, b*e, c*f, 1)] and every
    off-diagonal entry is zero. *)
Theorem scaling_composition (a b c d e f : R) :
  let m := operator_mul (make_scaling a b c) (make_scaling d e f) in
  m = make_scaling (a * d) (b * e) (c * f) /\
  entry m 0 0 = a * d /\
  entry m 1 1 = b * e /\
  entry m 2 2 = c * f /\
  entry m 3 3 = 1 /\
  (forall i j : nat, (i < 4)%nat -> (j < 4)%nat -> i <> j ->
     entry m i j = 0).
Proof.
  cbv zeta. split; [| split; [| split; [| split; [| split]]]].
  - unroll_R. apply Mat44f_init_eq; ring.
  - unroll_R. ring.
  - unroll_R. ring.
  - unroll_R. ring.
  - unroll_R. ring.
  - intros i j Hi Hj Hne.
    below i Hi; below j Hj; try (elim Hne; reflexivity); unroll_R; ring.
Qed.

(** The scaling composition of the test suite, in exact arithmetic. *)
Lemma scaling_composition_witness :
  entry (operator_mul (make_scaling 2 2 2) (make_scaling 3 3 3)) 0 1 = 0.
Proof.
  destruct (scaling_composition 2 2 2 3 3 3) as (_ & _ & _ & _ & _ & H).
  apply H; lia.
Defined.

(** The product is the row-by-column product. *)
Lemma operator_mul_entry (a b : Mat44f R) (i j : nat) :
  (i < 4)%nat -> (j < 4)%nat ->
  entry (operator_mul a b) i j =
  entry a i 0 * entry b 0 j + entry a i 1 * entry b 1 j +
  entry a i 2 * entry b 2 j + entry a i 3 * entry b 3 j.
Proof.
  intros Hi Hj. destruct a, b.
  below i Hi; below j Hj; unroll_R; ring.
Qed.

(** The identity matrix is neutral for both products. *)
Lemma operator_mul_identity (a : Mat44f R) :
  operator_mul kIdentity44f a = a /\ operator_mul a kIdentity44f = a.
Proof.
  destruct a. split; unroll_R; apply Mat44f_init_eq; ring.
Qed.

Lemma operator_mul_vec_identity (p : Vec4f.t R) :
  operator_mul_vec kIdentity44f p = p.
Proof.
  destruct p. unroll_R. apply Vec4f_make_eq; ring.
Qed.

(** C4. In exact arithmetic the matrix product is associative, and it
    is not commutative: a translation and a scaling do not commute. *)
Theorem operator_mul_assoc_not_comm :
  (forall a b c : Mat44f R,
     operator_mul (operator_mul a b) c = operator_mul a (operator_mul b c)) /\
  (exists a b : Mat44f R, operator_mul a b <> operator_mul b a).
Proof.
  split.
  - intros a b c. destruct a, b, c. unroll_R. apply Mat44f_init_eq; ring.
  - exists (make_translation (Vec3f.make 1 0 0)), (make_scaling 2 1 1).
    intros H. apply (f_equal (fun m => entry m 0 3)) in H.
    revert H. unroll_R. lra.
Qed.

(** C7. At angle zero the three rotation matrices are the identity
    matrix, one on the diagonal and zero elsewhere, by [cos 0 = 1] and
    [sin 0 = 0]. *)
Theorem rotation_zero_is_identity :
  make_rotation_x 0 = kIdentity44f /\
  make_rotation_y 0 = kIdentity44f /\
  make_rotation_z 0 = kIdentity44f /\
  (forall i j : nat, (i < 4)%nat -> (j < 4)%nat ->
     let d := if Nat.eqb i j then 1 else 0 in
     entry (make_rotation_x 0) i j = d /\
     entry (make_rotation_y 0) i j = d /\
     entry (make_rotation_z 0) i j = d).
Proof.
  assert (Hx : make_rotation_x 0 = kIdentity44f).
  { unroll_R. rewrite cos_0, sin_0, Ropp_0. reflexivity. }
  assert (Hy : make_rotation_y 0 = kIdentity44f).
  { unroll_R. rewrite cos_0, sin_0, Ropp_0. reflexivity. }
  assert (Hz : make_rotation_z 0 = kIdentity44f).
  { unroll_R. rewrite cos_0, sin_0, Ropp_0. reflexivity. }
  split; [exact Hx|]. split; [exact Hy|]. split; [exact Hz|].
  intros i j Hi Hj. cbv zeta. rewrite Hx, Hy, Hz.
  pose proof (kIdentity44f_entry (F := R) Hi Hj) as E.
  split; [exact E|]. split; exact E.
Qed.

(** Entry (1,2), which is [-sin] for the rotation about X. *)
Lemma rotation_zero_is_identity_witness :
  entry (make_rotation_x 0) 1 2 = 0 /\
  entry (make_rotation_y 0) 1 2 = 0 /\
  entry (make_rotation_z 0) 1 2 = 0.
Proof.
  destruct rotation_zero_is_identity as (_ & _ & _ & H).
  apply (H 1%nat 2%nat); lia.
Defined.

Lemma WithinAbs_same (x margin : R) : 0 <= margin -> WithinAbs x margin x.
Proof.
  intros H. unfold WithinAbs. rewrite Rminus_diag, Rabs_R0. exact H.
Qed.

Lemma Vec4f_WithinAbs_same (p : Vec4f.t R) (margin : R) :
  0 <= margin -> Vec4f_WithinAbs p margin p.
Proof.
  intros H. unfold Vec4f_WithinAbs. auto using WithinAbs_same.
Qed.

(** The margin of the tests is positive and within the tolerance. *)
Lemma kEps_tolerance : 0 < kEps_ <= tolerance.
Proof. unfold kEps_, tolerance. lra. Qed.

(** In exact arithmetic, at the real angle PI / 2: a quarter turn
    about X takes (1,1,0,1) to (1,0,1,1), about Y it takes (1,1,0,1)
    to (0,1,-1,1), and about Z it takes (1,0,1,1) to (0,1,1,1). The
    code does not compute at this angle, nor with these functions; what
    it computes is followed on binary32 after the rotation tests. *)
Theorem rotation_quarter_turn :
  let rx := operator_mul_vec (make_rotation_x (PI / 2)) (Vec4f.make 1 1 0 1) in
  let ry := operator_mul_vec (make_rotation_y (PI / 2)) (Vec4f.make 1 1 0 1) in
  let rz := operator_mul_vec (make_rotation_z (PI / 2)) (Vec4f.make 1 0 1 1) in
  (Vec4f_WithinAbs (Vec4f.make 1 0 1 1) tolerance rx /\
   Vec4f_WithinAbs (Vec4f.make 0 1 (-1) 1) tolerance ry /\
   Vec4f_WithinAbs (Vec4f.make 0 1 1 1) tolerance rz) /\
  (Vec4f_WithinAbs (Vec4f.make 1 0 1 1) kEps_ rx /\
   Vec4f_WithinAbs (Vec4f.make 0 1 (-1) 1) kEps_ ry /\
   Vec4f_WithinAbs (Vec4f.make 0 1 1 1) kEps_ rz) /\
  (rx = Vec4f.make 1 0 1 1 /\
   ry = Vec4f.make 0 1 (-1) 1 /\
   rz = Vec4f.make 0 1 1 1).
Proof.
  cbv zeta.
  assert (Hx : operator_mul_vec (make_rotation_x (PI / 2)) (Vec4f.make 1 1 0 1)
               = Vec4f.make 1 0 1 1).
  { unroll_R. rewrite cos_PI2, sin_PI2. apply Vec4f_make_eq; ring. }
  assert (Hy : operator_mul_vec (make_rotation_y (PI / 2)) (Vec4f.make 1 1 0 1)
               = Vec4f.make 0 1 (-1) 1).
  { unroll_R. rewrite cos_PI2, sin_PI2. apply Vec4f_make_eq; ring. }
  assert (Hz : operator_mul_vec (make_rotation_z (PI / 2)) (Vec4f.make 1 0 1 1)
               = Vec4f.make 0 1 1 1).
  { unroll_R. rewrite cos_PI2, sin_PI2. apply Vec4f_make_eq; ring. }
  rewrite Hx, Hy, Hz.
  pose proof kEps_tolerance as [Hk Ht].
  split; [| split].
  - split; [| split]; apply Vec4f_WithinAbs_same; lra.
  - split; [| split]; apply Vec4f_WithinAbs_same; lra.
  - split; [reflexivity | split; reflexivity].
Qed.

(** C8, as it holds: in exact arithmetic. The perspective matrix: with
    [f = 1 / tan (fov / 2)] it has [f / aspect] at (0,0), [f] at (1,1),
    [(far + near) / (near - far)] at (2,2),
    [2 * far * near / (near - far)] at (2,3), [-1] at (3,2), and zero
    everywhere else. The code multiplies by the reciprocal
    [1 / (near - far)], which is the quotient only where nothing is
    rounded. *)
Theorem perspective_projection_entries (fov aspect near far : R) :
  let f := 1 / tan (fov / 2) in
  let m := make_perspective_projection fov aspect near far in
  m = Mat44f_init
        (f / aspect) 0 0 0
        0 f 0 0
        0 0 ((far + near) / (near - far)) (2 * far * near / (near - far))
        0 0 (-1) 0 /\
  entry m 0 0 = f / aspect /\
  entry m 1 1 = f /\
  entry m 2 2 = (far + near) / (near - far) /\
  entry m 2 3 = 2 * far * near / (near - far) /\
  entry m 3 2 = -1 /\
  (forall i j : nat, (i < 4)%nat -> (j < 4)%nat ->
     ~ In (i, j) [(0, 0); (1, 1); (2, 2); (2, 3); (3, 2)]%nat ->
     entry m i j = 0).
Proof.
  cbv zeta. split; [| split; [| split; [| split; [| split; [| split]]]]].
  - unroll_R. apply Mat44f_init_eq; unfold Rdiv; ring.
  - unroll_R. reflexivity.
  - unroll_R. reflexivity.
  - unroll_R. unfold Rdiv; ring.
  - unroll_R. unfold Rdiv; ring.
  - unroll_R. ring.
  - intros i j Hi Hj Hn.
    below i Hi; below j Hj;
      try (exfalso; apply Hn; simpl; tauto); unroll_R; reflexivity.
Qed.

(** Entry (3,3) of a projection with a right-angle field of view. *)
Lemma perspective_projection_entries_witness :
  entry (make_perspective_projection (PI / 2) 1 1 2) 3 3 = 0.
Proof.
  destruct (perspective_projection_entries (PI / 2) 1 1 2)
    as (_ & _ & _ & _ & _ & _ & H).
  apply H; [lia | lia |].
  simpl. intros [E | [E | [E | [E | [E | []]]]]]; discriminate E.
Defined.

(** C10. Whatever the frustum and the vector, the [w] of the projected
    vector is minus its [z]: the last row of the perspective matrix is
    (0, 0, -1, 0). *)
Theorem perspective_w_is_minus_z (fov aspect near far : R) (p : Vec4f.t R) :
  let m := make_perspective_projection fov aspect near far in
  Vec4f.w (operator_mul_vec m p) = - Vec4f.z p /\
  (entry m 3 0 = 0 /\ entry m 3 1 = 0 /\ entry m 3 2 = -1 /\ entry m 3 3 = 0).
Proof.
  destruct p as [x y z w]. cbv zeta.
  split; [| split; [| split; [| split]]]; unroll_R; ring.
Qed.

(** *** Angles near a quarter turn *)

Lemma sin_abs_le (x : R) : Rabs (sin x) <= Rabs x.
Proof.
  assert (Hpos : forall y, 0 <= y -> Rabs (sin y) <= y).
  { intros y [Hy | <-].
    - destruct (Rle_lt_dec y 1) as [H1 | H1].
      + assert (0 <= sin y) by (apply sin_ge_0; pose proof PI2_1; lra).
        rewrite Rabs_pos_eq by assumption. left. apply sin_lt_x, Hy.
      + pose proof (SIN_bound y). apply Rabs_le. lra.
    - rewrite sin_0, Rabs_R0. lra. }
  destruct (Rle_lt_dec 0 x) as [H | H].
  - rewrite (Rabs_pos_eq x) by assumption. apply Hpos, H.
  - rewrite <- (Rabs_Ropp (sin x)), <- sin_neg, <- (Rabs_Ropp x).
    rewrite (Rabs_pos_eq (- x)) by lra. apply Hpos. lra.
Qed.

Lemma cos_near_quarter_turn (theta : R) :
  Rabs (cos theta - 0) <= Rabs (theta - PI / 2).
Proof.
  rewrite Rminus_0_r, <- sin_shift, (Rabs_minus_sym theta). apply sin_abs_le.
Qed.

Lemma sin_near_quarter_turn (theta : R) :
  Rabs (theta - PI / 2) <= 1 ->
  Rabs (sin theta - 1) <= Rabs (theta - PI / 2).
Proof.
  intros H1.
  set (d := PI / 2 - theta).
  assert (Hd : Rabs (theta - PI / 2) = Rabs d) by (apply Rabs_minus_sym).
  rewrite Hd in *.
  assert (Hs : sin theta = 1 - 2 * sin (d / 2) * sin (d / 2)).
  { rewrite <- cos_2a_sin. replace (2 * (d / 2)) with d by lra.
    unfold d. symmetry. apply cos_shift. }
  rewrite Hs.
  pose proof (sin_abs_le (d / 2)) as Hh.
  assert (Hd2 : Rabs (d / 2) = Rabs d / 2).
  { unfold Rdiv. rewrite Rabs_mult, (Rabs_pos_eq (/ 2)) by lra. reflexivity. }
  rewrite Hd2 in Hh.
  pose proof (Rabs_pos d) as Hd0.
  pose proof (Rabs_pos (sin (d / 2))) as Hs0.
  replace (1 - 2 * sin (d / 2) * sin (d / 2) - 1)
    with (- (2 * (sin (d / 2) * sin (d / 2)))) by ring.
  rewrite Rabs_Ropp, Rabs_mult, Rabs_mult, (Rabs_pos_eq 2) by lra.
  nra.
Qed.

Lemma WithinAbs_eq (target margin x y : R) :
  x = y -> WithinAbs target margin y -> WithinAbs target margin x.
Proof. intros ->. exact (fun H => H). Qed.

(** The same for any angle within [margin] of a quarter turn, such as
    the binary32 angle the tests pass: the rotated vectors stay within
    [margin] of the expected ones. *)
Theorem rotation_near_quarter_turn (theta margin : R) :
  Rabs (theta - PI / 2) <= margin -> margin <= 1 ->
  Vec4f_WithinAbs (Vec4f.make 1 0 1 1) margin
    (operator_mul_vec (make_rotation_x theta) (Vec4f.make 1 1 0 1)) /\
  Vec4f_WithinAbs (Vec4f.make 0 1 (-1) 1) margin
    (operator_mul_vec (make_rotation_y theta) (Vec4f.make 1 1 0 1)) /\
  Vec4f_WithinAbs (Vec4f.make 0 1 1 1) margin
    (operator_mul_vec (make_rotation_z theta) (Vec4f.make 1 0 1 1)).
Proof.
  intros Hth Hm.
  assert (H0 : 0 <= margin) by (pose proof (Rabs_pos (theta - PI / 2)); lra).
  assert (Hc : WithinAbs 0 margin (cos theta)).
  { unfold WithinAbs. pose proof (cos_near_quarter_turn theta). lra. }
  assert (Hs : WithinAbs 1 margin (sin theta)).
  { unfold WithinAbs. pose proof (sin_near_quarter_turn theta). lra. }
  assert (Hms : WithinAbs (-1) margin (- sin theta)).
  { unfold WithinAbs in *.
    replace (- sin theta - -1) with (- (sin theta - 1)) by ring.
    rewrite Rabs_Ropp. exact Hs. }
  unfold Vec4f_WithinAbs. unroll_R.
  repeat match goal with
         | |- _ /\ _ => split
         end;
    match goal with
    | |- WithinAbs 0 _ _ => apply WithinAbs_eq with (y := cos theta); [ring | exact Hc]
    | |- WithinAbs (-1) _ _ => apply WithinAbs_eq with (y := - sin theta); [ring | exact Hms]
    | |- WithinAbs 1 _ _ =>
        first [ apply WithinAbs_eq with (y := 1); [ring | apply WithinAbs_same, H0]
              | apply WithinAbs_eq with (y := sin theta); [ring | exact Hs] ]
    end.
Qed.

(** *** Entries the constructors leave fixed *)

Lemma make_translation_identity_where_fixed :
  identity_where_fixed (@make_translation R _).
Proof.
  intros n Hn Hfix a.
  specialize (Hfix (Vec3f.make 0 0 0) (Vec3f.make 1 1 1)).
  destruct a as [x y z].
  below n Hn; fixed_or_identity Hfix.
Qed.

Lemma make_scaling_identity_where_fixed :
  identity_where_fixed make_scaling_of.
Proof.
  intros n Hn Hfix a.
  specialize (Hfix (0, 0, 0) (2, 2, 2)).
  destruct a as [[x y] z].
  below n Hn; fixed_or_identity Hfix.
Qed.

Lemma make_rotation_x_identity_where_fixed :
  identity_where_fixed (@make_rotation_x R _ _).
Proof.
  intros n Hn Hfix a. specialize (Hfix 0 (PI / 2)).
  below n Hn; fixed_or_identity Hfix.
Qed.

Lemma make_rotation_y_identity_where_fixed :
  identity_where_fixed (@make_rotation_y R _ _).
Proof.
  intros n Hn Hfix a. specialize (Hfix 0 (PI / 2)).
  below n Hn; fixed_or_identity Hfix.
Qed.

Lemma make_rotation_z_identity_where_fixed :
  identity_where_fixed (@make_rotation_z R _ _).
Proof.
  intros n Hn Hfix a. specialize (Hfix 0 (PI / 2)).
  below n Hn; fixed_or_identity Hfix.
Qed.

Lemma make_perspective_projection_identity_where_fixed :
  identity_where_fixed_except [14; 15]%nat make_perspective_projection_of.
Proof.
  intros n Hn Hex Hfix a.
  specialize (Hfix (PI / 2, 1, 2, 1) (2 * atan 2, 2, 3, 1)).
  assert (E1 : PI / 2 / 2 = PI / 4) by lra.
  assert (E2 : 2 * atan 2 / 2 = atan 2) by lra.
  assert (E3 : 2 - 1 = 1) by lra.
  assert (E4 : 3 - 1 = 2) by lra.
  destruct a as [[[fov aspect] near] far].
  below n Hn; try (exfalso; apply Hex; simpl; tauto);
    revert Hfix; cbv [make_perspective_projection_of]; unroll_R;
    rewrite ?E1, ?E2, ?E3, ?E4, ?tan_PI4, ?tan_atan; lra.
Qed.

Lemma make_perspective_projection_last_row_fixed :
  fixed_entry make_perspective_projection_of 14 /\
  fixed_entry make_perspective_projection_of 15.
Proof.
  split; intros [[[f1 a1] n1] r1] [[[f2 a2] n2] r2]; reflexivity.
Qed.

(** Which floats each constructor sets from its arguments. *)
Lemma make_translation_sets (n : nat) :
  (n < 16)%nat ->
  ~ fixed_entry (@make_translation R _) n <-> In n [3; 7; 11]%nat.
Proof.
  intros Hn. sets_from_arguments n Hn Hfix.
  specialize (Hfix (Vec3f.make 0 0 0) (Vec3f.make 1 1 1)).
  below n Hn; simpl; try lia; intros _; fixed_or_identity Hfix.
Qed.

Lemma make_scaling_sets (n : nat) :
  (n < 16)%nat ->
  ~ fixed_entry make_scaling_of n <-> In n [0; 5; 10]%nat.
Proof.
  intros Hn. sets_from_arguments n Hn Hfix.
  specialize (Hfix (0, 0, 0) (2, 2, 2)).
  below n Hn; simpl; try lia; intros _; fixed_or_identity Hfix.
Qed.

Lemma make_rotation_x_sets (n : nat) :
  (n < 16)%nat ->
  ~ fixed_entry (@make_rotation_x R _ _) n <-> In n [5; 6; 9; 10]%nat.
Proof.
  intros Hn. sets_from_arguments n Hn Hfix.
  specialize (Hfix 0 (PI / 2)).
  below n Hn; simpl; try lia; intros _; fixed_or_identity Hfix.
Qed.

Lemma make_rotation_y_sets (n : nat) :
  (n < 16)%nat ->
  ~ fixed_entry (@make_rotation_y R _ _) n <-> In n [0; 2; 8; 10]%nat.
Proof.
  intros Hn. sets_from_arguments n Hn Hfix.
  specialize (Hfix 0 (PI / 2)).
  below n Hn; simpl; try lia; intros _; fixed_or_identity Hfix.
Qed.

Lemma make_rotation_z_sets (n : nat) :
  (n < 16)%nat ->
  ~ fixed_entry (@make_rotation_z R _ _) n <-> In n [0; 1; 4; 5]%nat.
Proof.
  intros Hn. sets_from_arguments n Hn Hfix.
  specialize (Hfix 0 (PI / 2)).
  below n Hn; simpl; try lia; intros _; fixed_or_identity Hfix.
Qed.

Lemma make_perspective_projection_sets (n : nat) :
  (n < 16)%nat ->
  ~ fixed_entry make_perspective_projection_of n <-> In n [0; 5; 10; 11]%nat.
Proof.
  intros Hn. sets_from_arguments n Hn Hfix.
  specialize (Hfix (PI / 2, 1, 2, 1) (2 * atan 2, 2, 3, 1)).
  assert (E1 : PI / 2 / 2 = PI / 4) by lra.
  assert (E2 : 2 * atan 2 / 2 = atan 2) by lra.
  assert (E3 : 2 - 1 = 1) by lra.
  assert (E4 : 3 - 1 = 2) by lra.
  below n Hn; simpl; try lia; intros _;
    revert Hfix; cbv [make_perspective_projection_of]; unroll_R;
    rewrite ?E1, ?E2, ?E3, ?E4, ?tan_PI4, ?tan_atan; lra.
Qed.

(** C3, as it holds. The translation, scaling and rotation constructors
    return the identity matrix in every float they do not set from
    their arguments. The perspective constructor does so in its first
    three rows; its last row is the constant (0, 0, -1, 0), which is not
    the last row (0, 0, 0, 1) of the identity. *)
Theorem make_identity_where_fixed :
  identity_where_fixed (@make_translation R _) /\
  identity_where_fixed make_scaling_of /\
  identity_where_fixed (@make_rotation_x R _ _) /\
  identity_where_fixed (@make_rotation_y R _ _) /\
  identity_where_fixed (@make_rotation_z R _ _) /\
  identity_where_fixed_except [14; 15]%nat make_perspective_projection_of /\
  (forall a : R * R * R * R,
     v (make_perspective_projection_of a) 14 = -1 /\
     v (make_perspective_projection_of a) 15 = 0).
Proof.
  split; [exact make_translation_identity_where_fixed|].
  split; [exact make_scaling_identity_where_fixed|].
  split; [exact make_rotation_x_identity_where_fixed|].
  split; [exact make_rotation_y_identity_where_fixed|].
  split; [exact make_rotation_z_identity_where_fixed|].
  split; [exact make_perspective_projection_identity_where_fixed|].
  intros [[[fov aspect] near] far].
  split; cbv [make_perspective_projection_of]; unroll_R; ring.
Qed.

(** Float 0 of a translation, float 1 of a projection. *)
Lemma make_identity_where_fixed_witness :
  v (make_translation (Vec3f.make 5 10 15)) 0 = v (@kIdentity44f R _) 0 /\
  v (make_perspective_projection (PI / 2) 1 1 2) 1 = v (@kIdentity44f R _) 1.
Proof.
  destruct make_identity_where_fixed as (Ht & _ & _ & _ & _ & Hp & _).
  split.
  - apply Ht; [lia | intros [x y z] [x' y' z']; reflexivity].
  - apply (Hp 1%nat ltac:(lia)) with (a := (PI / 2, 1, 1, 2)).
    + simpl. lia.
    + intros [[[f1 a1] n1] r1] [[[f2 a2] n2] r2]. reflexivity.
Defined.

(** Whatever floats one counts as set by the perspective constructor:
    if all the others are the identity's, then the floats 14 and 15 of
    the last row are among those counted. *)
Lemma perspective_last_row_must_be_set (set : list nat) (a : R * R * R * R) :
  (forall n : nat, (n < 16)%nat -> ~ In n set ->
     v (make_perspective_projection_of a) n = v kIdentity44f n) ->
  In 14%nat set /\ In 15%nat set.
Proof.
  intros H. destruct a as [[[fov aspect] near] far].
  split.
  - destruct (in_dec PeanoNat.Nat.eq_dec 14%nat set) as [Hin | Hout]; [exact Hin|].
    exfalso. specialize (H 14%nat ltac:(lia) Hout).
    revert H. cbv [make_perspective_projection_of]. unroll_R. lra.
  - destruct (in_dec PeanoNat.Nat.eq_dec 15%nat set) as [Hin | Hout]; [exact Hin|].
    exfalso. specialize (H 15%nat ltac:(lia) Hout).
    revert H. cbv [make_perspective_projection_of]. unroll_R. lra.
Qed.

(** C3, as stated, fails. For the field of view PI/2, the aspect ratio 1
    and the planes 1 and 2 (as for any other arguments), float 15 (row
    3, column 3) of the perspective matrix is the literal 0, where the
    identity matrix has 1. *)
Lemma perspective_last_row_not_identity :
  fixed_entry make_perspective_projection_of 15 /\
  v (make_perspective_projection (PI / 2) 1 1 2) 15 = 0 /\
  v (@kIdentity44f R _) 15 = 1 /\
  ~ every_make_identity_where_fixed.
Proof.
  pose proof make_perspective_projection_last_row_fixed as [_ Hfix].
  split; [exact Hfix|]. split; [reflexivity|]. split; [reflexivity|].
  intros (_ & _ & _ & _ & _ & H).
  specialize (H 15%nat ltac:(lia) Hfix (PI / 2, 1, 1, 2)).
  revert H. cbv [make_perspective_projection_of]. unroll_R. lra.
Qed.

End Exact.

(** ** binary32 *)

Section Binary32.
Local Open Scope float_scope.

Lemma fexp_canonical (m : positive) (e : Z) :
  SpecFloat.bounded 24 128 m e = true ->
  fexp 24 128 (Zpos (digits2_pos m) + e) = e /\ (e <= 104)%Z.
Proof.
  unfold SpecFloat.bounded, canonical_mantissa. intros H.
  apply andb_true_iff in H as [H1 H2].
  apply Z.eqb_eq in H1. apply Z.leb_le in H2. split; [exact H1 | exact H2].
Qed.

Lemma shr_fexp_canonical (m : positive) (e : Z) :
  SpecFloat.bounded 24 128 m e = true ->
  shr_fexp 24 128 (Zpos m) e loc_Exact = (Build_shr_record (Zpos m) false false, e).
Proof.
  intros H. apply fexp_canonical in H as [H _].
  unfold shr_fexp. cbn [Zdigits2]. rewrite H, Z.sub_diag. reflexivity.
Qed.

(** A canonical significand times 2^23, at an exponent 23 lower, rounds
    to itself: the product of a float with [1.f] is exact. *)
Lemma binary_round_aux_shifted (s : bool) (m : positive) (e : Z) :
  SpecFloat.bounded 24 128 m e = true ->
  binary_round_aux 24 128 s (Zpos (8388608 * m)) (-23 + e) loc_Exact
  = S754_finite s m e.
Proof.
  intros Hb. pose proof (fexp_canonical _ _ Hb) as [Hf He].
  unfold binary_round_aux.
  assert (H1 : shr_fexp 24 128 (Zpos (8388608 * m)) (-23 + e) loc_Exact
               = (Build_shr_record (Zpos m) false false, e)).
  { unfold shr_fexp. cbn [Zdigits2 Pos.mul digits2_pos].
    rewrite !Pos2Z.inj_succ.
    match goal with
    | |- context [fexp 24 128 ?a] =>
        replace a with (Zpos (digits2_pos m) + e)%Z by lia
    end.
    rewrite Hf.
    replace (e - (-23 + e))%Z with 23%Z by lia.
    cbn [shr shr_record_of_loc iter_pos shr_1 orb].
    f_equal. lia. }
  rewrite H1. cbn [shr_m loc_of_shr_record round_nearest_even].
  rewrite (shr_fexp_canonical _ _ Hb). cbn [shr_m].
  replace (e <=? 128 - 24)%Z with true by (symmetry; apply Z.leb_le; lia).
  reflexivity.
Qed.

Lemma fmul_1_l (x : binary32) : finite32 x = true -> 1 * x = x.
Proof.
  destruct x as [s | s | | s m e]; try discriminate; intros H.
  - reflexivity.
  - exact (binary_round_aux_shifted s m e H).
Qed.

Lemma fmul_1_r (x : binary32) : finite32 x = true -> x * 1 = x.
Proof.
  destruct x as [s | s | | s m e]; try discriminate; intros H.
  - destruct s; reflexivity.
  - change (binary_round_aux 24 128 (xorb s false) (Zpos (m * 8388608)) (e + -23) loc_Exact
            = S754_finite s m e).
    rewrite Pos.mul_comm, Z.add_comm, xorb_false_r.
    exact (binary_round_aux_shifted s m e H).
Qed.

Lemma fmul_m1_l (x : binary32) : finite32 x = true -> fneg 1 * x = fneg x.
Proof.
  destruct x as [s | s | | s m e]; try discriminate; intros H.
  - reflexivity.
  - exact (binary_round_aux_shifted (negb s) m e H).
Qed.

Lemma fadd_comm (x y : binary32) : x + y = y + x.
Proof.
  destruct x as [[] | [] | | sx mx ex], y as [[] | [] | | sy my ey];
    try reflexivity.
  cbn [fadd binary32_Scalar SFadd].
  rewrite (Z.min_comm ey ex). f_equal. apply Z.add_comm.
Qed.

(** Summing from [0.f], as the loop of [operator*] does, gives the sum
    up to the sign of a zero. *)
Lemma fadd_from_zero (x y : binary32) :
  finite32 x = true -> finite32 y = true ->
  same_float (0 + y + x) (x + y).
Proof.
  intros Hx Hy.
  destruct x as [[] | [] | | sx mx ex]; try discriminate Hx;
    destruct y as [[] | [] | | sy my ey]; try discriminate Hy;
    try (left; reflexivity); try (right; split; reflexivity).
  left. change (0 + S754_finite sy my ey) with (S754_finite sy my ey).
  apply fadd_comm.
Qed.

(** Floats that are the same up to the sign of a zero compare equal
    with [==], unless they are NaN. *)
Lemma same_float_eqb (x y : binary32) :
  same_float x y -> x <> S754_nan -> SFeqb x y = true.
Proof.
  intros [<- | [Hx Hy]] Hn.
  - destruct x as [[] | [] | | [] m e]; try reflexivity; try congruence;
      unfold SFeqb, SFcompare;
      rewrite Z.compare_refl, Pos.compare_cont_refl; reflexivity.
  - destruct x, y; try discriminate; reflexivity.
Qed.

Lemma fadd_zero_l (p : binary32) : same_float (0 + p) p.
Proof.
  destruct p as [[] | [] | | s m e];
    try (left; reflexivity); right; split; reflexivity.
Qed.

(** The composition of two translations on binary32, for finite
    offsets: the product is the translation whose offsets are the sums
    as the loop accumulates them, and these are the float sums up to
    the sign of a zero. *)
Theorem translation_composition_binary32 (t1 t2 : Vec3f.t binary32) :
  finite_Vec3f t1 -> finite_Vec3f t2 ->
  let sx := 0 + Vec3f.x t2 + Vec3f.x t1 in
  let sy := 0 + Vec3f.y t2 + Vec3f.y t1 in
  let sz := 0 + Vec3f.z t2 + Vec3f.z t1 in
  operator_mul (make_translation t1) (make_translation t2)
  = make_translation (Vec3f.make sx sy sz) /\
  same_float sx (Vec3f.x t1 + Vec3f.x t2) /\
  same_float sy (Vec3f.y t1 + Vec3f.y t2) /\
  same_float sz (Vec3f.z t1 + Vec3f.z t2).
Proof.
  destruct t1 as [x1 y1 z1], t2 as [x2 y2 z2].
  intros (Hx1 & Hy1 & Hz1) (Hx2 & Hy2 & Hz2).
  cbn [Vec3f.x Vec3f.y Vec3f.z] in *. cbv zeta.
  split; [| auto using fadd_from_zero].
  unroll.
  rewrite !fmul_1_l, !fmul_1_r by (assumption || reflexivity).
  apply Mat44f_init_eq; float_cases; reflexivity.
Qed.

(** The composition of two scalings on binary32, for finite factors:
    the diagonal holds the float products (a zero product comes out as
    [+0.f]), and every other entry is exactly the identity's. *)
Theorem scaling_composition_binary32 (a b c d e f : binary32) :
  finite32 a = true -> finite32 b = true -> finite32 c = true ->
  finite32 d = true -> finite32 e = true -> finite32 f = true ->
  operator_mul (make_scaling a b c) (make_scaling d e f)
  = make_scaling (0 + a * d) (0 + b * e) (0 + c * f) /\
  same_float (0 + a * d) (a * d) /\
  same_float (0 + b * e) (b * e) /\
  same_float (0 + c * f) (c * f).
Proof.
  intros Ha Hb Hc Hd He Hf.
  split; [| auto using fadd_zero_l].
  unroll.
  apply Mat44f_init_eq;
    try (generalize (a * d); intros p; destruct p as [[] | [] | | ? ? ?]; reflexivity);
    try (generalize (b * e); intros p; destruct p as [[] | [] | | ? ? ?]; reflexivity);
    try (generalize (c * f); intros p; destruct p as [[] | [] | | ? ? ?]; reflexivity);
    float_cases; reflexivity.
Qed.

Variable cmath : Trig binary32.

(** The [w] of a projected finite vector on binary32 is minus its [z],
    up to the sign of a zero, whatever [std::tan] returns. *)
Theorem perspective_w_is_minus_z_binary32
    (fov aspect near far : binary32) (p : Vec4f.t binary32) :
  finite_Vec4f p ->
  same_float
    (Vec4f.w (operator_mul_vec (make_perspective_projection fov aspect near far) p))
    (fneg (Vec4f.z p)).
Proof.
  destruct p as [x y z w]. intros (Hx & Hy & Hz & Hw).
  cbn [Vec4f.x Vec4f.y Vec4f.z Vec4f.w] in *.
  unroll. rewrite fmul_m1_l by assumption.
  unfold same_float.
  float_cases; try (left; reflexivity); right; split; reflexivity.
Qed.

(** The rotations by [0.f] on binary32, for any [std::cos] and
    [std::sin] with [cos(0.f) = 1.f] and [sin(0.f) = 0.f]: every float
    is the identity's, up to the sign of the zero that [-s] leaves. *)
Theorem rotation_zero_binary32 (n : nat) :
  fcos 0 = 1 -> fsin 0 = 0 -> (n < 16)%nat ->
  same_float (v (make_rotation_x 0) n) (v kIdentity44f n) /\
  same_float (v (make_rotation_y 0) n) (v kIdentity44f n) /\
  same_float (v (make_rotation_z 0) n) (v kIdentity44f n).
Proof.
  intros Hc Hs Hn. unroll. rewrite Hc, Hs. unfold same_float.
  below n Hn;
    (split; [| split]);
    first [ left; reflexivity | right; split; reflexivity ].
Qed.

(** An infinite offset is outside these statements: the zero entries of
    the other matrix multiply it to a NaN. *)
Example translation_composition_infinite :
  v (operator_mul (make_translation (Vec3f.make (S754_infinity false) 0 0))
                  (make_translation (Vec3f.make 0 0 0))) 0
  = S754_nan.
Proof. vm_compute. reflexivity. Qed.

(** Rounding makes the product non-associative on binary32. *)
Example operator_mul_binary32_not_assoc :
  let a := make_scaling (1 / fconst 3) 1 1 in
  let c := make_scaling (fconst 3) 1 1 in
  operator_mul (operator_mul a a) c <> operator_mul a (operator_mul a c).
Proof. vm_compute. discriminate. Qed.

(** Entry (2,2) is the product with the rounded reciprocal, which can
    differ from the rounded quotient in the last place. *)
Example perspective_reciprocal_rounding (fov aspect : binary32) :
  v (make_perspective_projection fov aspect 1 (fconst 4)) 10
  = S754_finite true 13981014 (-23) /\
  (fconst 4 + 1) / (1 - fconst 4) = S754_finite true 13981013 (-23).
Proof. split; vm_compute; reflexivity. Qed.

End Binary32.

Section PerspectiveBinary32.
Local Open Scope float_scope.

(** C8, as stated, fails on the floats of the code. With the planes
    [1.f] and [4.f], whatever the field of view, the aspect ratio and
    [std::tan] are, entry (2,2) is the product of [4.f + 1.f] with the
    rounded reciprocal [1.f / (1.f - 4.f)], which is
    -13981014 * 2^-23. The quotient [(4.f + 1.f) / (1.f - 4.f)] is the
    float next to it, -13981013 * 2^-23, and the real number
    (4 + 1) / (1 - 4) is neither. *)
Lemma perspective_entry_not_quotient :
  (forall (cmath : Trig binary32) (fov aspect : binary32),
     entry (make_perspective_projection fov aspect 1 (fconst 4)) 2 2
     = S754_finite true 13981014 (-23)) /\
  (fconst 4 + 1) / (1 - fconst 4) = S754_finite true 13981013 (-23) /\
  S754_finite true 13981014 (-23) <> (fconst 4 + 1) / (1 - fconst 4) /\
  (binary32_to_R (S754_finite true 13981014 (-23)) <> (4 + 1) / (1 - 4))%R.
Proof.
  split; [| split; [| split]].
  - intros cmath fov aspect. vm_compute. reflexivity.
  - vm_compute. reflexivity.
  - vm_compute. discriminate.
  - cbv [binary32_to_R powerRZ].
    replace (Pos.to_nat 23) with 23%nat by reflexivity.
    simpl pow. lra.
Qed.

End PerspectiveBinary32.

(** ** The unit tests *)

(** The sections of the test suite that need no [<cmath>], evaluated on
    binary32. The floats come out equal to the expected ones, so every
    [WithinAbs] of these sections passes. *)
Section Tests.
Local Open Scope float_scope.

(** mult.cpp, "Identity * Identity = Identity". *)
Example test_identity_times_identity :
  operator_mul (kIdentity44f : Mat44f binary32) kIdentity44f = kIdentity44f.
Proof. vm_compute. reflexivity. Qed.

(** mult.cpp, "Matrix * Vector multiplication". *)
Example test_identity_times_vector :
  operator_mul_vec kIdentity44f (Vec4f.make (fconst 1) (fconst 2) (fconst 3) (fconst 4))
  = Vec4f.make (fconst 1) (fconst 2) (fconst 3) (fconst 4).
Proof. vm_compute. reflexivity. Qed.

(** mult.cpp, "Translation matrix" and "Scaling matrix". *)
Example test_translation_scaling_vector :
  operator_mul_vec (make_translation (Vec3f.make (fconst 1) (fconst 2) (fconst 3)))
                   (Vec4f.make (fconst 1) (fconst 1) (fconst 1) (fconst 1))
  = Vec4f.make (fconst 2) (fconst 3) (fconst 4) (fconst 1) /\
  operator_mul_vec (make_scaling (fconst 2) (fconst 3) (fconst 4))
                   (Vec4f.make (fconst 1) (fconst 1) (fconst 1) (fconst 1))
  = Vec4f.make (fconst 2) (fconst 3) (fconst 4) (fconst 1).
Proof. split; vm_compute; reflexivity. Qed.

(** translation.cpp, "Translation matrix basic". *)
Example test_translation_basic :
  let trans := make_translation (Vec3f.make (fconst 5) (fconst 10) (fconst 15)) in
  v trans 3 = fconst 5 /\ v trans 7 = fconst 10 /\ v trans 11 = fconst 15 /\
  forallb (fun i => forallb (fun j =>
    SFeqb (v trans (i * 4 + j)) (if Nat.eqb i j then fconst 1 else fconst 0))
    [0; 1; 2]%nat) [0; 1; 2]%nat = true.
Proof. cbv zeta. repeat split. Qed.

(** translation.cpp, "Translation applied to vector". *)
Example test_translation_applied :
  operator_mul_vec (make_translation (Vec3f.make (fconst 2) (fconst 3) (fconst 4)))
                   (Vec4f.make (fconst 1) (fconst 1) (fconst 1) (fconst 1))
  = Vec4f.make (fconst 3) (fconst 4) (fconst 5) (fconst 1).
Proof. vm_compute. reflexivity. Qed.

(** translation.cpp, "Scaling matrix basic". *)
Example test_scaling_basic :
  let scale := make_scaling (fconst 2) (fconst 3) (fconst 4) in
  v scale 0 = fconst 2 /\ v scale 5 = fconst 3 /\ v scale 10 = fconst 4 /\ v scale 15 = fconst 1 /\
  forallb (fun i => forallb (fun j =>
    Nat.eqb i j || SFeqb (v scale (i * 4 + j)) (fconst 0))
    [0; 1; 2; 3]%nat) [0; 1; 2; 3]%nat = true.
Proof. cbv zeta. repeat split. Qed.

(** translation.cpp, "Scaling applied to vector". *)
Example test_scaling_applied :
  operator_mul_vec (make_scaling (fconst 2) (fconst 3) (fconst 4))
                   (Vec4f.make (fconst 2) (fconst 2) (fconst 2) (fconst 1))
  = Vec4f.make (fconst 4) (fconst 6) (fconst 8) (fconst 1).
Proof. vm_compute. reflexivity. Qed.

(** translation.cpp, "Translation composition". *)
Example test_translation_composition :
  let combined :=
    operator_mul (make_translation (Vec3f.make (fconst 1) (fconst 2) (fconst 3)))
                 (make_translation (Vec3f.make (fconst 4) (fconst 5) (fconst 6))) in
  v combined 3 = fconst 5 /\ v combined 7 = fconst 7 /\ v combined 11 = fconst 9.
Proof. cbv zeta. split; [| split]; vm_compute; reflexivity. Qed.

(** translation.cpp, "Scaling composition". *)
Example test_scaling_composition :
  let combined :=
    operator_mul (make_scaling (fconst 2) (fconst 2) (fconst 2))
                 (make_scaling (fconst 3) (fconst 3) (fconst 3)) in
  v combined 0 = fconst 6 /\ v combined 5 = fconst 6 /\ v combined 10 = fconst 6.
Proof. cbv zeta. split; [| split]; vm_compute; reflexivity. Qed.

End Tests.

(** The rotation tests call [std::cos] and [std::sin]; what can be
    said of them is said in exact arithmetic, at the angle the tests
    compute on binary32. *)
Section RotationTests.
Local Open Scope R_scope.

(** The margin [1e-6f] of the tests is [kEps_]: [1.f / 1000000.f]
    rounds to the same float as the literal. *)
Lemma kEps_binary32 :
  binary32_to_R (fconst 1 / fconst 1000000)%fl = kEps_.
Proof.
  replace (fconst 1 / fconst 1000000)%fl with (S754_finite false 8796093 (-43))
    by (vm_compute; reflexivity).
  cbv [binary32_to_R powerRZ kEps_].
  replace (Pos.to_nat 43) with 43%nat by reflexivity.
  lra.
Qed.

(** The angle of the rotation tests, as binary32 computes it. *)
Lemma quarter_turn_float_value :
  quarter_turn_float = S754_finite false 13176795 (-23).
Proof. vm_compute. reflexivity. Qed.

Lemma PI_bounds : 3.1415926 < PI < 3.1415927.
Proof.
  pose proof (PI_2_3_7_ineq 3) as [Hlo Hhi].
  cbv [sum_f_R0 tg_alt PI_2_3_7_tg Ratan_seq Nat.mul Nat.add INR] in Hlo, Hhi.
  simpl pow in Hlo, Hhi.
  split; lra.
Qed.

(** It is within the margin of a quarter turn. *)
Lemma quarter_turn_float_near :
  Rabs (binary32_to_R quarter_turn_float - PI / 2) <= kEps_.
Proof.
  rewrite quarter_turn_float_value.
  cbv [binary32_to_R powerRZ Pos.to_nat Pos.iter_op Nat.add].
  simpl pow. unfold kEps_.
  pose proof PI_bounds. apply Rabs_le. split; lra.
Qed.

(** "Rotation X/Y/Z - 90 degrees" of the rotation tests: at the angle
    the tests pass, and with the rotation itself in exact arithmetic,
    all twelve [WithinAbs] hold. *)
Theorem test_rotation_quarter_turns :
  let angle := binary32_to_R quarter_turn_float in
  Vec4f_WithinAbs (Vec4f.make 1 0 1 1) kEps_
    (operator_mul_vec (make_rotation_x angle) (Vec4f.make 1 1 0 1)) /\
  Vec4f_WithinAbs (Vec4f.make 0 1 (-1) 1) kEps_
    (operator_mul_vec (make_rotation_y angle) (Vec4f.make 1 1 0 1)) /\
  Vec4f_WithinAbs (Vec4f.make 0 1 1 1) kEps_
    (operator_mul_vec (make_rotation_z angle) (Vec4f.make 1 0 1 1)).
Proof.
  cbv zeta. apply rotation_near_quarter_turn.
  - exact quarter_turn_float_near.
  - pose proof kEps_tolerance. unfold tolerance in *. lra.
Defined.

End RotationTests.

(** The quarter turns on binary32, for a [std::cos] and a [std::sin] of
    a stated accuracy. *)
Section RotationBinary32.
Local Open Scope R_scope.

Variable cmath : Trig binary32.

Lemma binary32_to_R_1 : binary32_to_R (fconst 1) = 1.
Proof.
  replace (fconst 1 : binary32) with (S754_finite false 8388608 (-23))
    by (vm_compute; reflexivity).
  cbv [binary32_to_R powerRZ].
  replace (Pos.to_nat 23) with 23%nat by reflexivity.
  simpl pow. lra.
Qed.

Lemma binary32_to_R_fneg (x : binary32) :
  binary32_to_R (fneg x) = - binary32_to_R x.
Proof.
  destruct x as [[] | [] | | [] m e]; cbn [fneg binary32_Scalar SFopp binary32_to_R negb];
    ring.
Qed.

Lemma finite32_fneg (x : binary32) : finite32 (fneg x) = finite32 x.
Proof. destruct x as [[] | [] | | [] m e]; reflexivity. Qed.

(** A row of a rotation applied to a vector of the tests: one float of
    the matrix times [1.f], the others times [0.f] or zero themselves.
    The sum stands for the same real number as that float. The three
    lemmas differ in where the row has its two floats. *)
Lemma row_first_second (p q : binary32) :
  finite32 p = true -> finite32 q = true ->
  binary32_to_R (p * 1 + q * 0 + 0 * 1 + 0 * 1)%fl = binary32_to_R p.
Proof.
  intros Hp Hq. rewrite (fmul_1_r p Hp).
  float_cases; reflexivity.
Qed.

Lemma row_second_third (p q : binary32) :
  finite32 p = true -> finite32 q = true ->
  binary32_to_R (0 * 1 + p * 1 + q * 0 + 0 * 1)%fl = binary32_to_R p.
Proof.
  intros Hp Hq. rewrite (fmul_1_r p Hp).
  float_cases; reflexivity.
Qed.

Lemma row_first_third (p q : binary32) :
  finite32 p = true -> finite32 q = true ->
  binary32_to_R (p * 1 + 0 * 1 + q * 0 + 0 * 1)%fl = binary32_to_R p.
Proof.
  intros Hp Hq. rewrite (fmul_1_r p Hp).
  float_cases; reflexivity.
Qed.

(** The three rotations of the tests on binary32, applied to the
    vectors of the tests, whatever finite floats [std::cos] and
    [std::sin] return: the products with [1.f] and [0.f] and the sums
    with zeros are exact, so the components stand for 1, for the
    cosine or the sine as returned, or for minus the sine. *)
Lemma rotation_vectors_binary32 (a : binary32) :
  finite32 (fcos a) = true -> finite32 (fsin a) = true ->
  let c := binary32_to_R (fcos a) in
  let s := binary32_to_R (fsin a) in
  Vec4f_to_R (operator_mul_vec (make_rotation_x a)
                (Vec4f.make (fconst 1) (fconst 1) (fconst 0) (fconst 1)))
  = Vec4f.make 1 c s 1 /\
  Vec4f_to_R (operator_mul_vec (make_rotation_y a)
                (Vec4f.make (fconst 1) (fconst 1) (fconst 0) (fconst 1)))
  = Vec4f.make c 1 (- s) 1 /\
  Vec4f_to_R (operator_mul_vec (make_rotation_z a)
                (Vec4f.make (fconst 1) (fconst 0) (fconst 1) (fconst 1)))
  = Vec4f.make c s 1 1.
Proof.
  intros Hc Hs. cbv zeta.
  assert (Hms : finite32 (fneg (fsin a)) = true) by (rewrite finite32_fneg; exact Hs).
  unfold Vec4f_to_R. unroll.
  generalize dependent (fsin a). generalize dependent (fcos a).
  intros c Hc s Hs Hms.
  split; [| split]; apply Vec4f_make_eq;
    first [ rewrite row_first_second by assumption
          | rewrite row_second_third by assumption
          | rewrite row_first_third by assumption
          | idtac ];
    first [ reflexivity
          | apply binary32_to_R_fneg
          | match goal with
            | |- binary32_to_R ?x = 1 =>
                replace x with (fconst 1 : binary32) by (vm_compute; reflexivity);
                exact binary32_to_R_1
            end ].
Qed.

(** The angle of the tests is less than 7.1e-8 away from a quarter
    turn. *)
Lemma quarter_turn_float_close :
  Rabs (binary32_to_R quarter_turn_float - PI / 2) <= 71 / 1000000000.
Proof.
  rewrite quarter_turn_float_value.
  cbv [binary32_to_R powerRZ Pos.to_nat Pos.iter_op Nat.add].
  simpl pow.
  pose proof PI_bounds. apply Rabs_le. split; lra.
Qed.

(** A float within [delta] of the cosine of an angle that is within
    [eta] of a quarter turn is within [eta + delta] of 0; one within
    [delta] of the sine is within [eta + delta] of 1. *)
Lemma near_quarter_turn_within (theta eta delta c s : R) :
  Rabs (theta - PI / 2) <= eta -> eta <= 1 ->
  Rabs (c - cos theta) <= delta -> Rabs (s - sin theta) <= delta ->
  WithinAbs 0 (eta + delta) c /\ WithinAbs 1 (eta + delta) s /\
  WithinAbs (-1) (eta + delta) (- s).
Proof.
  intros Ht He Hc Hs. unfold WithinAbs.
  pose proof (cos_near_quarter_turn theta) as H1.
  pose proof (@sin_near_quarter_turn theta ltac:(lra)) as H2.
  rewrite Rminus_0_r in H1.
  assert (A : Rabs (c - 0) <= eta + delta).
  { replace (c - 0) with ((c - cos theta) + cos theta) by ring.
    eapply Rle_trans; [apply Rabs_triang | lra]. }
  assert (B : Rabs (s - 1) <= eta + delta).
  { replace (s - 1) with ((s - sin theta) + (sin theta - 1)) by ring.
    eapply Rle_trans; [apply Rabs_triang | lra]. }
  split; [exact A | split; [exact B |]].
  replace (- s - -1) with (- (s - 1)) by ring. rewrite Rabs_Ropp. exact B.
Qed.

Lemma WithinAbs_le (target m1 m2 x : R) :
  m1 <= m2 -> WithinAbs target m1 x -> WithinAbs target m2 x.
Proof. unfold WithinAbs. intros H1 H2. lra. Qed.

(** C6. The quarter turns of the tests as the code computes them, on
    binary32: the angle is the float [90.f * pi / 180.f], the nearest
    float to pi/2, and [std::cos] and [std::sin] return finite floats
    within [delta <= 9e-7] of the cosine and the sine of that float.
    Then the rotation about X takes (1,1,0,1) to (1,0,1,1), the one
    about Y takes (1,1,0,1) to (0,1,-1,1) and the one about Z takes
    (1,0,1,1) to (0,1,1,1), each component within 1e-6 of the expected
    one, and within the margin [1e-6f] of the tests. The results are
    not the expected vectors themselves: the cosine of the float angle
    is not zero. *)
Theorem rotation_quarter_turn_binary32 (delta : R) :
  let angle := quarter_turn_float in
  cmath_within cmath delta angle -> delta <= 9 / 10000000 ->
  let rx := Vec4f_to_R (operator_mul_vec (make_rotation_x angle)
              (Vec4f.make (fconst 1) (fconst 1) (fconst 0) (fconst 1))) in
  let ry := Vec4f_to_R (operator_mul_vec (make_rotation_y angle)
              (Vec4f.make (fconst 1) (fconst 1) (fconst 0) (fconst 1))) in
  let rz := Vec4f_to_R (operator_mul_vec (make_rotation_z angle)
              (Vec4f.make (fconst 1) (fconst 0) (fconst 1) (fconst 1))) in
  (Vec4f_WithinAbs (Vec4f.make 1 0 1 1) tolerance rx /\
   Vec4f_WithinAbs (Vec4f.make 0 1 (-1) 1) tolerance ry /\
   Vec4f_WithinAbs (Vec4f.make 0 1 1 1) tolerance rz) /\
  (Vec4f_WithinAbs (Vec4f.make 1 0 1 1) kEps_ rx /\
   Vec4f_WithinAbs (Vec4f.make 0 1 (-1) 1) kEps_ ry /\
   Vec4f_WithinAbs (Vec4f.make 0 1 1 1) kEps_ rz) /\
  angle = (pi_v_float / fconst 2)%fl /\
  cos (binary32_to_R angle) < 0.
Proof.
  intros angle (Hc & Hs & Hcd & Hsd) Hd. cbv zeta.
  destruct (rotation_vectors_binary32 angle Hc Hs) as (Ex & Ey & Ez).
  rewrite Ex, Ey, Ez. clear Ex Ey Ez.
  destruct (@near_quarter_turn_within _ _ _ _ _ quarter_turn_float_close
              ltac:(lra) Hcd Hsd) as (Wc & Ws & Wms).
  pose proof kEps_tolerance as [Hk Ht].
  assert (Hm : 71 / 1000000000 + delta <= kEps_) by (unfold kEps_; lra).
  assert (Wc' := WithinAbs_le Hm Wc).
  assert (Ws' := WithinAbs_le Hm Ws).
  assert (Wms' := WithinAbs_le Hm Wms).
  assert (W1 : WithinAbs 1 kEps_ 1) by (apply WithinAbs_same; lra).
  assert (K : forall t x, WithinAbs t kEps_ x -> WithinAbs t tolerance x).
  { intros t x. apply WithinAbs_le. exact Ht. }
  unfold Vec4f_WithinAbs. cbn [Vec4f.x Vec4f.y Vec4f.z Vec4f.w].
  split; [| split; [| split]].
  - repeat split; apply K; assumption.
  - repeat split; assumption.
  - vm_compute. reflexivity.
  - subst angle. rewrite quarter_turn_float_value.
    cbv [binary32_to_R powerRZ Pos.to_nat Pos.iter_op Nat.add]. simpl pow.
    pose proof PI_bounds as [Plo Phi].
    apply cos_lt_0; lra.
Qed.

End RotationBinary32.

Section RotationBinary32Sample.
Local Open Scope R_scope.

(** With the floats glibc returns at the angle of the tests. *)
Lemma rotation_quarter_turn_binary32_witness :
  let rx := Vec4f_to_R
              (operator_mul_vec (@make_rotation_x binary32 _ cmath_quarter_turn quarter_turn_float)
                 (Vec4f.make (fconst 1) (fconst 1) (fconst 0) (fconst 1))) in
  cmath_within cmath_quarter_turn (9 / 10000000) quarter_turn_float /\
  Vec4f_WithinAbs (Vec4f.make 1 0 1 1) kEps_ rx.
Proof.
  cbv zeta.
  assert (H : cmath_within cmath_quarter_turn (9 / 10000000) quarter_turn_float).
  { unfold cmath_within. cbn [fcos fsin cmath_quarter_turn].
    split; [reflexivity | split; [reflexivity |]].
    pose proof quarter_turn_float_close as Hq.
    pose proof (cos_near_quarter_turn (binary32_to_R quarter_turn_float)) as H1.
    pose proof (@sin_near_quarter_turn (binary32_to_R quarter_turn_float) ltac:(lra)) as H2.
    rewrite Rminus_0_r in H1.
    replace (binary32_to_R (@fconst spec_float binary32_Scalar 1)) with 1
      by (symmetry; exact binary32_to_R_1).
    assert (Hc : binary32_to_R (S754_finite true 12303662 (-48))
                 = - (12303662 / 2 ^ 48)).
    { cbv [binary32_to_R powerRZ].
      replace (Pos.to_nat 48) with 48%nat by reflexivity. unfold Rdiv. ring. }
    rewrite Hc.
    set (t := binary32_to_R quarter_turn_float) in *.
    split.
    - eapply Rle_trans; [apply Rabs_triang |].
      rewrite Rabs_Ropp, Rabs_Ropp, (Rabs_pos_eq (12303662 / 2 ^ 48)) by lra. lra.
    - rewrite Rabs_minus_sym. lra. }
  split; [exact H |].
  destruct (@rotation_quarter_turn_binary32 cmath_quarter_turn (9 / 10000000) H ltac:(lra))
    as (_ & (Hx & _) & _).
  exact Hx.
Defined.

End RotationBinary32Sample.

(** ** Further algebra of the header *)

(** What follows from the loops of mat44.hpp beyond the properties
    above, in exact arithmetic. *)
Section ExactAlgebra.
Local Open Scope R_scope.

(** The two products agree: applying a product of matrices to a vector
    is applying the right factor and then the left one. *)
Theorem operator_mul_vec_assoc (a b : Mat44f R) (p : Vec4f.t R) :
  operator_mul_vec (operator_mul a b) p = operator_mul_vec a (operator_mul_vec b p).
Proof. destruct a, b, p. unroll_R. apply Vec4f_make_eq; ring. Qed.

(** The transpose of a product is the product of the transposes in the
    opposite order. *)
Theorem transpose_operator_mul (a b : Mat44f R) :
  transpose (operator_mul a b) = operator_mul (transpose b) (transpose a).
Proof. destruct a, b. unroll_R. apply Mat44f_init_eq; ring. Qed.

(** Two rotations about the same axis compose to the rotation by the
    sum of the angles. *)
Theorem rotation_composition (a b : R) :
  operator_mul (make_rotation_x a) (make_rotation_x b) = make_rotation_x (a + b) /\
  operator_mul (make_rotation_y a) (make_rotation_y b) = make_rotation_y (a + b) /\
  operator_mul (make_rotation_z a) (make_rotation_z b) = make_rotation_z (a + b).
Proof.
  split; [| split]; unroll_R; rewrite cos_plus, sin_plus;
    apply Mat44f_init_eq; ring.
Qed.

(** The transpose of a rotation is the rotation by the opposite angle,
    and it undoes the rotation. *)
Theorem rotation_inverse (a : R) :
  (transpose (make_rotation_x a) = make_rotation_x (- a) /\
   transpose (make_rotation_y a) = make_rotation_y (- a) /\
   transpose (make_rotation_z a) = make_rotation_z (- a)) /\
  (operator_mul (transpose (make_rotation_x a)) (make_rotation_x a) = kIdentity44f /\
   operator_mul (transpose (make_rotation_y a)) (make_rotation_y a) = kIdentity44f /\
   operator_mul (transpose (make_rotation_z a)) (make_rotation_z a) = kIdentity44f).
Proof.
  pose proof (sin2_cos2 a) as H. unfold Rsqr in H.
  split; (split; [| split]); unroll_R; rewrite ?cos_neg, ?sin_neg;
    apply Mat44f_init_eq; try ring; try (rewrite <- H; ring).
Qed.

(** What the translation and the scaling do to a vector: the offset is
    added [w] times, the factors multiply [x], [y], [z], and [w] is
    kept. The translation by the opposite offset undoes a translation. *)
Theorem affine_action (t : Vec3f.t R) (sx sy sz : R) (p : Vec4f.t R) :
  operator_mul_vec (make_translation t) p =
    Vec4f.make (Vec4f.x p + Vec3f.x t * Vec4f.w p)
               (Vec4f.y p + Vec3f.y t * Vec4f.w p)
               (Vec4f.z p + Vec3f.z t * Vec4f.w p)
               (Vec4f.w p) /\
  operator_mul_vec (make_scaling sx sy sz) p =
    Vec4f.make (sx * Vec4f.x p) (sy * Vec4f.y p) (sz * Vec4f.z p) (Vec4f.w p) /\
  operator_mul (make_translation t)
    (make_translation (Vec3f.make (- Vec3f.x t) (- Vec3f.y t) (- Vec3f.z t)))
  = kIdentity44f.
Proof.
  destruct t, p. split; [| split]; unroll_R;
    first [apply Vec4f_make_eq | apply Mat44f_init_eq]; ring.
Qed.

(** The depth range of the projection: a point on the near plane
    ([z = -near]) has depth -1 after the division by [w], a point on
    the far plane ([z = -far]) has depth 1, and their [w] are [near]
    and [far]. *)
Theorem perspective_depth_range (fov aspect near far x y : R) :
  near <> far -> near <> 0 -> far <> 0 ->
  let m := make_perspective_projection fov aspect near far in
  let pn := operator_mul_vec m (Vec4f.make x y (- near) 1) in
  let pf := operator_mul_vec m (Vec4f.make x y (- far) 1) in
  Vec4f.w pn = near /\ Vec4f.z pn / Vec4f.w pn = -1 /\
  Vec4f.w pf = far /\ Vec4f.z pf / Vec4f.w pf = 1.
Proof.
  intros Hnf Hn Hf. cbv zeta. unroll_R.
  split; [ring|]. split; [field; lra|]. split; [ring|]. field; lra.
Qed.

(** With the planes at 1 and 2. *)
Lemma perspective_depth_range_witness :
  let m := make_perspective_projection (PI / 2) 1 1 2 in
  Vec4f.z (operator_mul_vec m (Vec4f.make 0 0 (- 1) 1))
  / Vec4f.w (operator_mul_vec m (Vec4f.make 0 0 (- 1) 1)) = -1.
Proof.
  cbv zeta. apply (@perspective_depth_range (PI / 2) 1 1 2 0 0); lra.
Defined.

End ExactAlgebra.

(** ** Builds with NDEBUG, and the loops *)

Section Release.
Context {F : Type} {SF : Scalar F}.

Lemma subscript_release_aliases (m : Mat44f F) (aI aJ : N) :
  (aI * 4 + aJ < 16)%N ->
  operator_subscript_read true m aI aJ
    = Returns (v m (N.to_nat aI * 4 + N.to_nat aJ)) /\
  operator_subscript_read true m aI aJ
    = operator_subscript_read true m (aI + aJ / 4) (aJ mod 4).
Proof.
  intros H.
  assert (E : forall i j : N, (i * 4 + j < 16)%N ->
            operator_subscript_read true m i j = Returns (v m (N.to_nat (i * 4 + j)))).
  { intros i j Hij. unfold operator_subscript_read, operator_subscript, assert_, v_ref.
    cbn [orb]. rewrite N.mod_small by (unfold size_t_modulus; simpl; lia).
    destruct (N.ltb_spec (i * 4 + j) 16); [reflexivity | lia]. }
  pose proof (N.div_mod aJ 4 ltac:(lia)) as Hd.
  pose proof (N.mod_lt aJ 4 ltac:(lia)) as Hm.
  split.
  - rewrite (E _ _ H). do 2 f_equal. lia.
  - rewrite (E _ _ H), E by lia. do 2 f_equal. lia.
Qed.

Lemma subscript_release_undefined (aI aJ : N) :
  (16 <= aI * 4 + aJ < 2 ^ 64)%N ->
  operator_subscript true aI aJ = Undefined.
Proof.
  intros H. unfold operator_subscript, assert_, v_ref. cbn [orb].
  rewrite N.mod_small by (unfold size_t_modulus; lia).
  destruct (N.ltb_spec (aI * 4 + aJ) 16); [lia | reflexivity].
Qed.

(** With [NDEBUG] the accessor checks nothing. Whenever the offset
    [aI * 4 + aJ] is inside the array it reads the float there, also for
    a column index of 4 or more, which then names an element of a later
    row; and with an offset past the end of the array (and below the
    wrap-around of [std::size_t]) the behaviour is undefined. *)
Theorem subscript_release (m : Mat44f F) (aI aJ : N) :
  ((aI * 4 + aJ < 16)%N ->
     operator_subscript_read true m aI aJ
       = Returns (v m (N.to_nat aI * 4 + N.to_nat aJ)) /\
     operator_subscript_read true m aI aJ
       = operator_subscript_read true m (aI + aJ / 4) (aJ mod 4)) /\
  ((16 <= aI * 4 + aJ < 2 ^ 64)%N ->
     operator_subscript true aI aJ = Undefined /\
     operator_subscript_read true m aI aJ = Undefined).
Proof.
  split.
  - apply subscript_release_aliases.
  - intros H. unfold operator_subscript_read.
    rewrite (@subscript_release_undefined aI aJ H). split; reflexivity.
Qed.

(** No access of the loop nests of [operator*] and of [transpose]
    leaves the sixteen floats of an operand or of the result, and what
    they return does not depend on what the uninitialised local [ret]
    held. *)
Theorem loops_stay_in_bounds (ret a b : Mat44f F) :
  operator_mul_checked ret a b = Returns (operator_mul a b) /\
  transpose_checked ret a = Returns (transpose a) /\
  operator_mul_into ret a b = operator_mul a b /\
  transpose_into ret a = transpose a.
Proof.
  destruct ret, a, b. repeat split.
Qed.

End Release.

(** ** More of binary32 *)

Section Binary32Identity.
Local Open Scope float_scope.

(** The identity matrix is neutral on binary32 for matrices of finite
    floats, up to the signs of zeros: a [-0.f] comes out as [+0.f]. *)
Theorem operator_mul_identity_binary32 (a : Mat44f binary32) :
  finite_Mat44f a ->
  same_Mat44f (operator_mul kIdentity44f a) a /\
  same_Mat44f (operator_mul a kIdentity44f) a.
Proof.
  intros Hf.
  assert (H0 := Hf 0%nat ltac:(lia)). assert (H1 := Hf 1%nat ltac:(lia)).
  assert (H2 := Hf 2%nat ltac:(lia)). assert (H3 := Hf 3%nat ltac:(lia)).
  assert (H4 := Hf 4%nat ltac:(lia)). assert (H5 := Hf 5%nat ltac:(lia)).
  assert (H6 := Hf 6%nat ltac:(lia)). assert (H7 := Hf 7%nat ltac:(lia)).
  assert (H8 := Hf 8%nat ltac:(lia)). assert (H9 := Hf 9%nat ltac:(lia)).
  assert (H10 := Hf 10%nat ltac:(lia)). assert (H11 := Hf 11%nat ltac:(lia)).
  assert (H12 := Hf 12%nat ltac:(lia)). assert (H13 := Hf 13%nat ltac:(lia)).
  assert (H14 := Hf 14%nat ltac:(lia)). assert (H15 := Hf 15%nat ltac:(lia)).
  clear Hf.
  destruct a as [a0 a1 a2 a3 a4 a5 a6 a7 a8 a9 a10 a11 a12 a13 a14 a15].
  cbv [v v_0 v_1 v_2 v_3 v_4 v_5 v_6 v_7 v_8 v_9 v_10 v_11 v_12 v_13 v_14 v_15] in *.
  split; intros n Hn; below n Hn; unroll;
    rewrite ?fmul_1_l, ?fmul_1_r by assumption;
    unfold same_float; float_cases;
    first [left; reflexivity | right; split; reflexivity].
Qed.

(** On a scaling with a negative zero. *)
Lemma operator_mul_identity_binary32_witness :
  same_Mat44f
    (operator_mul kIdentity44f (make_scaling (fconst 2) (fneg 0) (fconst 3)))
    (make_scaling (fconst 2) (fneg 0) (fconst 3)).
Proof.
  destruct (@operator_mul_identity_binary32
              (make_scaling (fconst 2) (fneg 0) (fconst 3))) as [H _].
  - intros n Hn. below n Hn; reflexivity.
  - exact H.
Defined.

(** Translations by (1, 2, 3) and (4, 5, 6). *)
Lemma translation_composition_binary32_witness :
  operator_mul
    (make_translation (Vec3f.make (fconst 1) (fconst 2) (fconst 3) : Vec3f.t binary32))
    (make_translation (Vec3f.make (fconst 4) (fconst 5) (fconst 6)))
  = make_translation
      (Vec3f.make (fconst 0 + fconst 4 + fconst 1) (fconst 0 + fconst 5 + fconst 2)
                  (fconst 0 + fconst 6 + fconst 3)).
Proof.
  apply (@translation_composition_binary32
           (Vec3f.make (fconst 1) (fconst 2) (fconst 3))
           (Vec3f.make (fconst 4) (fconst 5) (fconst 6)));
    repeat split.
Defined.

(** Scalings by 2 and by 3. *)
Lemma scaling_composition_binary32_witness :
  operator_mul (make_scaling (fconst 2) (fconst 2) (fconst 2) : Mat44f binary32)
               (make_scaling (fconst 3) (fconst 3) (fconst 3))
  = make_scaling (fconst 0 + fconst 2 * fconst 3) (fconst 0 + fconst 2 * fconst 3)
                 (fconst 0 + fconst 2 * fconst 3).
Proof.
  apply (scaling_composition_binary32
           (fconst 2) (fconst 2) (fconst 2) (fconst 3) (fconst 3) (fconst 3));
    reflexivity.
Defined.

(** With a stand-in for [std::tan]: the statement does not depend on it. *)
Lemma perspective_w_is_minus_z_binary32_witness :
  same_float
    (Vec4f.w (operator_mul_vec
       (@make_perspective_projection binary32 _
          (Build_Trig (fun x => x) (fun x => x) (fun x => x))
          (fconst 1) (fconst 1) (fconst 1) (fconst 2))
       (Vec4f.make (fconst 1) (fconst 2) (fconst 3) (fconst 1))))
    (fneg (fconst 3)).
Proof.
  apply (@perspective_w_is_minus_z_binary32
           (Build_Trig (fun x => x) (fun x => x) (fun x => x))
           (fconst 1) (fconst 1) (fconst 1) (fconst 2)
           (Vec4f.make (fconst 1) (fconst 2) (fconst 3) (fconst 1))).
  repeat split.
Defined.

End Binary32Identity.

(** ** main.cpp: the camera and the view matrix *)

Section CameraExact.
Local Open Scope R_scope.

(** The three axes have length one and [right] is orthogonal to [up],
    but [forward] is not orthogonal to [right]: their dot product is the
    cosine of the pitch, and the horizontal part of [forward] is [right]
    scaled by it. *)
Theorem camera_axes (c : Camera.t R) :
  let f := Camera.forward c in
  let r := Camera.right c in
  let u := Camera.up c in
  dot3 f f = 1 /\ dot3 r r = 1 /\ dot3 u u = 1 /\
  dot3 r u = 0 /\
  dot3 f u = sin (Camera.pitch c) /\
  dot3 f r = cos (Camera.pitch c) /\
  Vec3f.x f = cos (Camera.pitch c) * Vec3f.x r /\
  Vec3f.z f = cos (Camera.pitch c) * Vec3f.z r.
Proof.
  destruct c as [pos yaw pitch]. cbv zeta. unroll_camera.
  pose proof (sin2_cos2 yaw) as Hy. pose proof (sin2_cos2 pitch) as Hp.
  unfold Rsqr in Hy, Hp.
  split.
  { transitivity ((sin yaw * sin yaw + cos yaw * cos yaw) * (cos pitch * cos pitch)
                  + sin pitch * sin pitch); [ring | rewrite Hy; lra]. }
  split; [lra|]. split; [ring|]. split; [ring|]. split; [ring|].
  split.
  { transitivity ((sin yaw * sin yaw + cos yaw * cos yaw) * cos pitch);
      [ring | rewrite Hy; ring]. }
  split; ring.
Qed.

(** The view matrix takes the position of the camera to the origin,
    and it loses a dimension. Its third row is a combination of the
    first two, so the view-space [z] of every point is determined by
    its view-space [x] and [y]; and moving a point along
    (sin yaw, 0, cos yaw) does not change where the matrix takes it. *)
Theorem view_singular (c : Camera.t R) (p : Vec4f.t R) (d : R) :
  let pos := Camera.position c in
  let q := operator_mul_vec (view c) p in
  let sy := sin (Camera.yaw c) in
  let cy := cos (Camera.yaw c) in
  operator_mul_vec (view c) (Vec4f.make (Vec3f.x pos) (Vec3f.y pos) (Vec3f.z pos) 1)
  = Vec4f.make 0 0 0 1 /\
  Vec4f.z q = - (cos (Camera.pitch c) * Vec4f.x q + sin (Camera.pitch c) * Vec4f.y q) /\
  operator_mul_vec (view c)
    (Vec4f.make (Vec4f.x p + d * sy) (Vec4f.y p) (Vec4f.z p + d * cy) (Vec4f.w p))
  = q.
Proof.
  destruct c as [[px py pz] yaw pitch], p as [x y z w]. cbv zeta. unroll_camera.
  split; [apply Vec4f_make_eq; ring |].
  split; [ring | apply Vec4f_make_eq; ring].
Qed.

End CameraExact.

(** ** main.cpp: the input callbacks *)

Section Arrays.
Context {A : Type}.

Lemma array_set_length (a : list A) (n : nat) (x : A) :
  n < length a -> length (array_set a n x) = length a.
Proof.
  intros H. unfold array_set.
  rewrite length_app. cbn [length]. rewrite firstn_length_le, length_skipn by lia. lia.
Qed.

Lemma array_set_same (a : list A) (n : nat) (x d : A) :
  n < length a -> nth n (array_set a n x) d = x.
Proof.
  intros H. unfold array_set.
  rewrite app_nth2; rewrite firstn_length_le by lia; [| lia].
  rewrite Nat.sub_diag. reflexivity.
Qed.

Lemma array_set_other (a : list A) (n k : nat) (x d : A) :
  n < length a -> k <> n -> nth k (array_set a n x) d = nth k a d.
Proof.
  revert n k. induction a as [| h t IH]; intros n k H Hk; [cbn in H; lia |].
  destruct n as [| n].
  - destruct k as [| k]; [lia | reflexivity].
  - destruct k as [| k]; [reflexivity |].
    change (nth k (array_set t n x) d = nth k t d).
    apply IH; [cbn in H; lia | lia].
Qed.

Lemma array_set_twice (a : list A) (n : nat) (x y : A) :
  n < length a -> array_set (array_set a n x) n y = array_set a n y.
Proof.
  intros H. unfold array_set.
  rewrite firstn_app, firstn_firstn, Nat.min_id, firstn_length_le by lia.
  rewrite Nat.sub_diag. cbn [firstn]. rewrite app_nil_r.
  f_equal. f_equal.
  rewrite skipn_app, firstn_length_le by lia.
  rewrite skipn_all2 by (rewrite firstn_length_le; lia).
  replace (S n - n) with 1 by lia. reflexivity.
Qed.

Lemma array_set_nth (a : list A) (n : nat) (d : A) :
  n < length a -> array_set a n (nth n a d) = a.
Proof.
  revert n. induction a as [| h t IH]; intros n H; [cbn in H; lia |].
  destruct n as [| n]; [reflexivity |].
  change (h :: array_set t n (nth n t d) = h :: t).
  f_equal. apply IH. cbn in H. lia.
Qed.

End Arrays.

(** ** Comparison and conversion lemmas *)

Lemma SFcompare_antisym (x y : spec_float) (c : comparison) :
  SFcompare x y = Some c -> SFcompare y x = Some (CompOpp c).
Proof.
  destruct x as [sx | sx | | sx mx ex], y as [sy | sy | | sy my ey];
    cbn [SFcompare]; try discriminate;
    intros H; injection H as <-;
    try (destruct sx; reflexivity); try (destruct sy; reflexivity);
    try (destruct sx, sy; reflexivity).
  destruct sx, sy; try reflexivity;
    rewrite (Z.compare_antisym ex ey);
    destruct (ex ?= ey)%Z; cbn [CompOpp]; try reflexivity;
    rewrite (Pos.compare_cont_antisym mx my Eq); reflexivity.
Qed.

Lemma SFltb_false_SFleb (x y : spec_float) :
  x <> S754_nan -> y <> S754_nan -> SFltb x y = false -> SFleb y x = true.
Proof.
  intros Hx Hy. unfold SFltb, SFleb.
  destruct (SFcompare x y) as [c |] eqn:E.
  - rewrite (SFcompare_antisym _ _ E). destruct c; try reflexivity; discriminate.
  - destruct x, y; try congruence; discriminate E.
Qed.

Lemma SFleb_SFltb_false (x y : spec_float) :
  SFleb x y = true -> SFltb y x = false.
Proof.
  unfold SFltb, SFleb.
  destruct (SFcompare x y) as [c |] eqn:E; [| discriminate].
  rewrite (SFcompare_antisym _ _ E). destruct c; try reflexivity; discriminate.
Qed.

Lemma digits2_pos_iter_xO (m k : positive) :
  Zpos (digits2_pos (Pos.iter xO m k)) = (Zpos (digits2_pos m) + Zpos k)%Z.
Proof.
  induction k as [| k IH] using Pos.peano_ind.
  - cbn [Pos.iter digits2_pos]. lia.
  - rewrite Pos.iter_succ. cbn [digits2_pos]. lia.
Qed.

(** A finite [float] converts to a finite [double] of the same sign. *)
Lemma double_of_float_finite (s : bool) (m : positive) (e : Z) :
  SpecFloat.bounded 24 128 m e = true ->
  exists m' e', binary_round 53 1024 s m e = S754_finite s m' e'.
Proof.
  intros Hb. unfold SpecFloat.bounded, canonical_mantissa in Hb.
  apply andb_prop in Hb as [Hc He].
  apply Z.eqb_eq in Hc. apply Z.leb_le in He.
  unfold fexp, emin in Hc.
  unfold binary_round.
  set (d := Zpos (digits2_pos m)) in *.
  assert (Hf : (fexp 53 1024 (d + e) < e)%Z) by (unfold fexp, emin; lia).
  assert (Hf' : (fexp 53 1024 (d + e) <= 1024 - 53)%Z) by (unfold fexp, emin; lia).
  unfold shl_align.
  destruct (fexp 53 1024 (d + e) - e)%Z as [| k | k] eqn:Ek; try lia.
  exists (Pos.iter xO m k), (fexp 53 1024 (d + e)).
  unfold binary_round_aux, shr_fexp.
  cbn [Zdigits2]. rewrite digits2_pos_iter_xO. fold d.
  replace (d + Zpos k + fexp 53 1024 (d + e))%Z with (d + e)%Z by lia.
  rewrite Z.sub_diag.
  cbn [shr shr_record_of_loc shr_m loc_of_shr_record round_nearest_even Zdigits2].
  rewrite digits2_pos_iter_xO. fold d.
  replace (d + Zpos k + fexp 53 1024 (d + e))%Z with (d + e)%Z by lia.
  rewrite Z.sub_diag. cbn [shr shr_record_of_loc shr_m].
  apply Z.leb_le in Hf'. rewrite Hf'. reflexivity.
Qed.

Lemma SFsub_diag (prec emax : Z) (x : spec_float) :
  (match x with S754_zero _ | S754_finite _ _ _ => true | _ => false end) = true ->
  SFsub prec emax x x = S754_zero false.
Proof.
  destruct x as [[] | | | s m e]; try discriminate; intros _; try reflexivity.
  cbn [SFsub]. rewrite Z.sub_diag. reflexivity.
Qed.

(** ** The key callback *)

Section Callbacks.
Local Open Scope Z_scope.

Lemma keys_set_in_range (ks : list bool) (aKey : Z) (b : bool) :
  0 <= aKey < 512 -> keys_set ks aKey b = Returns (array_set ks (Z.to_nat aKey) b).
Proof.
  intros H. unfold keys_set.
  destruct (Z.leb_spec 0 aKey); [| lia]. destruct (Z.ltb_spec aKey 512); [| lia].
  reflexivity.
Qed.

Lemma keys_set_returns (ks ks' : list bool) (aKey : Z) (b : bool) :
  keys_set ks aKey b = Returns ks' ->
  0 <= aKey < 512 /\ ks' = array_set ks (Z.to_nat aKey) b.
Proof.
  unfold keys_set.
  destruct (Z.leb_spec 0 aKey); destruct (Z.ltb_spec aKey 512);
    cbn [andb]; try discriminate.
  intros [= <-]. split; [lia | reflexivity].
Qed.

(** No call of the key callback marks Escape as held. A call that
    returns keeps the 512 flags 512, leaves the camera alone, and makes
    no call on the window unless it is the press of Escape, which asks
    for the window to close and changes nothing; and if the flag of
    Escape was clear before the call it is clear after it. *)
Theorem key_callback_escape (s s' : AppState) (aKey aAction : Z) (calls : list glfw_call) :
  length (keys (input s)) = 512%nat ->
  glfw_callback_key_ (Some s) aKey aAction = Returns (Some s', calls) ->
  length (keys (input s')) = 512%nat /\
  camera s' = camera s /\
  (calls = [] \/
   (aKey = GLFW_KEY_ESCAPE /\ aAction = GLFW_PRESS /\ s' = s /\
    calls = [glfwSetWindowShouldClose GLFW_TRUE])) /\
  (nth 256 (keys (input s)) false = false -> nth 256 (keys (input s')) false = false).
Proof.
  intros Hlen. unfold glfw_callback_key_.
  destruct (Z.eqb_spec GLFW_KEY_ESCAPE aKey) as [Hk | Hk];
    destruct (Z.eqb_spec GLFW_PRESS aAction) as [Ha | Ha]; cbn [andb].
  - intros [= <- <-]. split; [exact Hlen |]. split; [reflexivity |].
    split; [| auto]. right. repeat split; auto.
  - destruct (Z.eqb_spec aAction GLFW_PRESS) as [Hp | Hp]; [congruence |].
    destruct (Z.eqb_spec aAction GLFW_RELEASE) as [Hr | Hr].
    + destruct (keys_set (keys (input s)) aKey false) as [ks | |] eqn:E;
        cbn [outcome_map]; try discriminate.
      intros [= <- <-]. apply keys_set_returns in E as [Hrange ->].
      cbn [with_keys input keys camera].
      rewrite array_set_length by lia.
      repeat split; auto.
      intros _. subst aKey. apply array_set_same. unfold GLFW_KEY_ESCAPE. lia.
    + intros [= <- <-]. repeat split; auto.
  - destruct (Z.eqb_spec aAction GLFW_PRESS) as [Hp | Hp]; [| congruence].
    destruct (keys_set (keys (input s)) aKey true) as [ks | |] eqn:E;
      cbn [outcome_map]; try discriminate.
    intros [= <- <-]. apply keys_set_returns in E as [Hrange ->].
    cbn [with_keys input keys camera].
    rewrite array_set_length by lia.
    repeat split; auto.
    intros H. rewrite array_set_other; [exact H | lia |].
    unfold GLFW_KEY_ESCAPE in Hk. lia.
  - destruct (Z.eqb_spec aAction GLFW_PRESS) as [Hp | Hp]; [congruence |].
    destruct (Z.eqb_spec aAction GLFW_RELEASE) as [Hr | Hr].
    + destruct (keys_set (keys (input s)) aKey false) as [ks | |] eqn:E;
        cbn [outcome_map]; try discriminate.
      intros [= <- <-]. apply keys_set_returns in E as [Hrange ->].
      cbn [with_keys input keys camera].
      rewrite array_set_length by lia.
      repeat split; auto.
      intros H. rewrite array_set_other; [exact H | lia |].
      unfold GLFW_KEY_ESCAPE in Hk. lia.
    + intros [= <- <-]. repeat split; auto.
Qed.

(** A press or a release with a key code outside the 512 flags writes
    outside the array: undefined behaviour. ([GLFW_KEY_UNKNOWN], which
    GLFW reports for keys it has no code for, is -1.) *)
Theorem key_callback_out_of_range (s : AppState) (aKey aAction : Z) :
  aKey < 0 \/ 512 <= aKey ->
  aAction = GLFW_PRESS \/ aAction = GLFW_RELEASE ->
  glfw_callback_key_ (Some s) aKey aAction = Undefined.
Proof.
  intros Hk Ha. unfold glfw_callback_key_.
  assert (Hesc : (GLFW_KEY_ESCAPE =? aKey) = false)
    by (apply Z.eqb_neq; unfold GLFW_KEY_ESCAPE; lia).
  rewrite Hesc. cbn [andb].
  assert (Hset : forall b, keys_set (keys (input s)) aKey b = Undefined).
  { intros b. unfold keys_set.
    destruct (Z.leb_spec 0 aKey); destruct (Z.ltb_spec aKey 512);
      cbn [andb]; try reflexivity; lia. }
  destruct Ha as [-> | ->]; cbn; rewrite Hset; reflexivity.
Qed.

(** Inside the array: the press of a key other than Escape sets its
    flag and no other, and the release that follows gives back the
    state before the press if the key was not held then. *)
Theorem key_callback_press_release (s : AppState) (aKey : Z) :
  length (keys (input s)) = 512%nat ->
  0 <= aKey < 512 -> aKey <> GLFW_KEY_ESCAPE ->
  exists s1,
    glfw_callback_key_ (Some s) aKey GLFW_PRESS = Returns (Some s1, []) /\
    nth (Z.to_nat aKey) (keys (input s1)) false = true /\
    (forall k, k <> Z.to_nat aKey ->
       nth k (keys (input s1)) false = nth k (keys (input s)) false) /\
    (nth (Z.to_nat aKey) (keys (input s)) false = false ->
     glfw_callback_key_ (Some s1) aKey GLFW_RELEASE = Returns (Some s, [])).
Proof.
  intros Hlen Hrange Hesc.
  assert (E : (GLFW_KEY_ESCAPE =? aKey) = false) by (apply Z.eqb_neq; congruence).
  exists (with_keys s (array_set (keys (input s)) (Z.to_nat aKey) true)).
  unfold glfw_callback_key_. rewrite E. cbn [andb].
  change (GLFW_PRESS =? GLFW_PRESS) with true.
  change (GLFW_RELEASE =? GLFW_PRESS) with false.
  change (GLFW_RELEASE =? GLFW_RELEASE) with true.
  cbv iota. rewrite !keys_set_in_range by assumption. cbn [outcome_map].
  split; [reflexivity |].
  cbn [with_keys input keys].
  split; [apply array_set_same; lia |].
  split; [intros k Hk; apply array_set_other; [lia | exact Hk] |].
  intros Hup. rewrite array_set_twice by lia.
  rewrite <- Hup at 1. rewrite array_set_nth by lia.
  destruct s as [c [ks ma lx ly fm] ms bs sm se]. reflexivity.
Qed.

End Callbacks.

Lemma key_callback_escape_witness :
  nth 256 (keys (input (with_keys AppState_default
                          (array_set (repeat false 512) 87 true)))) false = false.
Proof.
  refine (proj2 (proj2 (proj2
    (@key_callback_escape AppState_default _ 87 GLFW_PRESS [] _ _))) _);
    reflexivity.
Defined.

Lemma key_callback_out_of_range_witness :
  glfw_callback_key_ (Some AppState_default) (-1) GLFW_PRESS = Undefined.
Proof.
  apply (@key_callback_out_of_range AppState_default (-1) GLFW_PRESS).
  - left. reflexivity.
  - left. reflexivity.
Defined.

Lemma key_callback_press_release_witness :
  exists s1,
    glfw_callback_key_ (Some AppState_default) 87 GLFW_PRESS = Returns (Some s1, []) /\
    glfw_callback_key_ (Some s1) 87 GLFW_RELEASE = Returns (Some AppState_default, []).
Proof.
  destruct (@key_callback_press_release AppState_default 87) as (s1 & H1 & _ & _ & H2).
  - reflexivity.
  - split; [lia | reflexivity].
  - discriminate.
  - exists s1. split; [exact H1 | apply H2; reflexivity].
Defined.

(** ** The cursor callback *)

Lemma maxPitch_value : maxPitch = S754_finite false 12337934 (-23).
Proof. vm_compute. reflexivity. Qed.

(** While the mouse look is active, every cursor event leaves the pitch
    a NaN or between [-maxPitch] and [maxPitch], whatever the event and
    the state before it. *)
Theorem cursor_callback_clamps_pitch (s : AppState) (aX aY : binary64) :
  mouseActive (input s) = true ->
  exists s',
    glfw_callback_cursor_pos_ (Some s) aX aY = Some s' /\
    (Camera.pitch (camera s') = S754_nan \/
     (fle32 (SFopp maxPitch) (Camera.pitch (camera s')) = true /\
      fle32 (Camera.pitch (camera s')) maxPitch = true)).
Proof.
  intros Hact. unfold glfw_callback_cursor_pos_. rewrite Hact. cbn [negb].
  eexists. split; [reflexivity |].
  cbn [camera Camera.pitch]. cbv zeta.
  match goal with
  | |- context [SFltb maxPitch ?q] => generalize q
  end.
  intros q. unfold fle32. rewrite maxPitch_value.
  destruct (SFltb (S754_finite false 12337934 (-23)) q) eqn:E1.
  - right. split; reflexivity.
  - destruct (SFltb q (SFopp (S754_finite false 12337934 (-23)))) eqn:E2.
    + right. split; reflexivity.
    + destruct q as [sq | sq | | sq mq eq] eqn:Eq_; [| | left; reflexivity |];
        right; (split; apply SFltb_false_SFleb; try discriminate; assumption).
Qed.

Lemma cursor_callback_clamps_pitch_witness :
  exists s',
    glfw_callback_cursor_pos_
      (Some (with_input AppState_default
               (Build_InputState (repeat false 512) true
                  (S754_zero false) (S754_zero false) false)))
      (S754_infinity false) (S754_infinity true) = Some s' /\
    (Camera.pitch (camera s') = S754_nan \/
     (fle32 (SFopp maxPitch) (Camera.pitch (camera s')) = true /\
      fle32 (Camera.pitch (camera s')) maxPitch = true)).
Proof.
  apply (@cursor_callback_clamps_pitch
           (with_input AppState_default
              (Build_InputState (repeat false 512) true
                 (S754_zero false) (S754_zero false) false))
           (S754_infinity false) (S754_infinity true)).
  reflexivity.
Defined.

(** The right button switches the mouse look on, and the first cursor
    event after that does not turn the camera, wherever the cursor is:
    the yaw and the pitch stay the same floats up to the sign of a zero,
    and the event only records the cursor position. This holds for a
    finite cursor position, a finite sensitivity, a finite yaw and a
    pitch inside the clamp. *)
Theorem first_cursor_event_no_jump (s : AppState) (aX aY : binary64) :
  mouseActive (input s) = false ->
  finite64 aX = true -> finite64 aY = true ->
  finite32 (mouseSensitivity s) = true ->
  finite32 (Camera.yaw (camera s)) = true ->
  fle32 (SFopp maxPitch) (Camera.pitch (camera s)) = true ->
  fle32 (Camera.pitch (camera s)) maxPitch = true ->
  exists s1 s2,
    glfw_callback_mouse_button_ (Some s) GLFW_MOUSE_BUTTON_RIGHT GLFW_PRESS
      = (Some s1, [glfwSetInputMode GLFW_CURSOR GLFW_CURSOR_DISABLED]) /\
    glfw_callback_cursor_pos_ (Some s1) aX aY = Some s2 /\
    same_float (Camera.yaw (camera s2)) (Camera.yaw (camera s)) /\
    same_float (Camera.pitch (camera s2)) (Camera.pitch (camera s)) /\
    Camera.position (camera s2) = Camera.position (camera s) /\
    lastMouseX (input s2) = aX /\ lastMouseY (input s2) = aY /\
    firstMouse (input s2) = false /\ mouseActive (input s2) = true.
Proof.
  intros Hact HX HY Hsens Hyaw Hlo Hhi.
  unfold glfw_callback_mouse_button_.
  change ((GLFW_MOUSE_BUTTON_RIGHT =? GLFW_MOUSE_BUTTON_RIGHT)%Z
          && (GLFW_PRESS =? GLFW_PRESS)%Z) with true.
  cbv iota zeta. cbn [mouseActive keys lastMouseX lastMouseY firstMouse].
  rewrite Hact. cbn [negb].
  eexists. eexists. split; [reflexivity |].
  unfold glfw_callback_cursor_pos_.
  cbn [with_input input camera mouseActive keys lastMouseX lastMouseY firstMouse
       moveSpeed baseSpeed speedMultiplier mouseSensitivity negb].
  cbv zeta.
  cbn [with_input input camera mouseActive keys lastMouseX lastMouseY firstMouse
       moveSpeed baseSpeed speedMultiplier mouseSensitivity negb].
  split; [reflexivity |].
  cbn [camera input Camera.yaw Camera.pitch Camera.position
       lastMouseX lastMouseY firstMouse mouseActive].
  assert (EX : SFsub 53 1024 aX aX = S754_zero false)
    by (apply SFsub_diag; destruct aX; try discriminate HX; reflexivity).
  assert (EY : SFsub 53 1024 aY aY = S754_zero false)
    by (apply SFsub_diag; destruct aY; try discriminate HY; reflexivity).
  rewrite EX, EY.
  assert (Ez : exists sz, float_of_double
                 (SFmul 53 1024 (S754_zero false) (double_of_float (mouseSensitivity s)))
               = S754_zero sz).
  { destruct (mouseSensitivity s) as [sm | | | sm mm em]; try discriminate Hsens.
    - exists sm. reflexivity.
    - destruct (double_of_float_finite sm mm em Hsens) as (m' & e' & E).
      cbn [double_of_float]. rewrite E. exists sm. reflexivity. }
  destruct Ez as [sz Ez]. rewrite Ez.
  destruct s as [[pos yaw pitch] i ms bs sm se].
  cbn [camera Camera.yaw Camera.pitch Camera.position] in *.
  split.
  { destruct yaw as [[] | | | sy my ey]; try discriminate Hyaw; destruct sz;
      first [left; reflexivity | right; split; reflexivity]. }
  split; [| repeat split].
  unfold fle32 in Hlo, Hhi.
  assert (Hp : forall p : binary32,
             same_float p pitch ->
             same_float
               (if SFltb (if SFltb maxPitch p then maxPitch else p) (SFopp maxPitch)
                then SFopp maxPitch
                else if SFltb maxPitch p then maxPitch else p) pitch).
  { intros p [-> | [Hz1 Hz2]].
    - rewrite (SFleb_SFltb_false _ _ Hhi), (SFleb_SFltb_false _ _ Hlo). left. reflexivity.
    - destruct p as [sp | | |]; try discriminate Hz1.
      rewrite maxPitch_value. cbn. right. split; [reflexivity | exact Hz2]. }
  apply Hp. rewrite maxPitch_value in Hlo, Hhi.
  destruct pitch as [[] | [] | | sp mp ep];
    try discriminate Hlo; try discriminate Hhi; destruct sz;
    first [left; reflexivity | right; split; reflexivity].
Qed.

Lemma first_cursor_event_no_jump_witness :
  exists s1 s2,
    glfw_callback_mouse_button_ (Some AppState_default) GLFW_MOUSE_BUTTON_RIGHT GLFW_PRESS
      = (Some s1, [glfwSetInputMode GLFW_CURSOR GLFW_CURSOR_DISABLED]) /\
    glfw_callback_cursor_pos_ (Some s1) (binary_normalize 53 1024 640 0 false)
      (binary_normalize 53 1024 360 0 false) = Some s2 /\
    same_float (Camera.yaw (camera s2)) (Camera.yaw (camera AppState_default)) /\
    same_float (Camera.pitch (camera s2)) (Camera.pitch (camera AppState_default)).
Proof.
  destruct (@first_cursor_event_no_jump AppState_default
              (binary_normalize 53 1024 640 0 false)
              (binary_normalize 53 1024 360 0 false))
    as (s1 & s2 & H1 & H2 & H3 & H4 & _); try reflexivity.
  exists s1, s2. repeat split; assumption.
Defined.

(** ** main.cpp: the terrain mesh *)

Section Loops.
Context {A S : Type}.

Lemma foreach_checked_stuck (l : list A) (body : A -> S -> outcome S) (o : outcome S) :
  (forall s, o <> Returns s) ->
  fold_left (fun o a => outcome_bind o (body a)) l o = o.
Proof.
  revert o. induction l as [| a l IH]; intros o Ho; [reflexivity |].
  cbn [fold_left]. destruct o as [s | |]; [exfalso; exact (Ho s eq_refl) | |];
    cbn [outcome_bind]; apply IH; discriminate.
Qed.

Lemma foreach_checked_cons (a : A) (l : list A) (body : A -> S -> outcome S) (s : S) :
  foreach_checked (a :: l) body s = outcome_bind (body a s) (foreach_checked l body).
Proof.
  unfold foreach_checked. cbn [fold_left outcome_bind].
  destruct (body a s) as [s' | |]; cbn [outcome_bind];
    [reflexivity | |]; apply foreach_checked_stuck; discriminate.
Qed.

(** A loop whose body keeps an invariant, and returns wherever the
    invariant holds, returns with the invariant. *)
Lemma foreach_checked_inv (P : list A -> S -> Prop) (body : A -> S -> outcome S) :
  forall (l done : list A) (s : S),
  P done s ->
  (forall done a s s', P done s -> body a s = Returns s' -> P (done ++ [a]) s') ->
  forall s', foreach_checked l body s = Returns s' -> P (done ++ l) s'.
Proof.
  induction l as [| a l IH]; intros done s HP Hstep s' H.
  - unfold foreach_checked in H. cbn in H. injection H as <-.
    rewrite app_nil_r. exact HP.
  - rewrite foreach_checked_cons in H.
    destruct (body a s) as [s1 | |] eqn:E; cbn [outcome_bind] in H; try discriminate.
    replace (done ++ a :: l) with ((done ++ [a]) ++ l) by (rewrite <- app_assoc; reflexivity).
    apply (IH (done ++ [a]) s1); eauto.
Qed.

Lemma for_from_checked_inv (P : nat -> S -> Prop) (body : nat -> S -> outcome S) :
  forall (count start : nat) (s : S),
  P start s ->
  (forall i s, start <= i < start + count -> P i s ->
     exists s', body i s = Returns s' /\ P (Datatypes.S i) s') ->
  exists s',
    for_from start count (fun i o => outcome_bind o (body i)) (Returns s) = Returns s' /\
    P (start + count) s'.
Proof.
  induction count as [| count IH]; intros start s HP Hstep.
  - exists s. rewrite Nat.add_0_r. split; [reflexivity | exact HP].
  - cbn [for_from outcome_bind].
    destruct (Hstep start s ltac:(lia) HP) as (s1 & E & HP1). rewrite E.
    destruct (IH (Datatypes.S start) s1 HP1) as (s' & E' & HP').
    + intros i s2 Hi. apply Hstep. lia.
    + exists s'. split; [exact E' |].
      replace (start + Datatypes.S count) with (Datatypes.S start + count) by lia.
      exact HP'.
Qed.

End Loops.

Section TerrainLayout.
Context {F : Type} {SF : Scalar F}.

Lemma push_index_returns (attributes : Attributes F) (index : Index.t)
    (vertices vertices' : list F) (indices indices' : list Z) :
  push_index attributes (negb (Nat.eqb (length (texcoords attributes)) 0)) index
    (vertices, indices) = Returns (vertices', indices') ->
  indices' = indices ++ [to_unsigned (Z.of_nat (length indices))] /\
  exists chunk, vertices' = vertices ++ chunk /\ vertex_of attributes index chunk.
Proof.
  unfold push_index. intros H. unfold vertex_of.
  returns_cases; subst; (split; [reflexivity |]);
    repeat rewrite <- app_assoc; cbn [app];
    (eexists; split; [reflexivity |]);
    do 8 eexists; (split; [reflexivity |]);
    rewrite ?C, ?C0; cbn [andb negb]; repeat split; eauto.
Qed.

Lemma chunk_of_concat (chunks : list (list F)) (k : nat) (c : list F) :
  Forall (fun c => length c = 8) chunks ->
  nth_error chunks k = Some c ->
  firstn 8 (skipn (8 * k) (concat chunks)) = c.
Proof.
  revert chunks. induction k as [| k IH]; intros chunks Hall Hk.
  - destruct chunks as [| c0 rest]; [discriminate |].
    injection Hk as ->. inversion Hall as [| ? ? Hc _]; subst.
    rewrite Nat.mul_0_r. cbn [skipn concat].
    rewrite firstn_app, Hc, Nat.sub_diag, firstn_O, app_nil_r.
    apply firstn_all2. lia.
  - destruct chunks as [| c0 rest]; [discriminate |].
    inversion Hall as [| ? ? Hc Hrest]; subst. cbn [nth_error] in Hk.
    cbn [concat]. rewrite skipn_app, Hc.
    replace (8 * Datatypes.S k - 8) with (8 * k) by lia.
    rewrite skipn_all2 by lia. cbn [app].
    apply IH; assumption.
Qed.

Lemma vertex_of_length (attributes : Attributes F) (index : Index.t) (chunk : list F) :
  vertex_of attributes index chunk -> length chunk = 8.
Proof. intros (? & ? & ? & ? & ? & ? & ? & ? & -> & _). reflexivity. Qed.

Lemma length_concat_chunks (chunks : list (list F)) :
  Forall (fun c => length c = 8) chunks -> length (concat chunks) = 8 * length chunks.
Proof.
  induction 1 as [| c rest Hc _ IH]; [reflexivity |].
  cbn [concat length]. rewrite length_app, Hc, IH. lia.
Qed.

(** The invariant of the two loops: one chunk of eight floats for every
    index passed, and the indices counted from zero. *)
Lemma extract_vertex_data_chunks (attributes : Attributes F) (shapes : list (list Index.t))
    (vertices : list F) (indices : list Z) :
  extract_vertex_data attributes shapes = Returns (vertices, indices) ->
  indices = map (fun k => to_unsigned (Z.of_nat k)) (seq 0 (length (concat shapes))) /\
  exists chunks, vertices = concat chunks /\
                 Forall2 (vertex_of attributes) (concat shapes) chunks.
Proof.
  unfold extract_vertex_data. cbv zeta.
  set (h := negb (Nat.eqb (length (texcoords attributes)) 0)).
  set (Inv := fun (done : list Index.t) (st : list F * list Z) =>
    snd st = map (fun k => to_unsigned (Z.of_nat k)) (seq 0 (length done)) /\
    exists chunks, fst st = concat chunks /\
                   Forall2 (vertex_of attributes) done chunks).
  intros H.
  change (Inv (concat shapes) (vertices, indices)).
  change (concat shapes) with (concat ([] ++ shapes)).
  refine (@foreach_checked_inv _ _ (fun done st => Inv (concat done) st) _
            shapes [] _ _ _ _ H).
  - split; [reflexivity |]. exists []. split; [reflexivity | constructor].
  - intros done shape st st' HP Hin.
    rewrite concat_app. cbn [concat]. rewrite app_nil_r.
    refine (@foreach_checked_inv _ _ Inv _ shape (concat done) _ HP _ _ Hin).
    clear. intros done index [vs is_] [vs' is_'] [Hi (chunks & Hv & Hc)] Hstep.
    cbn [fst snd] in *.
    apply push_index_returns in Hstep as (-> & chunk & -> & Hchunk).
    split.
    + rewrite length_app. cbn [length]. rewrite Nat.add_1_r, seq_S, map_app.
      cbn [map Nat.add]. rewrite Hi, length_map, length_seq. reflexivity.
    + exists (chunks ++ [chunk]). split.
      * rewrite concat_app. cbn [concat]. rewrite app_nil_r, Hv. reflexivity.
      * apply Forall2_app; [exact Hc | constructor; [exact Hchunk | constructor]].
Qed.

End TerrainLayout.

Section TerrainBounds.
Context {F : Type} {SF : Scalar F} {OF : Ordered F} {NF : Numbers F}.

(** The loop over the vertices returns, with any invariant of its body,
    when the floats come in eights: it reads no float past the end. *)
Lemma model_bounds_inv (P : nat -> Bounds F -> Prop) (vertices : list F) (n : nat) :
  length vertices = 8 * n ->
  P 0 (Build_Bounds numeric_limits_max numeric_limits_lowest
                    numeric_limits_max numeric_limits_lowest
                    numeric_limits_max numeric_limits_lowest) ->
  (forall k b x y z, k < n -> P k b ->
     nth_error vertices (8 * k) = Some x ->
     nth_error vertices (8 * k + 1) = Some y ->
     nth_error vertices (8 * k + 2) = Some z ->
     P (S k) (Build_Bounds
                (std_min (minX b) x) (std_max (maxX b) x)
                (std_min (minY b) y) (std_max (maxY b) y)
                (std_min (minZ b) z) (std_max (maxZ b) z))) ->
  exists b, model_bounds vertices = Returns b /\ P n b.
Proof.
  intros Hlen H0 Hstep.
  unfold model_bounds, for_step_checked, for_lt_checked, for_lt.
  replace ((length vertices + 8 - 1) / 8) with n
    by (rewrite Hlen; apply (Nat.div_unique _ 8 n 7); lia).
  refine (@for_from_checked_inv _ P _ n 0 _ H0 _).
  intros k b Hk HP.
  assert (Hx : exists x, nth_error vertices (8 * k) = Some x).
  { destruct (nth_error vertices (8 * k)) eqn:E; [eauto |].
    apply nth_error_None in E. lia. }
  assert (Hy : exists y, nth_error vertices (8 * k + 1) = Some y).
  { destruct (nth_error vertices (8 * k + 1)) eqn:E; [eauto |].
    apply nth_error_None in E. lia. }
  assert (Hz : exists z, nth_error vertices (8 * k + 2) = Some z).
  { destruct (nth_error vertices (8 * k + 2)) eqn:E; [eauto |].
    apply nth_error_None in E. lia. }
  destruct Hx as [x Hx], Hy as [y Hy], Hz as [z Hz].
  unfold vector_at. rewrite (Nat.mul_comm k 8), Hx, Hy, Hz. cbn [outcome_bind].
  eexists. split; [reflexivity |].
  apply Hstep; try assumption. lia.
Qed.

(** The terrain mesh as the two loops leave it: one index per index
    record of the file, counted from zero; eight floats per index, the
    k-th eight being the position, normal and texture coordinates of the
    k-th record; and the loop that computes the bounds then reads no
    float past the end of [vertices]. *)
Theorem extract_vertex_data_layout (attributes : Attributes F)
    (shapes : list (list Index.t)) (vertices : list F) (indices : list Z) :
  extract_vertex_data attributes shapes = Returns (vertices, indices) ->
  length indices = length (concat shapes) /\
  length vertices = 8 * length (concat shapes) /\
  (forall k, k < length (concat shapes) ->
     nth_error indices k = Some (to_unsigned (Z.of_nat k))) /\
  (forall k index, nth_error (concat shapes) k = Some index ->
     vertex_of attributes index (firstn 8 (skipn (8 * k) vertices))) /\
  exists b, model_bounds vertices = Returns b.
Proof.
  intros H. apply extract_vertex_data_chunks in H as (-> & chunks & -> & Hc).
  assert (Hall : Forall (fun c => length c = 8) chunks).
  { clear -Hc. induction Hc; constructor; eauto using vertex_of_length. }
  assert (Hlen : length chunks = length (concat shapes))
    by (symmetry; eapply Forall2_length; eassumption).
  assert (Hv : length (concat chunks) = 8 * length (concat shapes))
    by (rewrite length_concat_chunks, Hlen; [reflexivity | assumption]).
  split; [rewrite length_map, length_seq; reflexivity |].
  split; [exact Hv |].
  split.
  { intros k Hk. rewrite nth_error_map, nth_error_seq.
    destruct (Nat.ltb_spec k (length (concat shapes))); [reflexivity | lia]. }
  split.
  { intros k index Hk.
    destruct (nth_error chunks k) as [c |] eqn:E.
    - rewrite (@chunk_of_concat _ chunks k c Hall E).
      clear -Hc Hk E. revert k Hk E.
      induction Hc as [| i c' l l' Hic _ IH]; intros k Hk E.
      + destruct k; discriminate.
      + destruct k as [| k]; cbn [nth_error] in Hk, E.
        * congruence.
        * eapply IH; eassumption.
    - apply nth_error_None in E.
      assert (k < length (concat shapes)) by (apply nth_error_Some; congruence).
      lia. }
  destruct (@model_bounds_inv (fun _ _ => True) (concat chunks) _ Hv I) as (b & Hb & _);
    [trivial | eauto].
Qed.

End TerrainBounds.

(** A triangle without normals and without texture coordinates. *)
Lemma extract_vertex_data_layout_witness :
  exists vertices indices,
    extract_vertex_data
      (Build_Attributes [0; 0; 0; 1; 0; 0; 0; 1; 0]%R [] [])
      [[Index.make 0 (-1) (-1); Index.make 1 (-1) (-1); Index.make 2 (-1) (-1)]]
    = Returns (vertices, indices) /\
    length vertices = 24 /\ nth_error indices 2 = Some 2%Z.
Proof.
  do 2 eexists. split; [reflexivity |].
  destruct (@extract_vertex_data_layout R _ _ _
              (Build_Attributes [0; 0; 0; 1; 0; 0; 0; 1; 0]%R [] [])
              [[Index.make 0 (-1) (-1); Index.make 1 (-1) (-1); Index.make 2 (-1) (-1)]]
              _ _ eq_refl) as (_ & Hv & Hi & _).
  split; [exact Hv | exact (Hi 2 ltac:(cbn; lia))].
Defined.

Section TerrainExact.
Local Open Scope R_scope.

Lemma std_min_le (a b : R) : std_min a b <= a /\ std_min a b <= b.
Proof.
  unfold std_min, flt, R_Ordered. destruct (Rlt_dec b a); lra.
Qed.

Lemma std_max_ge (a b : R) : a <= std_max a b /\ b <= std_max a b.
Proof.
  unfold std_max, flt, R_Ordered. destruct (Rlt_dec a b); lra.
Qed.

Lemma std_max3_ge (a b c : R) :
  a <= std_max3 a b c /\ b <= std_max3 a b c /\ c <= std_max3 a b c.
Proof.
  unfold std_max3, flt, R_Ordered. cbv zeta.
  destruct (Rlt_dec a b); [destruct (Rlt_dec b c) | destruct (Rlt_dec a c)]; lra.
Qed.

(** In exact arithmetic, for a mesh of [n] vertices of eight floats:
    the bounds enclose the position of every vertex, and with at least
    one vertex the camera is placed between the bounds in x, at or
    above the highest point in y and at or beyond the largest z. *)
Theorem model_bounds_enclose (vertices : list R) (n : nat) :
  length vertices = (8 * n)%nat ->
  exists b,
    model_bounds vertices = Returns b /\
    (forall k, (k < n)%nat ->
       minX b <= nth (8 * k) vertices 0 <= maxX b /\
       minY b <= nth (8 * k + 1) vertices 0 <= maxY b /\
       minZ b <= nth (8 * k + 2) vertices 0 <= maxZ b) /\
    ((0 < n)%nat ->
       minX b <= Vec3f.x (camera_position_for b) <= maxX b /\
       maxY b <= Vec3f.y (camera_position_for b) /\
       maxZ b <= Vec3f.z (camera_position_for b)).
Proof.
  intros Hlen.
  destruct (@model_bounds_inv R _ _
              (fun j b => forall k, (k < j)%nat ->
                 minX b <= nth (8 * k) vertices 0 <= maxX b /\
                 minY b <= nth (8 * k + 1) vertices 0 <= maxY b /\
                 minZ b <= nth (8 * k + 2) vertices 0 <= maxZ b)
              vertices n Hlen) as (b & Hb & Hin).
  - intros k Hk. lia.
  - intros j b x y z Hj IH Hx Hy Hz k Hk.
    cbn [minX maxX minY maxY minZ maxZ].
    pose proof (std_min_le (minX b) x). pose proof (std_max_ge (maxX b) x).
    pose proof (std_min_le (minY b) y). pose proof (std_max_ge (maxY b) y).
    pose proof (std_min_le (minZ b) z). pose proof (std_max_ge (maxZ b) z).
    destruct (Nat.eq_dec k j) as [-> | Hne].
    + rewrite (nth_error_nth _ _ 0 Hx), (nth_error_nth _ _ 0 Hy), (nth_error_nth _ _ 0 Hz).
      lra.
    + destruct (IH k ltac:(lia)) as (? & ? & ?). lra.
  - exists b. split; [exact Hb |]. split; [exact Hin |].
    intros Hn. destruct (Hin 0%nat Hn) as (Hx & Hy & Hz).
    unfold camera_position_for. cbv zeta. cbn [Vec3f.x Vec3f.y Vec3f.z].
    pose proof (std_max3_ge (maxX b - minX b) (maxY b - minY b) (maxZ b - minZ b))
      as (H1 & H2 & H3).
    cbv [fdec fconst fadd fsub fmul fdiv R_Scalar] in *.
    lra.
Qed.

(** One vertex at (1, 2, 3). *)
Lemma model_bounds_enclose_witness :
  exists b,
    model_bounds [1; 2; 3; 0; 0; 1; 0; 0] = Returns b /\
    maxY b <= Vec3f.y (camera_position_for b).
Proof.
  destruct (@model_bounds_enclose [1; 2; 3; 0; 0; 1; 0; 0] 1 eq_refl)
    as (b & Hb & _ & Hc).
  exists b. split; [exact Hb |]. apply Hc. lia.
Defined.

End TerrainExact.

(** ** main.cpp: the space vehicle *)

Section Chunks.
Context {A : Type}.

Lemma for_from_append (g : nat -> list A) (body : nat -> list A -> list A) :
  (forall i acc, body i acc = acc ++ g i) ->
  forall count start acc,
  for_from start count body acc = acc ++ flat_map g (seq start count).
Proof.
  intros Hb. induction count as [| count IH]; intros start acc.
  - cbn. rewrite app_nil_r. reflexivity.
  - cbn [for_from seq flat_map]. rewrite IH, Hb, <- app_assoc. reflexivity.
Qed.

Lemma flat_map_chunks_length (g : nat -> list A) (m : nat) (l : list nat) :
  (forall k, length (g k) = m) -> length (flat_map g l) = m * length l.
Proof.
  intros Hg. induction l as [| a l IH]; [cbn; lia |].
  cbn [flat_map length]. rewrite length_app, Hg, IH. lia.
Qed.

Lemma nth_flat_map_chunk (g : nat -> list A) (m : nat) (d : A) :
  (forall k, length (g k) = m) ->
  forall n start i c, i < n -> c < m ->
  nth (m * i + c) (flat_map g (seq start n)) d = nth c (g (start + i)) d.
Proof.
  intros Hg. induction n as [| n IH]; intros start i c Hi Hc; [lia |].
  cbn [seq flat_map]. destruct i as [| i].
  - rewrite Nat.mul_0_r, Nat.add_0_r. cbn [Nat.add].
    apply app_nth1. rewrite Hg. exact Hc.
  - rewrite app_nth2 by (rewrite Hg; lia). rewrite Hg.
    replace (m * S i + c - m) with (m * i + c) by lia.
    rewrite IH by lia. f_equal. f_equal. lia.
Qed.

End Chunks.

Lemma to_unsigned_small (z : Z) : (0 <= z < 2 ^ 32)%Z -> to_unsigned z = z.
Proof. intros H. apply Z.mod_small. exact H. Qed.

Ltac unsigned_small :=
  repeat match goal with
         | |- context [to_unsigned ?z] => rewrite (@to_unsigned_small z) by lia
         end.

Lemma vertex_count (A : Type) (vertices : list A) (n : nat) :
  length vertices = 8 * n -> length vertices / 8 = n.
Proof. intros ->. rewrite Nat.mul_comm. apply Nat.div_mul. discriminate. Qed.

Section BoxMesh.
Context {F : Type} {SF : Scalar F}.

(** [createBox] onto a mesh of [n] vertices, in terms of the same box
    built into an empty mesh. *)
Lemma createBox_shift (vertices : list F) (indices : list Z) (n : nat)
    (center size color : Vec3f.t F) :
  length vertices = 8 * n -> (Z.of_nat n + 24 <= 2 ^ 32)%Z ->
  createBox (vertices, indices) center size color
    = (vertices ++ fst (createBox ([], []) center size color),
       indices ++ map (Z.add (Z.of_nat n)) (snd (createBox ([], []) center size color))) /\
  length (fst (createBox ([], []) center size color)) = 8 * 24 /\
  length (snd (createBox ([], []) center size color)) = 3 * 12 /\
  Forall (fun i => (0 <= i < 24)%Z) (snd (createBox ([], []) center size color)).
Proof.
  intros Hlen Hn.
  unfold createBox, addVertex. cbv zeta.
  rewrite (@vertex_count _ _ _ Hlen).
  change (@length F [] / 8) with 0.
  cbn [fst snd].
  split.
  - repeat rewrite <- app_assoc. cbn [app map].
    change (Z.of_nat 0) with 0%Z.
    apply f_equal2; [reflexivity |]. apply f_equal.
    repeat (apply f_equal2; [unsigned_small; lia |]). reflexivity.
  - split; [reflexivity |]. split; [reflexivity |].
    repeat (constructor; [vm_compute; split; [discriminate | reflexivity] |]).
    constructor.
Qed.

(** [createBox] appends to the mesh: the floats and the indices before
    the call are kept, 24 vertices of eight floats and the 36 indices of
    12 triangles are added, the new indices are those of the same box
    built into an empty mesh, shifted by the number of vertices that
    were there, and each of them names one of the 24 new vertices. *)
Theorem createBox_appends (vertices : list F) (indices : list Z) (n : nat)
    (center size color : Vec3f.t F) :
  length vertices = 8 * n -> (Z.of_nat n + 24 <= 2 ^ 32)%Z ->
  exists V I,
    createBox ([], []) center size color = (V, I) /\
    createBox (vertices, indices) center size color
      = (vertices ++ V, indices ++ map (Z.add (Z.of_nat n)) I) /\
    length V = 8 * 24 /\ length I = 3 * 12 /\
    Forall (fun i => (0 <= i < 24)%Z) I.
Proof.
  intros Hlen Hn.
  destruct (@createBox_shift vertices indices n center size color Hlen Hn)
    as (H & HV & HI & HR).
  exists (fst (createBox ([], []) center size color)),
         (snd (createBox ([], []) center size color)).
  split; [apply surjective_pairing |]. repeat split; assumption.
Qed.

End BoxMesh.

Section BoxFaces.
Local Open Scope R_scope.

Lemma createBox_indices (center size color : Vec3f.t R) :
  snd (createBox ([], []) center size color)
  = [0; 1; 2; 0; 2; 3; 4; 5; 6; 4; 6; 7; 8; 9; 10; 8; 10; 11;
     12; 13; 14; 12; 14; 15; 16; 17; 18; 16; 18; 19; 20; 21; 22; 20; 22; 23]%Z.
Proof. reflexivity. Qed.

(** Every triangle of a box is counter-clockwise seen from outside:
    the cross product of its edges points the way the stored normal
    does, with the area of the face as its length. The twelve
    triangles are those of the front, back, top, bottom, right and left
    faces, in this order. *)
Theorem createBox_faces_outward (center size color : Vec3f.t R) :
  let sx := Vec3f.x size in
  let sy := Vec3f.y size in
  let sz := Vec3f.z size in
  map (triangle_facing (createBox ([], []) center size color)) (seq 0 12)
  = [sx * sy; sx * sy; sx * sy; sx * sy;
     sx * sz; sx * sz; sx * sz; sx * sz;
     sy * sz; sy * sz; sy * sz; sy * sz].
Proof.
  destruct center as [cx cy cz], size as [sx sy sz]. cbv zeta.
  rewrite (surjective_pairing (createBox _ _ _ _)), createBox_indices.
  unfold createBox, addVertex, addVertex_tex_default. cbv zeta. cbn [fst app map seq].
  facing_R.
  repeat (apply f_equal2; [field |]). reflexivity.
Qed.

End BoxFaces.

Section CylinderMesh.
Context {F : Type} {SF : Scalar F} {TF : Trig F} {NF : Numbers F}.

Lemma flat_map_ext_seq {A : Type} (f g : nat -> list A) (start n : nat) :
  (forall i, start <= i < start + n -> f i = g i) ->
  flat_map f (seq start n) = flat_map g (seq start n).
Proof.
  revert start. induction n as [| n IH]; intros start H; [reflexivity |].
  cbn [seq flat_map]. rewrite (H start) by lia. f_equal. apply IH.
  intros i Hi. apply H. lia.
Qed.

Lemma map_flat_map {A B C : Type} (f : B -> C) (g : A -> list B) (l : list A) :
  map f (flat_map g l) = flat_map (fun a => map f (g a)) l.
Proof.
  induction l as [| a l IH]; [reflexivity |].
  cbn [flat_map]. rewrite map_app, IH. reflexivity.
Qed.

Lemma flat_map_map {A B C : Type} (f : B -> list C) (g : A -> B) (l : list A) :
  flat_map f (map g l) = flat_map (fun a => f (g a)) l.
Proof.
  induction l as [| a l IH]; [reflexivity |].
  cbn [map flat_map]. rewrite IH. reflexivity.
Qed.

(** The loop of a cap: three vertices and one triangle per step, the
    triangle on the three vertices just added. *)
Lemma cap_loop (gv : nat -> list F)
    (body : nat -> list F * list Z * Z -> list F * list Z * Z) :
  (forall i v is_ b,
     body i (v, is_, b)
     = (v ++ gv i,
        is_ ++ [to_unsigned b; to_unsigned (b + 1); to_unsigned (b + 2)],
        to_unsigned (b + 3))) ->
  forall count start v is_ r,
  (0 <= r)%Z -> (r + 3 * Z.of_nat count < 2 ^ 32)%Z ->
  for_from start count body (v, is_, r)
  = (v ++ flat_map gv (seq start count),
     is_ ++ flat_map (cap_triangle r) (seq 0 count),
     to_unsigned (r + 3 * Z.of_nat count)).
Proof.
  intros Hb. induction count as [| count IH]; intros start v is_ r Hr0 Hr.
  - cbn [for_from seq flat_map]. rewrite !app_nil_r.
    rewrite to_unsigned_small by lia. f_equal. lia.
  - cbn [for_from]. rewrite Hb.
    rewrite (@to_unsigned_small (r + 3)) by lia.
    rewrite IH by lia.
    cbn [seq flat_map]. rewrite <- !app_assoc.
    f_equal; [f_equal |].
    + f_equal. f_equal.
      * unfold cap_triangle. cbn [app].
        rewrite !to_unsigned_small by lia.
        f_equal; [lia |]. f_equal; [lia |]. f_equal. lia.
      * rewrite <- seq_shift, flat_map_map.
        apply flat_map_ext. intros k. unfold cap_triangle.
        f_equal; [lia |]. f_equal; [lia |]. f_equal. lia.
    + f_equal. lia.
Qed.

(** [createCylinder] in closed form, for [n] segments and a mesh that
    holds [m] vertices. *)
Lemma createCylinder_closed (vertices : list F) (indices : list Z) (m n : nat)
    (center : Vec3f.t F) (radius height : F) (color : Vec3f.t F) :
  length vertices = 8 * m -> (Z.of_nat m + Z.of_nat (8 * n + 2) < 2 ^ 32)%Z ->
  createCylinder (vertices, indices) center radius height (Z.of_nat n) color
  = (vertices ++ cylinder_vertices center radius height n,
     indices ++ map (Z.add (Z.of_nat m)) (cylinder_indices n)).
Proof.
  intros Hlen Hm.
  unfold createCylinder. cbv zeta.
  rewrite (@vertex_count _ _ _ Hlen).
  rewrite (@to_unsigned_small (Z.of_nat m)) by lia.
  replace (Z.to_nat (Z.of_nat n + 1)) with (n + 1) by lia.
  rewrite Nat2Z.id.
  unfold for_lt.
  rewrite (for_from_append (cylinder_ring center radius height (Z.of_nat n)))
    by (intros i acc; unfold addVertex, cylinder_ring, addVertex_tex_default;
        cbn [Vec3f.x Vec3f.y Vec3f.z Vec2f.x Vec2f.y];
        rewrite <- app_assoc; reflexivity).
  rewrite (for_from_append
             (fun i => map (to_unsigned) (map (Z.add (Z.of_nat m)) (cylinder_side i))))
    by (intros i acc; unfold cylinder_side; cbn [map];
        rewrite <- app_assoc; cbn [app];
        repeat (f_equal; try lia)).
  rewrite (@to_unsigned_small (Z.of_nat m + (Z.of_nat n + 1) * 2)) by lia.
  rewrite (cap_loop (cylinder_top_cap center radius height (Z.of_nat n)))
    by first [ lia
             | intros i v is_ b; unfold addVertex, cylinder_top_cap, addVertex_tex_default;
               cbn [Vec3f.x Vec3f.y Vec3f.z Vec2f.x Vec2f.y];
               rewrite <- !app_assoc; reflexivity ].
  rewrite (@to_unsigned_small (Z.of_nat m + (Z.of_nat n + 1) * 2 + 3 * Z.of_nat n)) by lia.
  rewrite (cap_loop (cylinder_bottom_cap center radius height (Z.of_nat n)))
    by first [ lia
             | intros i v is_ b; unfold addVertex, cylinder_bottom_cap, addVertex_tex_default;
               cbn [Vec3f.x Vec3f.y Vec3f.z Vec2f.x Vec2f.y];
               rewrite <- !app_assoc; reflexivity ].
  unfold cylinder_vertices, cylinder_indices.
  rewrite <- !app_assoc. f_equal. f_equal.
  rewrite !map_app, !map_flat_map. f_equal; [| f_equal].
  - apply flat_map_ext_seq. intros i Hi.
    unfold cylinder_side. cbn [map].
    rewrite !to_unsigned_small by lia. reflexivity.
  - apply flat_map_ext. intros k. unfold cap_triangle. cbn [map].
    f_equal; [lia |]. f_equal; [lia |]. f_equal. lia.
  - apply flat_map_ext. intros k. unfold cap_triangle. cbn [map].
    f_equal; [lia |]. f_equal; [lia |]. f_equal. lia.
Qed.

End CylinderMesh.

Section CylinderShape.
Context {F : Type} {SF : Scalar F} {TF : Trig F} {NF : Numbers F}.

Lemma cylinder_vertices_length (center : Vec3f.t F) (radius height : F) (n : nat) :
  length (cylinder_vertices center radius height n) = 8 * (8 * n + 2).
Proof.
  unfold cylinder_vertices. rewrite !length_app.
  rewrite (@flat_map_chunks_length _ _ 16), (@flat_map_chunks_length _ _ 24),
    (@flat_map_chunks_length _ _ 24), !length_seq by reflexivity.
  lia.
Qed.

Lemma cylinder_indices_length (n : nat) : length (cylinder_indices n) = 3 * (4 * n).
Proof.
  unfold cylinder_indices. rewrite !length_app.
  rewrite (@flat_map_chunks_length _ _ 6), (@flat_map_chunks_length _ _ 3),
    (@flat_map_chunks_length _ _ 3), !length_seq by reflexivity.
  lia.
Qed.

Lemma cylinder_indices_range (n : nat) :
  Forall (fun i => (0 <= i < Z.of_nat (8 * n + 2))%Z) (cylinder_indices n).
Proof.
  unfold cylinder_indices. rewrite !Forall_app, !Forall_flat_map, !Forall_forall.
  repeat split; intros i Hi%in_seq;
    unfold cylinder_side, cap_triangle;
    repeat (constructor; [lia |]); constructor.
Qed.

(** [createCylinder] appends to the mesh: what was there is kept; for
    [segments >= 0] it adds [8 * segments + 2] vertices of eight floats
    and the indices of [4 * segments] triangles; the new indices are
    those of the same cylinder built into an empty mesh, shifted by the
    number of vertices that were there, and each of them names one of
    the new vertices. *)
Theorem createCylinder_appends (vertices : list F) (indices : list Z) (m : nat)
    (center : Vec3f.t F) (radius height : F) (segments : Z) (color : Vec3f.t F) :
  length vertices = 8 * m -> (0 <= segments)%Z ->
  (Z.of_nat m + (8 * segments + 2) < 2 ^ 32)%Z ->
  exists V I,
    createCylinder ([], []) center radius height segments color = (V, I) /\
    createCylinder (vertices, indices) center radius height segments color
      = (vertices ++ V, indices ++ map (Z.add (Z.of_nat m)) I) /\
    length V = 8 * Z.to_nat (8 * segments + 2) /\
    length I = 3 * Z.to_nat (4 * segments) /\
    Forall (fun i => (0 <= i < 8 * segments + 2)%Z) I.
Proof.
  intros Hlen Hs Hm.
  rewrite <- (Z2Nat.id segments Hs) in *. set (n := Z.to_nat segments) in *.
  exists (cylinder_vertices center radius height n), (cylinder_indices n).
  split.
  { rewrite (@createCylinder_closed _ _ _ _ [] [] 0 n) by (cbn [length]; lia).
    cbn [app]. f_equal. rewrite <- (map_id (cylinder_indices n)) at 2.
    apply map_ext. intros a. reflexivity. }
  split; [apply createCylinder_closed; [exact Hlen | lia] |].
  split; [rewrite cylinder_vertices_length; f_equal; lia |].
  split; [rewrite cylinder_indices_length; f_equal; lia |].
  eapply Forall_impl; [| apply cylinder_indices_range]. cbv beta. intros a Ha. lia.
Qed.

End CylinderShape.

Section CylinderFaces.
Local Open Scope R_scope.

Variables (center : Vec3f.t R) (radius height : R) (n : nat).

Lemma cylinder_side_index (i c : nat) :
  (i < n)%nat -> (c < 6)%nat ->
  nth (6 * i + c) (cylinder_indices n) 0%Z = nth c (cylinder_side i) 0%Z.
Proof.
  intros Hi Hc. unfold cylinder_indices.
  rewrite app_nth1
    by (rewrite (@flat_map_chunks_length _ _ 6), length_seq by reflexivity; lia).
  rewrite (@nth_flat_map_chunk _ cylinder_side 6) by (reflexivity || lia).
  reflexivity.
Qed.

Lemma cylinder_top_index (i c : nat) :
  (i < n)%nat -> (c < 3)%nat ->
  nth (6 * n + 3 * i + c) (cylinder_indices n) 0%Z
  = nth c (cap_triangle (Z.of_nat (2 * (n + 1))) i) 0%Z.
Proof.
  intros Hi Hc. unfold cylinder_indices.
  rewrite app_nth2
    by (rewrite (@flat_map_chunks_length _ _ 6), length_seq by reflexivity; lia).
  rewrite (@flat_map_chunks_length _ _ 6), length_seq by reflexivity.
  replace (6 * n + 3 * i + c - 6 * n)%nat with (3 * i + c)%nat by lia.
  rewrite app_nth1
    by (rewrite (@flat_map_chunks_length _ _ 3), length_seq by reflexivity; lia).
  rewrite (@nth_flat_map_chunk _ (cap_triangle (Z.of_nat (2 * (n + 1)))) 3)
    by (reflexivity || lia).
  reflexivity.
Qed.

Lemma cylinder_bottom_index (i c : nat) :
  (i < n)%nat -> (c < 3)%nat ->
  nth (9 * n + 3 * i + c) (cylinder_indices n) 0%Z
  = nth c (cap_triangle (Z.of_nat (2 * (n + 1) + 3 * n)) i) 0%Z.
Proof.
  intros Hi Hc. unfold cylinder_indices.
  rewrite app_nth2
    by (rewrite (@flat_map_chunks_length _ _ 6), length_seq by reflexivity; lia).
  rewrite (@flat_map_chunks_length _ _ 6), length_seq by reflexivity.
  rewrite app_nth2
    by (rewrite (@flat_map_chunks_length _ _ 3), length_seq by reflexivity; lia).
  rewrite (@flat_map_chunks_length _ _ 3), length_seq by reflexivity.
  replace (9 * n + 3 * i + c - 6 * n - 3 * n)%nat with (3 * i + c)%nat by lia.
  rewrite (@nth_flat_map_chunk _ (cap_triangle (Z.of_nat (2 * (n + 1) + 3 * n))) 3)
    by (reflexivity || lia).
  reflexivity.
Qed.

Lemma cylinder_ring_float (i c : nat) :
  (i < n + 1)%nat -> (c < 16)%nat ->
  nth (16 * i + c) (cylinder_vertices center radius height n) 0 = nth c (cylinder_ring center radius height (Z.of_nat n) i) 0.
Proof.
  intros Hi Hc. unfold cylinder_vertices.
  rewrite app_nth1
    by (rewrite (@flat_map_chunks_length _ _ 16), length_seq by reflexivity; lia).
  rewrite (@nth_flat_map_chunk _ (cylinder_ring center radius height (Z.of_nat n)) 16)
    by (reflexivity || lia).
  reflexivity.
Qed.

Lemma cylinder_top_float (i c : nat) :
  (i < n)%nat -> (c < 24)%nat ->
  nth (16 * (n + 1) + 24 * i + c) (cylinder_vertices center radius height n) 0
  = nth c (cylinder_top_cap center radius height (Z.of_nat n) i) 0.
Proof.
  intros Hi Hc. unfold cylinder_vertices.
  rewrite app_nth2
    by (rewrite (@flat_map_chunks_length _ _ 16), length_seq by reflexivity; lia).
  rewrite (@flat_map_chunks_length _ _ 16), length_seq by reflexivity.
  replace (16 * (n + 1) + 24 * i + c - 16 * (n + 1))%nat with (24 * i + c)%nat by lia.
  rewrite app_nth1
    by (rewrite (@flat_map_chunks_length _ _ 24), length_seq by reflexivity; lia).
  rewrite (@nth_flat_map_chunk _ (cylinder_top_cap center radius height (Z.of_nat n)) 24)
    by (reflexivity || lia).
  reflexivity.
Qed.

Lemma cylinder_bottom_float (i c : nat) :
  (i < n)%nat -> (c < 24)%nat ->
  nth (16 * (n + 1) + 24 * n + 24 * i + c) (cylinder_vertices center radius height n) 0
  = nth c (cylinder_bottom_cap center radius height (Z.of_nat n) i) 0.
Proof.
  intros Hi Hc. unfold cylinder_vertices.
  rewrite app_nth2
    by (rewrite (@flat_map_chunks_length _ _ 16), length_seq by reflexivity; lia).
  rewrite (@flat_map_chunks_length _ _ 16), length_seq by reflexivity.
  rewrite app_nth2
    by (rewrite (@flat_map_chunks_length _ _ 24), length_seq by reflexivity; lia).
  rewrite (@flat_map_chunks_length _ _ 24), length_seq by reflexivity.
  replace (16 * (n + 1) + 24 * n + 24 * i + c - 16 * (n + 1) - 24 * n)%nat
    with (24 * i + c)%nat by lia.
  rewrite (@nth_flat_map_chunk _ (cylinder_bottom_cap center radius height (Z.of_nat n)) 24)
    by (reflexivity || lia).
  reflexivity.
Qed.

Lemma Vec3f_make_eq (a0 a1 a2 b0 b1 b2 : R) :
  a0 = b0 -> a1 = b1 -> a2 = b2 -> Vec3f.make a0 a1 a2 = Vec3f.make b0 b1 b2.
Proof. intros; subst; reflexivity. Qed.

Lemma cylinder_ring_vertex (i b : nat) :
  (i < n + 1)%nat -> (b < 2)%nat ->
  vertex_position (cylinder_vertices center radius height n) (2 * i + b)
    = vertex_position (cylinder_ring center radius height (Z.of_nat n) i) b /\
  vertex_normal (cylinder_vertices center radius height n) (2 * i + b)
    = vertex_normal (cylinder_ring center radius height (Z.of_nat n) i) b.
Proof.
  intros Hi Hb. unfold vertex_position, vertex_normal. split; apply Vec3f_make_eq.
  - replace (8 * (2 * i + b))%nat with (16 * i + 8 * b)%nat by lia.
    apply cylinder_ring_float; lia.
  - replace (8 * (2 * i + b) + 1)%nat with (16 * i + (8 * b + 1))%nat by lia.
    apply cylinder_ring_float; lia.
  - replace (8 * (2 * i + b) + 2)%nat with (16 * i + (8 * b + 2))%nat by lia.
    apply cylinder_ring_float; lia.
  - replace (8 * (2 * i + b) + 3)%nat with (16 * i + (8 * b + 3))%nat by lia.
    apply cylinder_ring_float; lia.
  - replace (8 * (2 * i + b) + 4)%nat with (16 * i + (8 * b + 4))%nat by lia.
    apply cylinder_ring_float; lia.
  - replace (8 * (2 * i + b) + 5)%nat with (16 * i + (8 * b + 5))%nat by lia.
    apply cylinder_ring_float; lia.
Qed.

Lemma cylinder_top_vertex (i j : nat) :
  (i < n)%nat -> (j < 3)%nat ->
  vertex_position (cylinder_vertices center radius height n) (2 * (n + 1) + 3 * i + j)
    = vertex_position (cylinder_top_cap center radius height (Z.of_nat n) i) j /\
  vertex_normal (cylinder_vertices center radius height n) (2 * (n + 1) + 3 * i + j)
    = vertex_normal (cylinder_top_cap center radius height (Z.of_nat n) i) j.
Proof.
  intros Hi Hj. unfold vertex_position, vertex_normal. split; apply Vec3f_make_eq.
  - replace (8 * (2 * (n + 1) + 3 * i + j))%nat
      with (16 * (n + 1) + 24 * i + 8 * j)%nat by lia.
    apply cylinder_top_float; lia.
  - replace (8 * (2 * (n + 1) + 3 * i + j) + 1)%nat
      with (16 * (n + 1) + 24 * i + (8 * j + 1))%nat by lia.
    apply cylinder_top_float; lia.
  - replace (8 * (2 * (n + 1) + 3 * i + j) + 2)%nat
      with (16 * (n + 1) + 24 * i + (8 * j + 2))%nat by lia.
    apply cylinder_top_float; lia.
  - replace (8 * (2 * (n + 1) + 3 * i + j) + 3)%nat
      with (16 * (n + 1) + 24 * i + (8 * j + 3))%nat by lia.
    apply cylinder_top_float; lia.
  - replace (8 * (2 * (n + 1) + 3 * i + j) + 4)%nat
      with (16 * (n + 1) + 24 * i + (8 * j + 4))%nat by lia.
    apply cylinder_top_float; lia.
  - replace (8 * (2 * (n + 1) + 3 * i + j) + 5)%nat
      with (16 * (n + 1) + 24 * i + (8 * j + 5))%nat by lia.
    apply cylinder_top_float; lia.
Qed.

Lemma cylinder_bottom_vertex (i j : nat) :
  (i < n)%nat -> (j < 3)%nat ->
  vertex_position (cylinder_vertices center radius height n) (2 * (n + 1) + 3 * n + 3 * i + j)
    = vertex_position (cylinder_bottom_cap center radius height (Z.of_nat n) i) j /\
  vertex_normal (cylinder_vertices center radius height n) (2 * (n + 1) + 3 * n + 3 * i + j)
    = vertex_normal (cylinder_bottom_cap center radius height (Z.of_nat n) i) j.
Proof.
  intros Hi Hj. unfold vertex_position, vertex_normal. split; apply Vec3f_make_eq.
  - replace (8 * (2 * (n + 1) + 3 * n + 3 * i + j))%nat
      with (16 * (n + 1) + 24 * n + 24 * i + 8 * j)%nat by lia.
    apply cylinder_bottom_float; lia.
  - replace (8 * (2 * (n + 1) + 3 * n + 3 * i + j) + 1)%nat
      with (16 * (n + 1) + 24 * n + 24 * i + (8 * j + 1))%nat by lia.
    apply cylinder_bottom_float; lia.
  - replace (8 * (2 * (n + 1) + 3 * n + 3 * i + j) + 2)%nat
      with (16 * (n + 1) + 24 * n + 24 * i + (8 * j + 2))%nat by lia.
    apply cylinder_bottom_float; lia.
  - replace (8 * (2 * (n + 1) + 3 * n + 3 * i + j) + 3)%nat
      with (16 * (n + 1) + 24 * n + 24 * i + (8 * j + 3))%nat by lia.
    apply cylinder_bottom_float; lia.
  - replace (8 * (2 * (n + 1) + 3 * n + 3 * i + j) + 4)%nat
      with (16 * (n + 1) + 24 * n + 24 * i + (8 * j + 4))%nat by lia.
    apply cylinder_bottom_float; lia.
  - replace (8 * (2 * (n + 1) + 3 * n + 3 * i + j) + 5)%nat
      with (16 * (n + 1) + 24 * n + 24 * i + (8 * j + 5))%nat by lia.
    apply cylinder_bottom_float; lia.
Qed.

(** Every triangle of a cylinder is clockwise seen from the side its
    stored normals point to. For step [i] of [n]: the two triangles of
    the side face the axis, by the height times the radius times the
    sine of the angle between two steps; the triangle of the top cap
    faces down and that of the bottom cap faces up, by the square of the
    radius times that sine. The sine is positive from three segments
    on, so with a positive height and radius all four numbers are
    negative. *)
Theorem createCylinder_faces_inward (color : Vec3f.t R) (i : nat) :
  (i < n)%nat -> (Z.of_nat (8 * n + 2) < 2 ^ 32)%Z ->
  let mesh := createCylinder ([], []) center radius height (Z.of_nat n) color in
  let turn := sin (circle_angle (Z.of_nat i + 1) (Z.of_nat n)
                   - circle_angle (Z.of_nat i) (Z.of_nat n)) in
  triangle_facing mesh (2 * i) = - (height * radius * turn) /\
  triangle_facing mesh (2 * i + 1) = - (height * radius * turn) /\
  triangle_facing mesh (2 * n + i) = - (radius * radius * turn) /\
  triangle_facing mesh (3 * n + i) = - (radius * radius * turn) /\
  ((3 <= n)%nat -> 0 < turn).
Proof.
  intros Hi Hn32. cbv zeta.
  rewrite (@createCylinder_closed R _ _ _ [] [] 0 n) by (cbn [length]; lia).
  cbn [app]. rewrite (map_ext (Z.add (Z.of_nat 0)) (fun z => z)) by reflexivity.
  rewrite map_id.
  rewrite sin_minus.
  unfold triangle_facing.
  (* the indices of the four triangles *)
  assert (A0 : nth (3 * (2 * i)) (cylinder_indices n) 0%Z = Z.of_nat (2 * i + 0)).
  { replace (3 * (2 * i))%nat with (6 * i + 0)%nat by lia.
    rewrite cylinder_side_index by lia. cbn [nth cylinder_side]. lia. }
  assert (A1 : nth (3 * (2 * i) + 1) (cylinder_indices n) 0%Z = Z.of_nat (2 * i + 1)).
  { replace (3 * (2 * i) + 1)%nat with (6 * i + 1)%nat by lia.
    rewrite cylinder_side_index by lia. cbn [nth cylinder_side]. lia. }
  assert (A2 : nth (3 * (2 * i) + 2) (cylinder_indices n) 0%Z = Z.of_nat (2 * (i + 1) + 0)).
  { replace (3 * (2 * i) + 2)%nat with (6 * i + 2)%nat by lia.
    rewrite cylinder_side_index by lia. cbn [nth cylinder_side]. lia. }
  assert (B0 : nth (3 * (2 * i + 1)) (cylinder_indices n) 0%Z = Z.of_nat (2 * i + 1)).
  { replace (3 * (2 * i + 1))%nat with (6 * i + 3)%nat by lia.
    rewrite cylinder_side_index by lia. cbn [nth cylinder_side]. lia. }
  assert (B1 : nth (3 * (2 * i + 1) + 1) (cylinder_indices n) 0%Z = Z.of_nat (2 * (i + 1) + 1)).
  { replace (3 * (2 * i + 1) + 1)%nat with (6 * i + 4)%nat by lia.
    rewrite cylinder_side_index by lia. cbn [nth cylinder_side]. lia. }
  assert (B2 : nth (3 * (2 * i + 1) + 2) (cylinder_indices n) 0%Z = Z.of_nat (2 * (i + 1) + 0)).
  { replace (3 * (2 * i + 1) + 2)%nat with (6 * i + 5)%nat by lia.
    rewrite cylinder_side_index by lia. cbn [nth cylinder_side]. lia. }
  assert (C0 : nth (3 * (2 * n + i)) (cylinder_indices n) 0%Z = Z.of_nat (2 * (n + 1) + 3 * i + 0)).
  { replace (3 * (2 * n + i))%nat with (6 * n + 3 * i + 0)%nat by lia.
    rewrite cylinder_top_index by lia. cbn [nth cap_triangle]. lia. }
  assert (C1 : nth (3 * (2 * n + i) + 1) (cylinder_indices n) 0%Z = Z.of_nat (2 * (n + 1) + 3 * i + 1)).
  { replace (3 * (2 * n + i) + 1)%nat with (6 * n + 3 * i + 1)%nat by lia.
    rewrite cylinder_top_index by lia. cbn [nth cap_triangle]. lia. }
  assert (C2 : nth (3 * (2 * n + i) + 2) (cylinder_indices n) 0%Z = Z.of_nat (2 * (n + 1) + 3 * i + 2)).
  { replace (3 * (2 * n + i) + 2)%nat with (6 * n + 3 * i + 2)%nat by lia.
    rewrite cylinder_top_index by lia. cbn [nth cap_triangle]. lia. }
  assert (D0 : nth (3 * (3 * n + i)) (cylinder_indices n) 0%Z
               = Z.of_nat (2 * (n + 1) + 3 * n + 3 * i + 0)).
  { replace (3 * (3 * n + i))%nat with (9 * n + 3 * i + 0)%nat by lia.
    rewrite cylinder_bottom_index by lia. cbn [nth cap_triangle]. lia. }
  assert (D1 : nth (3 * (3 * n + i) + 1) (cylinder_indices n) 0%Z
               = Z.of_nat (2 * (n + 1) + 3 * n + 3 * i + 1)).
  { replace (3 * (3 * n + i) + 1)%nat with (9 * n + 3 * i + 1)%nat by lia.
    rewrite cylinder_bottom_index by lia. cbn [nth cap_triangle]. lia. }
  assert (D2 : nth (3 * (3 * n + i) + 2) (cylinder_indices n) 0%Z
               = Z.of_nat (2 * (n + 1) + 3 * n + 3 * i + 2)).
  { replace (3 * (3 * n + i) + 2)%nat with (9 * n + 3 * i + 2)%nat by lia.
    rewrite cylinder_bottom_index by lia. cbn [nth cap_triangle]. lia. }
  rewrite A0, A1, A2, B0, B1, B2, C0, C1, C2, D0, D1, D2, !Nat2Z.id.
  clear A0 A1 A2 B0 B1 B2 C0 C1 C2 D0 D1 D2.
  (* the vertices they name *)
  destruct (cylinder_ring_vertex (i := i) (b := 0)) as [P00 N00]; try lia.
  destruct (cylinder_ring_vertex (i := i) (b := 1)) as [P01 N01]; try lia.
  destruct (cylinder_ring_vertex (i := i + 1) (b := 0)) as [P10 N10]; try lia.
  destruct (cylinder_ring_vertex (i := i + 1) (b := 1)) as [P11 N11]; try lia.
  destruct (cylinder_top_vertex (i := i) (j := 0)) as [PT0 NT0]; try lia.
  destruct (cylinder_top_vertex (i := i) (j := 1)) as [PT1 NT1]; try lia.
  destruct (cylinder_top_vertex (i := i) (j := 2)) as [PT2 NT2]; try lia.
  destruct (cylinder_bottom_vertex (i := i) (j := 0)) as [PB0 NB0]; try lia.
  destruct (cylinder_bottom_vertex (i := i) (j := 1)) as [PB1 NB1]; try lia.
  destruct (cylinder_bottom_vertex (i := i) (j := 2)) as [PB2 NB2]; try lia.
  rewrite P00, N00, P01, N01, P10, P11, PT0, NT0, PT1, PT2, PB0, NB0, PB1, PB2.
  clear P00 N00 P01 N01 P10 N10 P11 N11 PT0 NT0 PT1 NT1 PT2 NT2 PB0 NB0 PB1 NB1 PB2 NB2.
  unfold cylinder_ring, cylinder_top_cap, cylinder_bottom_cap. cbv zeta.
  rewrite Nat2Z.inj_add. change (Z.of_nat 1) with 1%Z.
  set (a1 := circle_angle (Z.of_nat i) (Z.of_nat n)).
  set (a2 := circle_angle (Z.of_nat i + 1) (Z.of_nat n)).
  split; [| split; [| split; [| split]]].
  - facing_R. field.
  - facing_R. field.
  - facing_R. field.
  - facing_R. field.
  - intros Hn. rewrite <- sin_minus. subst a1 a2. unfold circle_angle.
    cbv [pi_v R_Numbers fconst fmul fdiv R_Scalar].
    rewrite plus_IZR. rewrite <- !INR_IZR_INZ.
    assert (H3 : 3 <= INR n) by (replace 3 with (INR 3) by (simpl; lra); apply le_INR; lia).
    replace (2 * PI * (INR i + 1) / INR n - 2 * PI * INR i / INR n)
      with (2 * PI / INR n) by (field; lra).
    pose proof PI_RGT_0 as Hpi.
    apply sin_gt_0.
    + apply Rdiv_lt_0_compat; lra.
    + apply (Rmult_lt_reg_r (INR n)); [lra |].
      unfold Rdiv. rewrite Rmult_assoc, Rinv_l by lra. nra.
Qed.

End CylinderFaces.

Section SphereMesh.
Context {F : Type} {SF : Scalar F} {TF : Trig F} {NF : Numbers F}.

Lemma to_int_small (z : Z) : (0 <= z < 2 ^ 31)%Z -> to_int (to_unsigned z) = z.
Proof.
  intros H. rewrite to_unsigned_small by lia. unfold to_int.
  rewrite Z.mod_small by lia. lia.
Qed.

(** [createSphere] in closed form, for [n] segments and a mesh that
    holds [m] vertices. *)
Lemma createSphere_closed (vertices : list F) (indices : list Z) (m n : nat)
    (center : Vec3f.t F) (radius : F) (color : Vec3f.t F) :
  length vertices = 8 * m ->
  (Z.of_nat m + (Z.of_nat n + 1) * (Z.of_nat n + 1) < 2 ^ 31)%Z ->
  createSphere (vertices, indices) center radius (Z.of_nat n) color
  = (vertices ++ sphere_vertices center radius n,
     indices ++ map (Z.add (Z.of_nat m)) (sphere_indices n)).
Proof.
  intros Hlen Hm.
  unfold createSphere. cbv zeta.
  rewrite (@vertex_count _ _ _ Hlen).
  rewrite (@to_unsigned_small (Z.of_nat m)) by lia.
  replace (Z.to_nat (Z.of_nat n + 1)) with (n + 1) by lia.
  rewrite Nat2Z.id.
  unfold for_lt.
  rewrite (for_from_append
             (fun i => flat_map (sphere_vertex center radius (Z.of_nat n) i) (seq 0 (n + 1))))
    by (intros i acc;
        apply (for_from_append (sphere_vertex center radius (Z.of_nat n) i));
        intros j acc'; reflexivity).
  rewrite (for_from_append
             (fun i => flat_map (fun j =>
                let first := to_int (to_unsigned (Z.of_nat m + Z.of_nat i * (Z.of_nat n + 1)
                                                  + Z.of_nat j)) in
                let second := (first + Z.of_nat n + 1)%Z in
                [to_unsigned first; to_unsigned second; to_unsigned (first + 1);
                 to_unsigned second; to_unsigned (second + 1); to_unsigned (first + 1)])
                (seq 0 n)))
    by (intros i acc;
        apply (for_from_append (fun j =>
                let first := to_int (to_unsigned (Z.of_nat m + Z.of_nat i * (Z.of_nat n + 1)
                                                  + Z.of_nat j)) in
                let second := (first + Z.of_nat n + 1)%Z in
                [to_unsigned first; to_unsigned second; to_unsigned (first + 1);
                 to_unsigned second; to_unsigned (second + 1); to_unsigned (first + 1)]));
        intros j acc'; cbv zeta; rewrite <- !app_assoc; reflexivity).
  unfold sphere_vertices, sphere_indices.
  f_equal. f_equal.
  rewrite map_flat_map.
  apply flat_map_ext_seq. intros i Hi.
  rewrite map_flat_map.
  apply flat_map_ext_seq. intros j Hj.
  unfold sphere_quad. cbv zeta. cbn [map].
  rewrite to_int_small by nia.
  rewrite !to_unsigned_small by nia.
  repeat (f_equal; try lia).
Qed.

Lemma sphere_vertices_length (center : Vec3f.t F) (radius : F) (n : nat) :
  length (sphere_vertices center radius n) = 8 * ((n + 1) * (n + 1)).
Proof.
  unfold sphere_vertices.
  rewrite (@flat_map_chunks_length _ _ (8 * (n + 1))), length_seq; [lia |].
  intros k. rewrite (@flat_map_chunks_length _ _ 8), length_seq by reflexivity. lia.
Qed.

Lemma sphere_indices_length (n : nat) : length (sphere_indices n) = 3 * (2 * (n * n)).
Proof.
  unfold sphere_indices.
  rewrite (@flat_map_chunks_length _ _ (6 * n)), length_seq; [lia |].
  intros k. rewrite (@flat_map_chunks_length _ _ 6), length_seq by reflexivity. lia.
Qed.

Lemma sphere_indices_range (n : nat) :
  Forall (fun i => (0 <= i < (Z.of_nat n + 1) * (Z.of_nat n + 1))%Z) (sphere_indices n).
Proof.
  unfold sphere_indices. rewrite Forall_flat_map, Forall_forall.
  intros i Hi%in_seq. rewrite Forall_flat_map, Forall_forall.
  intros j Hj%in_seq. unfold sphere_quad. cbv zeta.
  repeat (constructor; [nia |]); constructor.
Qed.

(** [createSphere] appends to the mesh: what was there is kept; for
    [segments >= 0] it adds [(segments + 1)^2] vertices of eight floats
    and the indices of [2 * segments^2] triangles; the new indices are
    those of the same sphere built into an empty mesh, shifted by the
    number of vertices that were there, and each of them names one of
    the new vertices. *)
Theorem createSphere_appends (vertices : list F) (indices : list Z) (m : nat)
    (center : Vec3f.t F) (radius : F) (segments : Z) (color : Vec3f.t F) :
  length vertices = 8 * m -> (0 <= segments)%Z ->
  (Z.of_nat m + (segments + 1) * (segments + 1) < 2 ^ 31)%Z ->
  exists V I,
    createSphere ([], []) center radius segments color = (V, I) /\
    createSphere (vertices, indices) center radius segments color
      = (vertices ++ V, indices ++ map (Z.add (Z.of_nat m)) I) /\
    length V = 8 * Z.to_nat ((segments + 1) * (segments + 1)) /\
    length I = 3 * Z.to_nat (2 * (segments * segments)) /\
    Forall (fun i => (0 <= i < (segments + 1) * (segments + 1))%Z) I.
Proof.
  intros Hlen Hs Hm.
  rewrite <- (Z2Nat.id segments Hs) in *. set (n := Z.to_nat segments) in *.
  exists (sphere_vertices center radius n), (sphere_indices n).
  split.
  { rewrite (@createSphere_closed [] [] 0 n) by (cbn [length]; lia).
    cbn [app]. f_equal. rewrite <- (map_id (sphere_indices n)) at 2.
    apply map_ext. intros a. reflexivity. }
  split; [apply createSphere_closed; [exact Hlen | lia] |].
  split; [rewrite sphere_vertices_length; f_equal; lia |].
  split; [rewrite sphere_indices_length; f_equal; lia |].
  apply sphere_indices_range.
Qed.

End SphereMesh.

Section SphereFaces.
Local Open Scope R_scope.

Variables (center : Vec3f.t R) (radius : R) (n : nat).

Lemma sphere_float (i j c : nat) :
  (i < n + 1)%nat -> (j < n + 1)%nat -> (c < 8)%nat ->
  nth (8 * (i * (n + 1) + j) + c) (sphere_vertices center radius n) 0
  = nth c (sphere_vertex center radius (Z.of_nat n) i j) 0.
Proof.
  intros Hi Hj Hc. unfold sphere_vertices.
  replace (8 * (i * (n + 1) + j) + c)%nat
    with (8 * (n + 1) * i + (8 * j + c))%nat by lia.
  rewrite (@nth_flat_map_chunk _
             (fun i => flat_map (sphere_vertex center radius (Z.of_nat n) i) (seq 0 (n + 1)))
             (8 * (n + 1))); try lia.
  - cbn [Nat.add].
    rewrite (@nth_flat_map_chunk _ (sphere_vertex center radius (Z.of_nat n) i) 8)
      by (reflexivity || lia).
    reflexivity.
  - intros k. rewrite (@flat_map_chunks_length _ _ 8), length_seq by reflexivity. lia.
Qed.

Lemma sphere_index (i j c : nat) :
  (i < n)%nat -> (j < n)%nat -> (c < 6)%nat ->
  nth (6 * (i * n + j) + c) (sphere_indices n) 0%Z = nth c (sphere_quad n i j) 0%Z.
Proof.
  intros Hi Hj Hc. unfold sphere_indices.
  replace (6 * (i * n + j) + c)%nat with (6 * n * i + (6 * j + c))%nat by lia.
  rewrite (@nth_flat_map_chunk _ (fun i => flat_map (sphere_quad n i) (seq 0 n)) (6 * n));
    try lia.
  - cbn [Nat.add].
    rewrite (@nth_flat_map_chunk _ (sphere_quad n i) 6) by (reflexivity || lia).
    reflexivity.
  - intros k. rewrite (@flat_map_chunks_length _ _ 6), length_seq by reflexivity. lia.
Qed.

Lemma sphere_vertex_at (i j : nat) :
  (i < n + 1)%nat -> (j < n + 1)%nat ->
  vertex_position (sphere_vertices center radius n) (i * (n + 1) + j)
    = vertex_position (sphere_vertex center radius (Z.of_nat n) i j) 0 /\
  vertex_normal (sphere_vertices center radius n) (i * (n + 1) + j)
    = vertex_normal (sphere_vertex center radius (Z.of_nat n) i j) 0.
Proof.
  intros Hi Hj. unfold vertex_position, vertex_normal. split; apply Vec3f_make_eq.
  - replace (8 * (i * (n + 1) + j))%nat with (8 * (i * (n + 1) + j) + 0)%nat by lia.
    apply sphere_float; lia.
  - apply sphere_float; lia.
  - apply sphere_float; lia.
  - apply sphere_float; lia.
  - apply sphere_float; lia.
  - apply sphere_float; lia.
Qed.

(** The vertices of a sphere of at least one segment: the vertex of
    step [i], [j] has the stored normal
    (sin theta cos phi, cos theta, sin theta sin phi), which has length
    one, and lies at the centre plus the radius times that normal.
    (With no segment the one vertex the loops store is computed from
    0 / 0.) *)
Theorem createSphere_vertices_on_sphere (color : Vec3f.t R) (i j : nat) :
  (1 <= n)%nat -> (i <= n)%nat -> (j <= n)%nat ->
  ((Z.of_nat n + 1) * (Z.of_nat n + 1) < 2 ^ 31)%Z ->
  let vertices := fst (createSphere ([], []) center radius (Z.of_nat n) color) in
  let theta : R := polar_angle (Z.of_nat i) (Z.of_nat n) in
  let phi : R := circle_angle (Z.of_nat j) (Z.of_nat n) in
  let N := vertex_normal vertices (i * (n + 1) + j) in
  let P := vertex_position vertices (i * (n + 1) + j) in
  N = Vec3f.make (sin theta * cos phi) (cos theta) (sin theta * sin phi) /\
  dot3 N N = 1 /\
  P = Vec3f.make (Vec3f.x center + radius * Vec3f.x N)
                 (Vec3f.y center + radius * Vec3f.y N)
                 (Vec3f.z center + radius * Vec3f.z N) /\
  dot3 (sub3 P center) (sub3 P center) = radius * radius.
Proof.
  intros Hn1 Hi Hj Hn. cbv zeta.
  rewrite (@createSphere_closed R _ _ _ [] [] 0 n) by (cbn [length]; lia).
  cbn [app fst].
  destruct (@sphere_vertex_at i j) as [HP HN]; try lia.
  rewrite HP, HN. clear HP HN.
  unfold sphere_vertex. cbv zeta.
  set (t := @polar_angle R _ _ (Z.of_nat i) (Z.of_nat n)).
  set (p := @circle_angle R _ _ (Z.of_nat j) (Z.of_nat n)).
  pose proof (sin2_cos2 t) as Ht. pose proof (sin2_cos2 p) as Hp. unfold Rsqr in Ht, Hp.
  destruct center as [cx cy cz].
  facing_R.
  assert (E : sin t * cos p * (sin t * cos p) + cos t * cos t
              + sin t * sin p * (sin t * sin p) = 1).
  { transitivity (sin t * sin t * (sin p * sin p + cos p * cos p) + cos t * cos t);
      [ring | rewrite Hp; lra]. }
  split; [reflexivity |]. split; [exact E |]. split; [reflexivity |].
  transitivity (radius * radius
                * (sin t * cos p * (sin t * cos p) + cos t * cos t
                   + sin t * sin p * (sin t * sin p))); [ring | rewrite E; ring].
Qed.

(** Every triangle of a sphere is clockwise seen from outside. The two
    triangles of step [i], [j] face by minus the square of the radius
    times the sine of the step in theta, the sine of the step in phi,
    and the sine of theta at the first vertex of the triangle; from
    three segments on none of them faces outward. *)
Theorem createSphere_faces_inward (color : Vec3f.t R) (i j : nat) :
  (i < n)%nat -> (j < n)%nat ->
  ((Z.of_nat n + 1) * (Z.of_nat n + 1) < 2 ^ 31)%Z ->
  let mesh := createSphere ([], []) center radius (Z.of_nat n) color in
  let theta1 : R := polar_angle (Z.of_nat i) (Z.of_nat n) in
  let theta2 : R := polar_angle (Z.of_nat (i + 1)) (Z.of_nat n) in
  let phi1 : R := circle_angle (Z.of_nat j) (Z.of_nat n) in
  let phi2 : R := circle_angle (Z.of_nat (j + 1)) (Z.of_nat n) in
  triangle_facing mesh (2 * (i * n + j))
    = - (radius * radius * sin theta1 * sin (phi2 - phi1) * sin (theta2 - theta1)) /\
  triangle_facing mesh (2 * (i * n + j) + 1)
    = - (radius * radius * sin theta2 * sin (phi2 - phi1) * sin (theta2 - theta1)) /\
  ((3 <= n)%nat ->
     triangle_facing mesh (2 * (i * n + j)) <= 0 /\
     triangle_facing mesh (2 * (i * n + j) + 1) <= 0).
Proof.
  intros Hi Hj Hn mesh theta1 theta2 phi1 phi2. subst mesh.
  rewrite (@createSphere_closed R _ _ _ [] [] 0 n) by (cbn [length]; lia).
  cbn [app]. rewrite (map_ext (Z.add (Z.of_nat 0)) (fun z => z)) by reflexivity.
  rewrite map_id.
  set (V := sphere_vertices center radius n).
  set (I := sphere_indices n).
  assert (A0 : nth (3 * (2 * (i * n + j))) I 0%Z = Z.of_nat (i * (n + 1) + j)).
  { replace (3 * (2 * (i * n + j)))%nat with (6 * (i * n + j) + 0)%nat by lia.
    unfold I. rewrite sphere_index by lia. cbn [nth sphere_quad]. nia. }
  assert (A1 : nth (3 * (2 * (i * n + j)) + 1) I 0%Z = Z.of_nat ((i + 1) * (n + 1) + j)).
  { replace (3 * (2 * (i * n + j)) + 1)%nat with (6 * (i * n + j) + 1)%nat by lia.
    unfold I. rewrite sphere_index by lia. cbn [nth sphere_quad]. nia. }
  assert (A2 : nth (3 * (2 * (i * n + j)) + 2) I 0%Z = Z.of_nat (i * (n + 1) + (j + 1))).
  { replace (3 * (2 * (i * n + j)) + 2)%nat with (6 * (i * n + j) + 2)%nat by lia.
    unfold I. rewrite sphere_index by lia. cbn [nth sphere_quad]. nia. }
  assert (B0 : nth (3 * (2 * (i * n + j) + 1)) I 0%Z = Z.of_nat ((i + 1) * (n + 1) + j)).
  { replace (3 * (2 * (i * n + j) + 1))%nat with (6 * (i * n + j) + 3)%nat by lia.
    unfold I. rewrite sphere_index by lia. cbn [nth sphere_quad]. nia. }
  assert (B1 : nth (3 * (2 * (i * n + j) + 1) + 1) I 0%Z
               = Z.of_nat ((i + 1) * (n + 1) + (j + 1))).
  { replace (3 * (2 * (i * n + j) + 1) + 1)%nat with (6 * (i * n + j) + 4)%nat by lia.
    unfold I. rewrite sphere_index by lia. cbn [nth sphere_quad]. nia. }
  assert (B2 : nth (3 * (2 * (i * n + j) + 1) + 2) I 0%Z
               = Z.of_nat (i * (n + 1) + (j + 1))).
  { replace (3 * (2 * (i * n + j) + 1) + 2)%nat with (6 * (i * n + j) + 5)%nat by lia.
    unfold I. rewrite sphere_index by lia. cbn [nth sphere_quad]. nia. }
  destruct (@sphere_vertex_at i j) as [P00 N00]; try lia.
  destruct (@sphere_vertex_at (i + 1) j) as [P10 N10]; try lia.
  destruct (@sphere_vertex_at i (j + 1)) as [P01 N01]; try lia.
  destruct (@sphere_vertex_at (i + 1) (j + 1)) as [P11 N11]; try lia.
  fold V in P00, N00, P10, N10, P01, N01, P11, N11.
  assert (F1 : triangle_facing (V, I) (2 * (i * n + j))
               = - (radius * radius * sin theta1 * sin (phi2 - phi1)
                    * sin (theta2 - theta1))).
  { unfold triangle_facing. rewrite A0, A1, A2, !Nat2Z.id.
    rewrite P00, N00, P10, P01.
    unfold sphere_vertex. cbv zeta. fold theta1 theta2 phi1 phi2.
    rewrite !sin_minus.
    clearbody theta1 theta2 phi1 phi2.
    destruct center as [cx cy cz].
    facing_R. ring. }
  assert (F2 : triangle_facing (V, I) (2 * (i * n + j) + 1)
               = - (radius * radius * sin theta2 * sin (phi2 - phi1)
                    * sin (theta2 - theta1))).
  { unfold triangle_facing. rewrite B0, B1, B2, !Nat2Z.id.
    rewrite P10, N10, P11, P01.
    unfold sphere_vertex. cbv zeta. fold theta1 theta2 phi1 phi2.
    rewrite !sin_minus.
    clearbody theta1 theta2 phi1 phi2.
    destruct center as [cx cy cz].
    facing_R. ring. }
  split; [exact F1 |]. split; [exact F2 |].
  intros H3. rewrite F1, F2.
  pose proof PI_RGT_0 as Hpi.
  assert (Hn3 : 3 <= IZR (Z.of_nat n)) by (apply IZR_le; lia).
  assert (Hi0 : 0 <= IZR (Z.of_nat i)) by (apply IZR_le; lia).
  assert (Hin : IZR (Z.of_nat i) + 1 <= IZR (Z.of_nat n))
    by (rewrite <- (plus_IZR _ 1); apply IZR_le; lia).
  assert (Ei : IZR (Z.of_nat (i + 1)) = IZR (Z.of_nat i) + 1)
    by (rewrite Nat2Z.inj_add, plus_IZR; reflexivity).
  assert (Ej : IZR (Z.of_nat (j + 1)) = IZR (Z.of_nat j) + 1)
    by (rewrite Nat2Z.inj_add, plus_IZR; reflexivity).
  assert (T1 : theta1 = PI * IZR (Z.of_nat i) / IZR (Z.of_nat n)) by reflexivity.
  assert (T2 : theta2 = PI * (IZR (Z.of_nat i) + 1) / IZR (Z.of_nat n))
    by (rewrite <- Ei; reflexivity).
  assert (Dt : theta2 - theta1 = PI / IZR (Z.of_nat n))
    by (rewrite T1, T2; field; lra).
  assert (Dp : phi2 - phi1 = 2 * PI / IZR (Z.of_nat n)).
  { unfold phi1, phi2, circle_angle. cbv [pi_v R_Numbers fconst fmul fdiv R_Scalar].
    rewrite Ej. field. lra. }
  assert (Hinv : 0 < / IZR (Z.of_nat n)) by (apply Rinv_0_lt_compat; lra).
  assert (Hinv3 : / IZR (Z.of_nat n) <= / 3)
    by (apply Rinv_le_contravar; lra).
  assert (St : 0 < sin (theta2 - theta1)).
  { rewrite Dt. apply sin_gt_0; unfold Rdiv; nra. }
  assert (Sp : 0 < sin (phi2 - phi1)).
  { rewrite Dp. apply sin_gt_0; unfold Rdiv; nra. }
  assert (Hle : forall k : R, 0 <= k <= IZR (Z.of_nat n) ->
                0 <= sin (PI * k / IZR (Z.of_nat n))).
  { intros k Hk. apply sin_ge_0.
    - unfold Rdiv. apply Rmult_le_pos; [nra | lra].
    - apply (Rmult_le_reg_r (IZR (Z.of_nat n))); [lra |].
      unfold Rdiv. rewrite Rmult_assoc, Rinv_l by lra. nra. }
  assert (S1 : 0 <= sin theta1) by (rewrite T1; apply Hle; lra).
  assert (S2 : 0 <= sin theta2) by (rewrite T2; apply Hle; lra).
  assert (R2 : 0 <= radius * radius) by nra.
  clearbody theta1 theta2 phi1 phi2.
  split.
  - assert (0 <= radius * radius * sin theta1 * sin (phi2 - phi1) * sin (theta2 - theta1)).
    { apply Rmult_le_pos; [apply Rmult_le_pos; [apply Rmult_le_pos |] |]; lra. }
    lra.
  - assert (0 <= radius * radius * sin theta2 * sin (phi2 - phi1) * sin (theta2 - theta1)).
    { apply Rmult_le_pos; [apply Rmult_le_pos; [apply Rmult_le_pos |] |]; lra. }
    lra.
Qed.

End SphereFaces.

Section VehicleMesh.
Context {F : Type} {SF : Scalar F} {TF : Trig F} {NF : Numbers F}.

Lemma mesh_ok_append (m t N T : nat) (vertices V : list F) (indices I : list Z) :
  mesh_ok m t (vertices, indices) ->
  length V = 8 * N -> length I = 3 * T ->
  Forall (fun i => (0 <= i < Z.of_nat N)%Z) I ->
  mesh_ok (m + N) (t + T) (vertices ++ V, indices ++ map (Z.add (Z.of_nat m)) I).
Proof.
  intros (Hv & Hi & Hr) HV HI HR. unfold mesh_ok. cbn [fst snd] in *.
  rewrite !length_app, length_map, Hv, Hi, HV, HI.
  split; [lia |]. split; [lia |].
  apply Forall_app. split.
  - eapply Forall_impl; [| exact Hr]. cbv beta. intros a Ha. lia.
  - apply Forall_map. eapply Forall_impl; [| exact HR]. cbv beta. intros a Ha. lia.
Qed.

Lemma createBox_ok (m t : nat) (mesh : list F * list Z) (center size color : Vec3f.t F) :
  mesh_ok m t mesh -> (Z.of_nat m + 24 <= 2 ^ 32)%Z ->
  mesh_ok (m + 24) (t + 12) (createBox mesh center size color).
Proof.
  destruct mesh as [vertices indices]. intros Hok Hm.
  destruct (@createBox_shift _ _ vertices indices m center size color
              (proj1 Hok) Hm) as (-> & HV & HI & HR).
  apply mesh_ok_append; assumption.
Qed.

Lemma createCylinder_ok (m t : nat) (mesh : list F * list Z) (center : Vec3f.t F)
    (radius height : F) (n : nat) (color : Vec3f.t F) :
  mesh_ok m t mesh -> (Z.of_nat m + Z.of_nat (8 * n + 2) < 2 ^ 32)%Z ->
  mesh_ok (m + (8 * n + 2)) (t + 4 * n)
    (createCylinder mesh center radius height (Z.of_nat n) color).
Proof.
  destruct mesh as [vertices indices]. intros Hok Hm.
  rewrite (@createCylinder_closed _ _ _ _ vertices indices m n);
    [| exact (proj1 Hok) | exact Hm].
  apply mesh_ok_append; [exact Hok | | |].
  - apply cylinder_vertices_length.
  - apply cylinder_indices_length.
  - apply cylinder_indices_range.
Qed.

Lemma createSphere_ok (m t : nat) (mesh : list F * list Z) (center : Vec3f.t F)
    (radius : F) (n : nat) (color : Vec3f.t F) :
  mesh_ok m t mesh ->
  (Z.of_nat m + (Z.of_nat n + 1) * (Z.of_nat n + 1) < 2 ^ 31)%Z ->
  mesh_ok (m + (n + 1) * (n + 1)) (t + 2 * (n * n))
    (createSphere mesh center radius (Z.of_nat n) color).
Proof.
  destruct mesh as [vertices indices]. intros Hok Hm.
  rewrite (@createSphere_closed _ _ _ _ vertices indices m n);
    [| exact (proj1 Hok) | exact Hm].
  apply mesh_ok_append; [exact Hok | | |].
  - apply sphere_vertices_length.
  - apply sphere_indices_length.
  - eapply Forall_impl; [| apply sphere_indices_range]. cbv beta. intros a Ha. lia.
Qed.

(** The space vehicle: the eight shapes make a mesh of 712 vertices and
    644 triangles, and each of its 1932 indices names one of the 712
    vertices. *)
Theorem vehicle_well_formed :
  length (fst vehicle) = 8 * 712 /\
  length (snd vehicle) = 3 * 644 /\
  Forall (fun i => (0 <= i < 712)%Z) (snd vehicle).
Proof.
  change (mesh_ok 712 644 vehicle).
  unfold vehicle. cbv zeta.
  change 16%Z with (Z.of_nat 16). change 12%Z with (Z.of_nat 12).
  change 8%Z with (Z.of_nat 8).
  apply (@createSphere_ok 631 516 _ _ _ 8); [| vm_compute; reflexivity].
  apply (@createCylinder_ok 501 452 _ _ _ _ 16); [| vm_compute; reflexivity].
  apply (@createBox_ok 477 440); [| vm_compute; discriminate].
  apply (@createBox_ok 453 428); [| vm_compute; discriminate].
  apply (@createBox_ok 429 416); [| vm_compute; discriminate].
  apply (@createSphere_ok 260 128 _ _ _ 12); [| vm_compute; reflexivity].
  apply (@createCylinder_ok 130 64 _ _ _ _ 16); [| vm_compute; reflexivity].
  apply (@createCylinder_ok 0 0 _ _ _ _ 16); [| vm_compute; reflexivity].
  repeat split. constructor.
Qed.

End VehicleMesh.

(** ** The builders at sample arguments *)

Section VehicleSamples.
Local Open Scope R_scope.

(** A unit cube added to a mesh of one vertex and one triangle. *)
Lemma createBox_appends_witness :
  exists V I,
    createBox (repeat 0 8, [0; 0; 0]%Z) (Vec3f.make 0 0 0) (Vec3f.make 1 1 1)
              (Vec3f.make 1 1 1)
      = (repeat 0 8 ++ V, [0; 0; 0]%Z ++ map (Z.add (Z.of_nat 1)) I) /\
    length I = (3 * 12)%nat.
Proof.
  destruct (@createBox_appends R _ (repeat 0 8) [0; 0; 0]%Z 1
              (Vec3f.make 0 0 0) (Vec3f.make 1 1 1) (Vec3f.make 1 1 1))
    as (V & I & _ & H & _ & HI & _).
  - reflexivity.
  - lia.
  - exists V, I. split; [exact H | exact HI].
Defined.

(** The main body of the vehicle: sixteen segments. *)
Lemma createCylinder_appends_witness :
  exists V I,
    createCylinder ([], []) (Vec3f.make 0 (3 / 2) 0) (2 / 5) 3 16 (Vec3f.make 1 1 1)
      = (V, I) /\
    length V = (8 * 130)%nat /\ length I = (3 * 64)%nat.
Proof.
  destruct (@createCylinder_appends R _ _ _ [] [] 0
              (Vec3f.make 0 (3 / 2) 0) (2 / 5) 3 16 (Vec3f.make 1 1 1))
    as (V & I & H & _ & HV & HI & _).
  - reflexivity.
  - lia.
  - lia.
  - exists V, I. split; [exact H | split; [exact HV | exact HI]].
Defined.

(** The top sphere of the vehicle: twelve segments. *)
Lemma createSphere_appends_witness :
  exists V I,
    createSphere ([], []) (Vec3f.make 0 (9 / 2) 0) (3 / 10) 12 (Vec3f.make 1 1 1)
      = (V, I) /\
    length V = (8 * 169)%nat /\ length I = (3 * 288)%nat.
Proof.
  destruct (@createSphere_appends R _ _ _ [] [] 0
              (Vec3f.make 0 (9 / 2) 0) (3 / 10) 12 (Vec3f.make 1 1 1))
    as (V & I & H & _ & HV & HI & _).
  - reflexivity.
  - lia.
  - lia.
  - exists V, I. split; [exact H | split; [exact HV | exact HI]].
Defined.

(** The first side triangle of a cylinder of sixteen segments. *)
Lemma createCylinder_faces_inward_witness :
  triangle_facing
    (createCylinder ([], []) (Vec3f.make 0 0 0) 1 2 (Z.of_nat 16) (Vec3f.make 1 1 1))
    (2 * 0)
  = - (2 * 1 * sin (circle_angle (Z.of_nat 0 + 1) (Z.of_nat 16)
                    - circle_angle (Z.of_nat 0) (Z.of_nat 16))).
Proof.
  destruct (@createCylinder_faces_inward (Vec3f.make 0 0 0) 1 2 16 (Vec3f.make 1 1 1) 0)
    as (H & _).
  - lia.
  - reflexivity.
  - exact H.
Defined.

(** A vertex on the equator of a sphere of twelve segments. *)
Lemma createSphere_vertices_on_sphere_witness :
  let vertices :=
    fst (createSphere ([], []) (Vec3f.make 0 0 0) 2 (Z.of_nat 12) (Vec3f.make 1 1 1)) in
  dot3 (vertex_normal vertices (6 * (12 + 1) + 3))
       (vertex_normal vertices (6 * (12 + 1) + 3)) = 1.
Proof.
  destruct (@createSphere_vertices_on_sphere (Vec3f.make 0 0 0) 2 12
              (Vec3f.make 1 1 1) 6 3) as (_ & H & _).
  - lia.
  - lia.
  - lia.
  - reflexivity.
  - exact H.
Defined.

(** A triangle of a sphere of twelve segments. *)
Lemma createSphere_faces_inward_witness :
  triangle_facing
    (createSphere ([], []) (Vec3f.make 0 0 0) 2 (Z.of_nat 12) (Vec3f.make 1 1 1))
    (2 * (6 * 12 + 3)) <= 0.
Proof.
  destruct (@createSphere_faces_inward (Vec3f.make 0 0 0) 2 12 (Vec3f.make 1 1 1) 6 3)
    as (_ & _ & H).
  - lia.
  - lia.
  - reflexivity.
  - apply H. lia.
Defined.

End VehicleSamples.

(** ** The shaders *)

Section ShaderUpload.
Local Open Scope R_scope.

(** The main loop transposes a matrix before it hands its floats to
    [glUniformMatrix4fv] without the transpose flag. In exact
    arithmetic the two cancel: with the uniforms set from
    [transpose( mvp )] and [transpose( model )], [gl_Position] is
    [mvp * (aPosition, 1)] and [vPosition] is the [xyz] of
    [model * (aPosition, 1)], the products being those of the header.
    Set from the floats of a matrix as they are, a uniform multiplies
    as the transpose of that matrix. *)
Theorem default_vert_upload (mvp model : Mat44f R) (aPosition aNormal : Vec3f.t R)
    (aTexCoord : Vec2f.t R) :
  let out := default_vert (glUniformMatrix4fv (transpose mvp))
               (glUniformMatrix4fv (transpose model)) aPosition aNormal aTexCoord in
  gl_Position out = operator_mul_vec mvp (vec4_of aPosition 1) /\
  vPosition out = xyz (operator_mul_vec model (vec4_of aPosition 1)) /\
  vNormal out = glsl_normalize (xyz (operator_mul_vec model (vec4_of aNormal 0))) /\
  vTexCoord out = aTexCoord /\
  (forall (m : Mat44f R) (p : Vec4f.t R),
     mat4_mul_vec4 (glUniformMatrix4fv (transpose m)) p = operator_mul_vec m p) /\
  (forall (m : Mat44f R) (p : Vec4f.t R),
     mat4_mul_vec4 (glUniformMatrix4fv m) p = operator_mul_vec (transpose m) p).
Proof.
  assert (A : forall (m : Mat44f R) (p : Vec4f.t R),
            mat4_mul_vec4 (glUniformMatrix4fv (transpose m)) p = operator_mul_vec m p).
  { intros m p. destruct m, p.
    cbv [mat4_mul_vec4 glUniformMatrix4fv column_0 column_1 column_2 column_3].
    unroll_R. apply Vec4f_make_eq; ring. }
  assert (B : forall (m : Mat44f R) (p : Vec4f.t R),
            mat4_mul_vec4 (glUniformMatrix4fv m) p = operator_mul_vec (transpose m) p).
  { intros m p. destruct m, p.
    cbv [mat4_mul_vec4 glUniformMatrix4fv column_0 column_1 column_2 column_3].
    unroll_R. apply Vec4f_make_eq; ring. }
  cbv zeta. unfold default_vert. cbv zeta.
  cbn [gl_Position vPosition vNormal vTexCoord].
  rewrite !A.
  split; [reflexivity |]. split; [reflexivity |]. split; [reflexivity |].
  split; [reflexivity |]. split; [exact A | exact B].
Qed.

End ShaderUpload.

Section ShaderExact.
Local Open Scope R_scope.

Lemma glsl_dot_R (a b : Vec3f.t R) :
  glsl_dot a b = Vec3f.x a * Vec3f.x b + Vec3f.y a * Vec3f.y b + Vec3f.z a * Vec3f.z b.
Proof. reflexivity. Qed.

(** The normalised vector has length one. *)
Lemma glsl_normalize_unit (a : Vec3f.t R) :
  glsl_dot a a <> 0 -> glsl_dot (glsl_normalize a) (glsl_normalize a) = 1.
Proof.
  intros Ha. destruct a as [x y z].
  unfold glsl_normalize, glsl_length. rewrite !glsl_dot_R in *.
  cbn [Vec3f.x Vec3f.y Vec3f.z] in *.
  cbv [fdiv fsqrt R_Scalar R_Sqrt].
  set (s := x * x + y * y + z * z) in *.
  assert (Hs : 0 < s) by (subst s; nra).
  assert (Hq : sqrt s * sqrt s = s) by (apply sqrt_sqrt; lra).
  assert (Hq0 : sqrt s <> 0) by (intros E; rewrite E in Hq; lra).
  transitivity (s / (sqrt s * sqrt s)); [subst s; field; exact Hq0 |].
  rewrite Hq. field. lra.
Qed.

(** The dot product of two vectors of length one is at most one. *)
Lemma glsl_dot_unit (a b : Vec3f.t R) :
  glsl_dot a a = 1 -> glsl_dot b b = 1 -> glsl_dot a b <= 1.
Proof.
  destruct a as [ax ay az], b as [bx b_y bz]. rewrite !glsl_dot_R.
  cbn [Vec3f.x Vec3f.y Vec3f.z]. intros Ha Hb.
  pose proof (Rle_0_sqr (ax - bx)) as H1.
  pose proof (Rle_0_sqr (ay - b_y)) as H2.
  pose proof (Rle_0_sqr (az - bz)) as H3.
  unfold Rsqr in *. nra.
Qed.

Lemma scale_between (b d m : R) :
  0 <= b -> 0 <= d -> 0 <= m <= 1 -> 0 <= b * (d * m) <= b * d.
Proof.
  intros Hb Hd [Hm0 Hm1].
  assert (H1m : 0 <= 1 - m) by lra.
  pose proof (Rmult_le_pos _ _ Hb (Rmult_le_pos _ _ Hd Hm0)) as H1.
  pose proof (Rmult_le_pos _ _ Hb (Rmult_le_pos _ _ Hd H1m)) as H2.
  split; [exact H1 |].
  replace (b * (d * (1 - m))) with (b * d - b * (d * m)) in H2 by ring. lra.
Qed.

(** The light of the fragment shader, for a light direction of length
    one, a normal that is not zero and ambient, diffuse and base colours
    that are not negative: every colour component lies between the
    ambient and the ambient plus diffuse share of the base colour, and
    alpha is one. With the ambient 0.2 and the diffuse 0.8 of the main
    loop a fragment is never brighter than its base colour and never
    darker than a fifth of it. *)
Theorem default_frag_range (uLightDir uAmbientColor uDiffuseColor texel : Vec3f.t R)
    (uUseTexture : bool) (uMaterialColor : Vec3f.t R) (uUseMaterialColor : bool)
    (vNormal : Vec3f.t R) :
  glsl_dot uLightDir uLightDir = 1 -> glsl_dot vNormal vNormal <> 0 ->
  0 <= Vec3f.x uDiffuseColor -> 0 <= Vec3f.y uDiffuseColor -> 0 <= Vec3f.z uDiffuseColor ->
  let baseColor := base_color texel uUseTexture uMaterialColor uUseMaterialColor in
  0 <= Vec3f.x baseColor -> 0 <= Vec3f.y baseColor -> 0 <= Vec3f.z baseColor ->
  let fColor := default_frag uLightDir uAmbientColor uDiffuseColor texel uUseTexture
                  uMaterialColor uUseMaterialColor vNormal in
  Vec3f.x baseColor * Vec3f.x uAmbientColor <= Vec4f.x fColor
    <= Vec3f.x baseColor * (Vec3f.x uAmbientColor + Vec3f.x uDiffuseColor) /\
  Vec3f.y baseColor * Vec3f.y uAmbientColor <= Vec4f.y fColor
    <= Vec3f.y baseColor * (Vec3f.y uAmbientColor + Vec3f.y uDiffuseColor) /\
  Vec3f.z baseColor * Vec3f.z uAmbientColor <= Vec4f.z fColor
    <= Vec3f.z baseColor * (Vec3f.z uAmbientColor + Vec3f.z uDiffuseColor) /\
  Vec4f.w fColor = 1 /\
  (uAmbientColor = uAmbientColor_main -> uDiffuseColor = uDiffuseColor_main ->
   Vec3f.x baseColor / 5 <= Vec4f.x fColor <= Vec3f.x baseColor /\
   Vec3f.y baseColor / 5 <= Vec4f.y fColor <= Vec3f.y baseColor /\
   Vec3f.z baseColor / 5 <= Vec4f.z fColor <= Vec3f.z baseColor).
Proof.
  intros Hl Hn Hdx Hdy Hdz baseColor Hbx Hby Hbz fColor.
  pose proof (glsl_normalize_unit Hn) as Hu.
  pose proof (glsl_dot_unit Hu Hl) as Hle.
  subst fColor. unfold default_frag. cbv zeta. fold baseColor.
  set (d := glsl_dot (glsl_normalize vNormal) uLightDir) in *.
  assert (Hm : 0 <= glsl_max d (fconst 0) <= 1).
  { unfold glsl_max, flt, R_Ordered. cbv [fconst R_Scalar].
    destruct (Rlt_dec d 0); lra. }
  set (m := glsl_max d (fconst 0)) in *. clearbody m baseColor.
  destruct baseColor as [bx b_y bz], uAmbientColor as [ax ay az],
    uDiffuseColor as [dx dy dz].
  cbn [Vec3f.x Vec3f.y Vec3f.z Vec4f.x Vec4f.y Vec4f.z Vec4f.w vec4_of] in *.
  cbv [fadd fmul fconst R_Scalar].
  pose proof (scale_between Hbx Hdx Hm) as Hx.
  pose proof (scale_between Hby Hdy Hm) as Hy.
  pose proof (scale_between Hbz Hdz Hm) as Hz.
  rewrite !Rmult_plus_distr_l.
  split; [lra |]. split; [lra |]. split; [lra |]. split; [reflexivity |].
  intros Ea Ed.
  unfold uAmbientColor_main, uDiffuseColor_main, fdec in Ea, Ed.
  cbv [fdiv fconst R_Scalar] in Ea, Ed.
  injection Ea as -> -> ->. injection Ed as -> -> ->.
  lra.
Qed.

End ShaderExact.

Section ShaderSamples.
Local Open Scope R_scope.

(** A white fragment whose normal points at the light, with the colours
    of the main loop. *)
Lemma default_frag_range_witness :
  let up := Vec3f.make 0 1 0 in
  let fColor := default_frag up uAmbientColor_main uDiffuseColor_main up false up false
                  (Vec3f.make 0 2 0) in
  1 / 5 <= Vec4f.x fColor <= 1 /\ Vec4f.w fColor = 1.
Proof.
  cbv zeta.
  destruct (@default_frag_range (Vec3f.make 0 1 0) uAmbientColor_main uDiffuseColor_main
              (Vec3f.make 0 1 0) false (Vec3f.make 0 1 0) false (Vec3f.make 0 2 0))
    as (_ & _ & _ & Hw & Hm).
  - rewrite glsl_dot_R. cbn [Vec3f.x Vec3f.y Vec3f.z]. lra.
  - rewrite glsl_dot_R. cbn [Vec3f.x Vec3f.y Vec3f.z]. lra.
  - unfold uDiffuseColor_main, fdec. cbn [Vec3f.x]. cbv [fdiv fconst R_Scalar]. lra.
  - unfold uDiffuseColor_main, fdec. cbn [Vec3f.y]. cbv [fdiv fconst R_Scalar]. lra.
  - unfold uDiffuseColor_main, fdec. cbn [Vec3f.z]. cbv [fdiv fconst R_Scalar]. lra.
  - unfold base_color. cbn [Vec3f.x]. cbv [fconst R_Scalar]. lra.
  - unfold base_color. cbn [Vec3f.y]. cbv [fconst R_Scalar]. lra.
  - unfold base_color. cbn [Vec3f.z]. cbv [fconst R_Scalar]. lra.
  - destruct (Hm eq_refl eq_refl) as (Hx & _ & _).
    unfold base_color in Hx. cbn [Vec3f.x] in Hx. cbv [fconst R_Scalar] in Hx.
    split; [exact Hx | exact Hw].
Defined.

End ShaderSamples.
